(** * GhostDistributed: capability scoring, master election and task distribution

    A shallow embedding of the class [GhostDistributed] (the distribution
    engine of the ghost network) and of the part of [ghostClient] it reads.

    Conventions of the embedding.
    - A JavaScript [number] is a rational ([Q]); [NaN] and the infinities
      are outside the model.  The arithmetic of the score and of the
      suitability is binary64: [JS.add], [JS.sub] and [JS.div] return the
      binary64 value nearest to the exact result.  Clock readings, latency
      samples, their averages, frame times and progress values are added,
      subtracted and divided exactly.
    - A JavaScript [Map] is an association list in insertion order: [set] on
      a present key replaces the value in place, [set] on an absent key
      appends, iteration runs front to back.
    - A method is a computation in the monad [M]: it reads and writes the
      fields of the engine and produces the list of effects it performs
      ([emit], [ghostClient.sendToPeer], [setTimeout]) in program order.
    - [performance.now()] and [Date.now()] are read from the input that
      triggers the handler. *)

From Stdlib Require Import ZArith QArith Qround Qminmax Qabs Qpower Lqa String List Bool Lia.
From Stdlib Require Import Permutation Sorted.
From Stdlib Require DecimalString DecimalNat.
Import ListNotations.

Local Open Scope Q_scope.

(** ** JavaScript numbers *)

Module JS.

Definition number := Q.

(** [a > b], [a >= b] on numbers. *)
Definition gtb (a b : number) : bool := negb (Qle_bool a b).
Definition geb (a b : number) : bool := Qle_bool b a.

(** [Math.min(a, b)], [Math.max(a, b)]. *)
Definition Math_min (a b : number) : number := if Qle_bool a b then a else b.
Definition Math_max (a b : number) : number := if Qle_bool a b then b else a.

(** [Math.round(x)]: the nearest integer, a tie going up. *)
Definition Math_round (x : number) : number := inject_Z (Qfloor (x + (1 # 2))).

(** [x || d] on a number: [0] is falsy. *)
Definition or_default (x d : number) : number := if Qeq_bool x 0 then d else x.

(** *** binary64

    A finite binary64 value is [m * 2^e] with [|m| <= 2^53] and
    [-1074 <= e].  An arithmetic operation returns the value nearest to the
    exact result, a tie going to the even significand. *)

Definition pow2 (e : Z) : Q := 2 ^ e.

(** The [k] with [2^k <= x < 2^(k+1)], for [x > 0]. *)
Definition ilog2 (x : Q) : Z :=
  let k := (Z.log2 (Qnum x) - Z.log2 (Zpos (Qden x)))%Z in
  if Qle_bool (pow2 k) x then k else (k - 1)%Z.

(** The integer nearest to [x], a tie going to the even one. *)
Definition nearestEven (x : Q) : Z :=
  let f := Qfloor x in
  match Qcompare (x - inject_Z f) (1 # 2) with
  | Lt => f
  | Gt => (f + 1)%Z
  | Eq => if Z.even f then f else (f + 1)%Z
  end.

(** The exponent of the binary64 values around [x]: 53 significant bits,
    and no exponent below that of the subnormal values. *)
Definition exponent (x : Q) : Z := Z.max (ilog2 (Qabs x) - 52) (-1074).

Definition round64 (x : Q) : number :=
  let e := exponent x in
  Qred (inject_Z (nearestEven (x / pow2 e)) * pow2 e).

(** [a + b], [a - b], [a * b], [a / b] on numbers. *)
Definition add (a b : number) : number := round64 (a + b).
Definition sub (a b : number) : number := round64 (a - b).
Definition mul (a b : number) : number := round64 (a * b).
Definition div (a b : number) : number := round64 (a / b).

End JS.

(** [x] is a finite binary64 value. *)
Definition representable (x : Q) : Prop :=
  exists m e : Z, x == inject_Z m * JS.pow2 e /\ (Z.abs m <= 2 ^ 53)%Z /\ (-1074 <= e)%Z.

(** ** JavaScript [Map<string, V>] *)

Module JSMap.

Definition t (V : Type) : Type := list (string * V).

Section Ops.
Context {V : Type}.

Definition empty : t V := [].

Fixpoint get (m : t V) (k : string) : option V :=
  match m with
  | [] => None
  | (k', v) :: m' => if String.eqb k' k then Some v else get m' k
  end.

Definition has (m : t V) (k : string) : bool :=
  match get m k with Some _ => true | None => false end.

Fixpoint set (m : t V) (k : string) (v : V) : t V :=
  match m with
  | [] => [(k, v)]
  | (k', v') :: m' =>
      if String.eqb k' k then (k', v) :: m' else (k', v') :: set m' k v
  end.

Fixpoint delete (m : t V) (k : string) : t V :=
  match m with
  | [] => []
  | (k', v') :: m' =>
      if String.eqb k' k then m' else (k', v') :: delete m' k
  end.

Definition clear (m : t V) : t V := [].

Definition size (m : t V) : Z := Z.of_nat (length m).

Definition keys (m : t V) : list string := map fst m.
Definition values (m : t V) : list V := map snd m.
Definition entries (m : t V) : list (string * V) := m.

(** A [Map] holds a key once. *)
Definition wf (m : t V) : Prop := NoDup (keys m).
End Ops.

End JSMap.

(** ** Data model *)

Inductive DeviceRole : Type := master | compute | storage | display.

Definition DeviceRole_eqb (a b : DeviceRole) : bool :=
  match a, b with
  | master, master | compute, compute | storage, storage | display, display => true
  | _, _ => false
  end.

Record PeerCapabilities : Type := {
  hasGPU : bool;
  hasWASM : bool;
  maxMemory : Q;
  bandwidth : Q;
  canRender : bool;
  canCompute : bool;
  canStore : bool
}.

Module GhostPeer.
Inductive kind : Type := browser | mobile | tv | server.
Inductive state : Type := connecting | connected | syncing | ready.
Record t : Type := {
  id : string;
  name : string;
  type : kind;
  capabilities : PeerCapabilities;
  status : state;
  lastSeen : Q
}.
End GhostPeer.

Record DeviceScore : Type := {
  peerId : string;
  peerName : string;
  score : Q;
  capabilities : PeerCapabilities;
  suggestedRole : DeviceRole;
  latency : Q
}.

Inductive TaskType : Type := render | physics | audio | texture | input.

Definition TaskType_name (ty : TaskType) : string :=
  match ty with
  | render => "render"
  | physics => "physics"
  | audio => "audio"
  | texture => "texture"
  | input => "input"
  end.

Module DistributedTask.
Record t : Type := {
  id : string;
  type : TaskType;
  data : option (list Byte.byte);   (* ArrayBuffer | null *)
  timestamp : Q
}.
End DistributedTask.

Record DistributedMetrics : Type := {
  totalDevices : Z;
  masterDevice : option string;
  avgLatency : Q;
  totalBandwidth : Q;
  framesProcessed : Z;
  tasksDistributed : Z;
  failedTasks : Z
}.

(** Payloads of the messages exchanged between peers. *)

Record TaskInfo : Type := {
  info_id : string;
  info_type : TaskType;
  dataSize : Z;
  info_timestamp : Q
}.

Record TaskOutcome : Type := { processed : bool; deviceId : string }.

Record Frame : Type := { frame_id : Q; rendered : bool; frame_timestamp : Q }.

Inductive Message : Type :=
| latency_ping (timestamp : Q) (sender : string)
| latency_pong (originalTimestamp : Q) (sender : string)
| task_assign (task : TaskInfo)
| task_result (taskId : string) (result : TaskOutcome)
| frame_data (frame : Frame)
| render_request (frameId : Q) (timestamp : Q)
| other_message (type : string).

Record CompletedTask : Type := {
  completed_result : TaskOutcome;
  completed_from : string;
  completedAt : Q
}.

(** The events of [emit], by name, with their payload. *)
Inductive Event : Type :=
| peer_discovered (device : string)
| initialized (myScore : Q) (myCapabilities : PeerCapabilities)
| scores_updated (scores : list DeviceScore)
| role_changed (role : DeviceRole) (isMaster : bool)
| master_elected (masterId : string)
| latency_measured (peer : string) (sample : Q)
| task_received (task : TaskInfo)
| task_completed (taskId : string) (result : TaskOutcome) (sender : string)
| frame_received (sender : string) (frame : Frame)
| started
| stopped.

(** What a method does to the outside, in program order. *)
Inductive Effect : Type :=
| Emit (e : Event)
| SendToPeer (target : string) (msg : Message)
| SetTimeoutBroadcast (delay : Q) (msg : Message).

(** The part of [ghostClient] the engine reads. *)
Record GhostClient : Type := {
  getPeerId : string;
  getPeerName : string;
  getCapabilities : PeerCapabilities
}.

(** The fields of a [GhostDistributed] instance.  [eventHandlers] and the
    two interval handles are left out: handlers are the receivers of the
    [Emit] effects and the intervals only drive [wifiDiscovered]. *)
Record GhostDistributed : Type := {
  myRole : DeviceRole;
  masterPeerId : option string;
  deviceScores : JSMap.t DeviceScore;
  pendingTasks : JSMap.t DistributedTask.t;
  completedTasks : JSMap.t CompletedTask;
  latencyTests : JSMap.t (list Q);
  isRunning : bool;
  metrics : DistributedMetrics
}.

Definition new_GhostDistributed : GhostDistributed := {|
  myRole := display;
  masterPeerId := None;
  deviceScores := JSMap.empty;
  pendingTasks := JSMap.empty;
  completedTasks := JSMap.empty;
  latencyTests := JSMap.empty;
  isRunning := false;
  metrics := {|
    totalDevices := 0;
    masterDevice := None;
    avgLatency := 0;
    totalBandwidth := 0;
    framesProcessed := 0;
    tasksDistributed := 0;
    failedTasks := 0
  |}
|}.

(** Field assignments. *)

Definition set_myRole (r : DeviceRole) (this : GhostDistributed) : GhostDistributed :=
  {| myRole := r; masterPeerId := masterPeerId this;
     deviceScores := deviceScores this; pendingTasks := pendingTasks this;
     completedTasks := completedTasks this; latencyTests := latencyTests this;
     isRunning := isRunning this; metrics := metrics this |}.

Definition set_masterPeerId (p : option string) (this : GhostDistributed) : GhostDistributed :=
  {| myRole := myRole this; masterPeerId := p;
     deviceScores := deviceScores this; pendingTasks := pendingTasks this;
     completedTasks := completedTasks this; latencyTests := latencyTests this;
     isRunning := isRunning this; metrics := metrics this |}.

Definition set_deviceScores (d : JSMap.t DeviceScore) (this : GhostDistributed) : GhostDistributed :=
  {| myRole := myRole this; masterPeerId := masterPeerId this;
     deviceScores := d; pendingTasks := pendingTasks this;
     completedTasks := completedTasks this; latencyTests := latencyTests this;
     isRunning := isRunning this; metrics := metrics this |}.

Definition set_pendingTasks (p : JSMap.t DistributedTask.t) (this : GhostDistributed) : GhostDistributed :=
  {| myRole := myRole this; masterPeerId := masterPeerId this;
     deviceScores := deviceScores this; pendingTasks := p;
     completedTasks := completedTasks this; latencyTests := latencyTests this;
     isRunning := isRunning this; metrics := metrics this |}.

Definition set_completedTasks (c : JSMap.t CompletedTask) (this : GhostDistributed) : GhostDistributed :=
  {| myRole := myRole this; masterPeerId := masterPeerId this;
     deviceScores := deviceScores this; pendingTasks := pendingTasks this;
     completedTasks := c; latencyTests := latencyTests this;
     isRunning := isRunning this; metrics := metrics this |}.

Definition set_latencyTests (l : JSMap.t (list Q)) (this : GhostDistributed) : GhostDistributed :=
  {| myRole := myRole this; masterPeerId := masterPeerId this;
     deviceScores := deviceScores this; pendingTasks := pendingTasks this;
     completedTasks := completedTasks this; latencyTests := l;
     isRunning := isRunning this; metrics := metrics this |}.

Definition set_isRunning (b : bool) (this : GhostDistributed) : GhostDistributed :=
  {| myRole := myRole this; masterPeerId := masterPeerId this;
     deviceScores := deviceScores this; pendingTasks := pendingTasks this;
     completedTasks := completedTasks this; latencyTests := latencyTests this;
     isRunning := b; metrics := metrics this |}.

Definition set_metrics (m : DistributedMetrics) (this : GhostDistributed) : GhostDistributed :=
  {| myRole := myRole this; masterPeerId := masterPeerId this;
     deviceScores := deviceScores this; pendingTasks := pendingTasks this;
     completedTasks := completedTasks this; latencyTests := latencyTests this;
     isRunning := isRunning this; metrics := m |}.

Definition set_totalDevices (n : Z) (m : DistributedMetrics) : DistributedMetrics :=
  {| totalDevices := n; masterDevice := masterDevice m; avgLatency := avgLatency m;
     totalBandwidth := totalBandwidth m; framesProcessed := framesProcessed m;
     tasksDistributed := tasksDistributed m; failedTasks := failedTasks m |}.

Definition set_masterDevice (p : option string) (m : DistributedMetrics) : DistributedMetrics :=
  {| totalDevices := totalDevices m; masterDevice := p; avgLatency := avgLatency m;
     totalBandwidth := totalBandwidth m; framesProcessed := framesProcessed m;
     tasksDistributed := tasksDistributed m; failedTasks := failedTasks m |}.

Definition set_avgLatency (a : Q) (m : DistributedMetrics) : DistributedMetrics :=
  {| totalDevices := totalDevices m; masterDevice := masterDevice m; avgLatency := a;
     totalBandwidth := totalBandwidth m; framesProcessed := framesProcessed m;
     tasksDistributed := tasksDistributed m; failedTasks := failedTasks m |}.

Definition set_framesProcessed (n : Z) (m : DistributedMetrics) : DistributedMetrics :=
  {| totalDevices := totalDevices m; masterDevice := masterDevice m; avgLatency := avgLatency m;
     totalBandwidth := totalBandwidth m; framesProcessed := n;
     tasksDistributed := tasksDistributed m; failedTasks := failedTasks m |}.

Definition set_tasksDistributed (n : Z) (m : DistributedMetrics) : DistributedMetrics :=
  {| totalDevices := totalDevices m; masterDevice := masterDevice m; avgLatency := avgLatency m;
     totalBandwidth := totalBandwidth m; framesProcessed := framesProcessed m;
     tasksDistributed := n; failedTasks := failedTasks m |}.

Definition set_failedTasks (n : Z) (m : DistributedMetrics) : DistributedMetrics :=
  {| totalDevices := totalDevices m; masterDevice := masterDevice m; avgLatency := avgLatency m;
     totalBandwidth := totalBandwidth m; framesProcessed := framesProcessed m;
     tasksDistributed := tasksDistributed m; failedTasks := n |}.

Definition set_latency_score (l s : Q) (d : DeviceScore) : DeviceScore :=
  {| peerId := peerId d; peerName := peerName d; score := s;
     capabilities := capabilities d; suggestedRole := suggestedRole d;
     latency := l |}.

(** ** The monad of methods: engine state and performed effects *)

Definition M (A : Type) : Type :=
  GhostDistributed -> A * GhostDistributed * list Effect.

Definition ret {A : Type} (a : A) : M A := fun this => (a, this, []).

Definition bind {A B : Type} (m : M A) (k : A -> M B) : M B :=
  fun this =>
    let r1 := m this in
    let r2 := k (fst (fst r1)) (snd (fst r1)) in
    (fst (fst r2), snd (fst r2), snd r1 ++ snd r2).

Definition get : M GhostDistributed := fun this => (this, this, []).

Definition modify (f : GhostDistributed -> GhostDistributed) : M unit :=
  fun this => (tt, f this, []).

Definition perform (e : Effect) : M unit := fun this => (tt, this, [e]).

Declare Scope method_scope.
Delimit Scope method_scope with method.
Notation "x <- c1 ;; c2" := (bind c1 (fun x => c2))
  (at level 61, c1 at next level, right associativity) : method_scope.
Notation "c1 ;; c2" := (bind c1 (fun _ => c2))
  (at level 61, right associativity) : method_scope.

(** [for (const x of xs) body(x)] *)
Fixpoint forEach {A : Type} (xs : list A) (body : A -> M unit) : M unit :=
  match xs with
  | [] => ret tt
  | x :: xs' => bind (body x) (fun _ => forEach xs' body)
  end.

(** Result, final state and effects of running a method. *)
Definition result {A : Type} (r : A * GhostDistributed * list Effect) : A := fst (fst r).
Definition final {A : Type} (r : A * GhostDistributed * list Effect) : GhostDistributed :=
  snd (fst r).
Definition effects {A : Type} (r : A * GhostDistributed * list Effect) : list Effect :=
  snd r.

(** [emit(event, data)]: the handlers registered for the event are called. *)
Definition emit (e : Event) : M unit := perform (Emit e).

(** ** Scoring and role suggestion *)

Definition calculateDeviceScore (capabilities : PeerCapabilities) (latency : Q) : Q :=
  let score := 0 in
  let score := if hasGPU capabilities then JS.add score 40 else score in
  let score := if hasWASM capabilities then JS.add score 20 else score in
  let score := if canRender capabilities then JS.add score 20 else score in
  let score := if canCompute capabilities then JS.add score 10 else score in
  let score := JS.add score (JS.Math_min (JS.div (maxMemory capabilities) 1024) 10) in
  let score := JS.add score (JS.Math_min (JS.div (bandwidth capabilities) 10) 10) in
  let score := JS.sub score (JS.Math_min (JS.div latency 10) 20) in
  JS.Math_max 0 (JS.Math_round score).

Definition suggestRole (capabilities : PeerCapabilities) (score : Q) : DeviceRole :=
  if JS.geb score 70 && hasGPU capabilities && canRender capabilities then master
  else if JS.geb score 50 && hasWASM capabilities && canCompute capabilities then compute
  else if JS.geb score 30 && canStore capabilities then storage
  else display.

(** [s !== o] for a string and a [string | null]. *)
Definition differs (s : string) (o : option string) : bool :=
  match o with
  | Some s' => negb (String.eqb s s')
  | None => true
  end.

(** Truthiness of a [string | null]: [null] and the empty string are falsy. *)
Definition truthy (o : option string) : bool :=
  match o with
  | Some s => negb (String.eqb s "")
  | None => false
  end.

Section Engine.

Variable ghostClient : GhostClient.

Local Open Scope method_scope.

(** The interval callback of [startWiFiDiscovery], given the ids the
    discovery endpoint returned. *)
Definition wifiDiscovered (discovered : list string) : M unit :=
  forEach discovered (fun device =>
    this <- get ;;
    if negb (JSMap.has (deviceScores this) device)
    then emit (peer_discovered device)
    else ret tt).

(** [initialize()], after the connection is up. *)
Definition initialize : M unit :=
  let myCapabilities := getCapabilities ghostClient in
  let myScore := calculateDeviceScore myCapabilities 0 in
  modify (fun this =>
    set_deviceScores
      (JSMap.set (deviceScores this) (getPeerId ghostClient)
         {| peerId := getPeerId ghostClient;
            peerName := getPeerName ghostClient;
            score := myScore;
            capabilities := myCapabilities;
            suggestedRole := suggestRole myCapabilities myScore;
            latency := 0 |}) this) ;;
  emit (initialized myScore myCapabilities).

(** *** Master election *)

(** Body of the first loop of [electMaster]; the accumulator is
    [(bestScore, bestPeerId)]. *)
Definition electStepMaster (best : Q * option string) (entry : string * DeviceScore)
  : Q * option string :=
  if JS.gtb (score (snd entry)) (fst best)
     && DeviceRole_eqb (suggestedRole (snd entry)) master
  then (score (snd entry), Some (fst entry))
  else best.

(** Body of the second loop of [electMaster]. *)
Definition electStepAny (best : Q * option string) (entry : string * DeviceScore)
  : Q * option string :=
  if JS.gtb (score (snd entry)) (fst best)
  then (score (snd entry), Some (fst entry))
  else best.

(** The two loops of [electMaster]: the value of [bestPeerId] after them. *)
Definition electBest (scores : JSMap.t DeviceScore) : option string :=
  let best := fold_left electStepMaster (JSMap.entries scores) (-1, None) in
  let best :=
    if negb (truthy (snd best))
    then fold_left electStepAny (JSMap.entries scores) best
    else best in
  snd best.

Definition electMaster : M unit :=
  this <- get ;;
  match electBest (deviceScores this) with
  | Some bestPeerId =>
      if truthy (Some bestPeerId) && differs bestPeerId (masterPeerId this) then
        modify (set_masterPeerId (Some bestPeerId)) ;;
        modify (fun this =>
          set_metrics (set_masterDevice (Some bestPeerId) (metrics this)) this) ;;
        (if String.eqb bestPeerId (getPeerId ghostClient) then
           modify (set_myRole master) ;;
           emit (role_changed master true)
         else
           this <- get ;;
           let myDevice := JSMap.get (deviceScores this) (getPeerId ghostClient) in
           let role :=
             match myDevice with
             | Some d => suggestedRole d
             | None => display
             end in
           modify (set_myRole role) ;;
           emit (role_changed role false)) ;;
        emit (master_elected bestPeerId)
      else ret tt
  | None => ret tt
  end.

(** *** Peer directory *)

Definition updateDeviceScores (peers : list GhostPeer.t) : M unit :=
  forEach peers (fun peer =>
    this <- get ;;
    if negb (JSMap.has (deviceScores this) (GhostPeer.id peer)) then
      let latency :=
        match JSMap.get (latencyTests this) (GhostPeer.id peer) with
        | Some (first :: _) => JS.or_default first 50
        | _ => 50
        end in
      let score := calculateDeviceScore (GhostPeer.capabilities peer) latency in
      modify (set_deviceScores
        (JSMap.set (deviceScores this) (GhostPeer.id peer)
           {| peerId := GhostPeer.id peer;
              peerName := GhostPeer.name peer;
              score := score;
              capabilities := GhostPeer.capabilities peer;
              suggestedRole := suggestRole (GhostPeer.capabilities peer) score;
              latency := latency |}))
    else ret tt) ;;
  electMaster ;;
  modify (fun this =>
    set_metrics (set_totalDevices (JSMap.size (deviceScores this)) (metrics this)) this) ;;
  this <- get ;;
  emit (scores_updated (JSMap.values (deviceScores this))).

(** *** Latency *)

Definition measureLatency (peerId : string) (now : Q) : M unit :=
  perform (SendToPeer peerId (latency_ping now (getPeerId ghostClient))).

(** Body of the loop of [updateAverageLatency]; the accumulator is
    [(total, count)]. *)
Definition averageStep (acc : Q * Z) (latencies : list Q) : Q * Z :=
  if (0 <? length latencies)%nat
  then (fst acc + last latencies 0, (snd acc + 1)%Z)
  else acc.

Definition averageOf (tests : JSMap.t (list Q)) : Q :=
  let acc := fold_left averageStep (JSMap.values tests) (0, 0%Z) in
  if (0 <? snd acc)%Z then fst acc / inject_Z (snd acc) else 0.

Definition updateAverageLatency : M unit :=
  modify (fun this =>
    set_metrics (set_avgLatency (averageOf (latencyTests this)) (metrics this)) this).

(** *** Task distribution *)

(** The suitability [findBestDeviceForTask] computes for one device. *)
Definition suitabilityFor (taskType : string) (device : DeviceScore) : Q :=
  let suitability := score device in
  let suitability :=
    if String.eqb taskType "render" then
      if hasGPU (capabilities device) && canRender (capabilities device)
      then JS.add suitability 30 else suitability
    else if String.eqb taskType "physics" || String.eqb taskType "compute" then
      if hasWASM (capabilities device) && canCompute (capabilities device)
      then JS.add suitability 20 else suitability
    else if String.eqb taskType "texture" || String.eqb taskType "storage" then
      if canStore (capabilities device)
      then JS.add suitability 15 else suitability
    else suitability in
  JS.sub suitability (JS.div (latency device) 5).

(** Body of the loop of [findBestDeviceForTask]; the accumulator is
    [(bestDevice, bestScore)]. *)
Definition findStep (taskType : string) (best : option DeviceScore * Q)
    (device : DeviceScore) : option DeviceScore * Q :=
  if String.eqb (peerId device) (getPeerId ghostClient) then best
  else
    let suitability := suitabilityFor taskType device in
    if JS.gtb suitability (snd best) then (Some device, suitability) else best.

Definition findBestDeviceForTask (taskType : string) : M (option DeviceScore) :=
  this <- get ;;
  ret (fst (fold_left (findStep taskType) (JSMap.values (deviceScores this)) (None, -1))).

Definition distributeTask (task : DistributedTask.t) : M bool :=
  this <- get ;;
  if negb (isRunning this) then ret false
  else
    targetDevice <- findBestDeviceForTask (TaskType_name (DistributedTask.type task)) ;;
    match targetDevice with
    | None =>
        modify (fun this =>
          set_metrics (set_failedTasks (failedTasks (metrics this) + 1)%Z (metrics this)) this) ;;
        ret false
    | Some targetDevice =>
        modify (fun this =>
          set_pendingTasks (JSMap.set (pendingTasks this) (DistributedTask.id task) task) this) ;;
        perform (SendToPeer (peerId targetDevice)
          (task_assign
             {| info_id := DistributedTask.id task;
                info_type := DistributedTask.type task;
                dataSize :=
                  match DistributedTask.data task with
                  | Some bytes => Z.of_nat (length bytes)
                  | None => 0%Z
                  end;
                info_timestamp := DistributedTask.timestamp task |})) ;;
        modify (fun this =>
          set_metrics
            (set_tasksDistributed (tasksDistributed (metrics this) + 1)%Z (metrics this)) this) ;;
        ret true
    end.

Definition handleTaskAssignment (task : TaskInfo) : M unit :=
  emit (task_received task) ;;
  perform (SetTimeoutBroadcast 10
    (task_result (info_id task)
       {| processed := true; deviceId := getPeerId ghostClient |})).

Definition handleTaskResult (from taskId : string) (result : TaskOutcome) (now : Q)
  : M unit :=
  this <- get ;;
  match JSMap.get (pendingTasks this) taskId with
  | Some task =>
      modify (fun this => set_pendingTasks (JSMap.delete (pendingTasks this) taskId) this) ;;
      modify (fun this =>
        set_completedTasks
          (JSMap.set (completedTasks this) taskId
             {| completed_result := result; completed_from := from; completedAt := now |})
          this) ;;
      emit (task_completed taskId result from)
  | None => ret tt
  end.

Definition processRenderRequest (from : string) (frameId now : Q) : M unit :=
  modify (fun this =>
    set_metrics
      (set_framesProcessed (framesProcessed (metrics this) + 1)%Z (metrics this)) this) ;;
  perform (SendToPeer from
    (frame_data {| frame_id := frameId; rendered := true; frame_timestamp := now |})).

Definition requestRender (frameId now : Q) : M unit :=
  this <- get ;;
  match masterPeerId this with
  | Some m =>
      if truthy (Some m) && negb (String.eqb m (getPeerId ghostClient))
      then perform (SendToPeer m (render_request frameId now))
      else ret tt
  | None => ret tt
  end.

(** *** Message dispatch *)

Definition handlePeerMessage (from : string) (data : Message) (now : Q) : M unit :=
  match data with
  | latency_ping timestamp _ =>
      perform (SendToPeer from (latency_pong timestamp (getPeerId ghostClient)))
  | latency_pong originalTimestamp _ =>
      let latency := now - originalTimestamp in
      this <- get ;;
      (if negb (JSMap.has (latencyTests this) from)
       then modify (fun this => set_latencyTests (JSMap.set (latencyTests this) from []) this)
       else ret tt) ;;
      modify (fun this =>
        set_latencyTests
          (JSMap.set (latencyTests this) from
             (match JSMap.get (latencyTests this) from with
              | Some samples => samples ++ [latency]
              | None => [latency]
              end)) this) ;;
      this <- get ;;
      (match JSMap.get (deviceScores this) from with
       | Some deviceScore =>
           modify (set_deviceScores
             (JSMap.set (deviceScores this) from
                (set_latency_score latency
                   (calculateDeviceScore (capabilities deviceScore) latency)
                   deviceScore)))
       | None => ret tt
       end) ;;
      updateAverageLatency ;;
      emit (latency_measured from latency)
  | task_assign task => handleTaskAssignment task
  | task_result taskId result => handleTaskResult from taskId result now
  | frame_data frame => emit (frame_received from frame)
  | render_request frameId _ =>
      this <- get ;;
      if DeviceRole_eqb (myRole this) master || DeviceRole_eqb (myRole this) compute
      then processRenderRequest from frameId now
      else ret tt
  | other_message _ => ret tt
  end.

(** *** Running flag *)

Definition start : M unit :=
  modify (set_isRunning true) ;;
  emit started.

Definition stop : M unit :=
  modify (set_isRunning false) ;;
  modify (fun this => set_pendingTasks (JSMap.clear (pendingTasks this)) this) ;;
  emit stopped.

(** *** The engine as a reactive system *)

(** Everything that can drive the engine: the three [ghostClient]
    listeners, the discovery interval and the public methods. *)
Inductive Input : Type :=
| on_wifi_discovered (discovered : list string)
| on_peers_updated (peers : list GhostPeer.t)
| on_data (from : string) (data : Message) (now : Q)
| on_channel_open (peerId : string) (now : Q)
| call_initialize
| call_distributeTask (task : DistributedTask.t)
| call_requestRender (frameId now : Q)
| call_start
| call_stop.

Definition react (i : Input) : M unit :=
  match i with
  | on_wifi_discovered discovered => wifiDiscovered discovered
  | on_peers_updated peers => updateDeviceScores peers
  | on_data from data now => handlePeerMessage from data now
  | on_channel_open peerId now => measureLatency peerId now
  | call_initialize => initialize
  | call_distributeTask task => _ <- distributeTask task ;; ret tt
  | call_requestRender frameId now => requestRender frameId now
  | call_start => start
  | call_stop => stop
  end.

(** The state after a sequence of inputs. *)
Definition runAll (inputs : list Input) (this : GhostDistributed) : GhostDistributed :=
  fold_left (fun this i => final (react i this)) inputs this.

End Engine.

(** ** Definitions used to state the properties *)

(** The score before rounding, as a closed formula. *)
Definition baseContribution (c : PeerCapabilities) : Q :=
  (if hasGPU c then 40 else 0) + (if hasWASM c then 20 else 0)
  + (if canRender c then 20 else 0) + (if canCompute c then 10 else 0).

Definition scoreBeforeRounding (c : PeerCapabilities) (latencyMs : Q) : Q :=
  baseContribution c
  + Qmin (maxMemory c / 1024) 10
  + Qmin (bandwidth c / 10) 10
  - Qmin (latencyMs / 10) 20.

(** [z] is the integer nearest to [x], a tie going to the larger one. *)
Definition nearest (x : Q) (z : Z) : Prop :=
  inject_Z z - (1 # 2) <= x /\ x < inject_Z z + (1 # 2).

Definition fullProfile : PeerCapabilities :=
  {| hasGPU := true; hasWASM := true; maxMemory := 10240; bandwidth := 100;
     canRender := true; canCompute := true; canStore := false |}.

(** The rules of role suggestion, each with the failure of the rules
    before it. *)
Definition masterRule (c : PeerCapabilities) (s : Q) : Prop :=
  70 <= s /\ hasGPU c = true /\ canRender c = true.
Definition computeRule (c : PeerCapabilities) (s : Q) : Prop :=
  50 <= s /\ hasWASM c = true /\ canCompute c = true.
Definition storageRule (c : PeerCapabilities) (s : Q) : Prop :=
  30 <= s /\ canStore c = true.

Inductive roleRule (c : PeerCapabilities) (s : Q) : DeviceRole -> Prop :=
| first_master : masterRule c s -> roleRule c s master
| then_compute : ~ masterRule c s -> computeRule c s -> roleRule c s compute
| then_storage :
    ~ masterRule c s -> ~ computeRule c s -> storageRule c s -> roleRule c s storage
| else_display :
    ~ masterRule c s -> ~ computeRule c s -> ~ storageRule c s -> roleRule c s display.

(** ** Concrete engines used as examples *)

Definition localClient : GhostClient :=
  {| getPeerId := "local"; getPeerName := "Browser-local";
     getCapabilities := fullProfile |}.

Definition noCapabilities : PeerCapabilities :=
  {| hasGPU := false; hasWASM := false; maxMemory := 0; bandwidth := 0;
     canRender := false; canCompute := false; canStore := false |}.

(** A peer as the signaling layer announces it. *)
Definition announce (id : string) (c : PeerCapabilities) : GhostPeer.t :=
  {| GhostPeer.id := id; GhostPeer.name := id; GhostPeer.type := GhostPeer.browser;
     GhostPeer.capabilities := c; GhostPeer.status := GhostPeer.connected;
     GhostPeer.lastSeen := 0 |}.

Definition renderTask : DistributedTask.t :=
  {| DistributedTask.id := "t1"; DistributedTask.type := render;
     DistributedTask.data := None; DistributedTask.timestamp := 0 |}.

(** The local node initialised, one peer without capabilities announced,
    the engine started. *)
Definition weakPeerEngine : GhostDistributed :=
  runAll localClient
    [call_initialize; on_peers_updated [announce "weak" noCapabilities]; call_start]
    new_GhostDistributed.

(** Two remote records at the same latency of one second: one with
    [hasGPU && canRender] and score 50, one without and score 60. *)
Definition gpuCapabilities : PeerCapabilities :=
  {| hasGPU := true; hasWASM := false; maxMemory := 0; bandwidth := 0;
     canRender := true; canCompute := true; canStore := false |}.

Definition plainCapabilities : PeerCapabilities :=
  {| hasGPU := true; hasWASM := true; maxMemory := 10240; bandwidth := 0;
     canRender := false; canCompute := true; canStore := false |}.

Definition slowPeersEngine : GhostDistributed :=
  runAll localClient
    [call_initialize;
     on_peers_updated [announce "gpu" gpuCapabilities; announce "plain" plainCapabilities];
     on_data "gpu" (latency_pong 0 "gpu") 1000;
     on_data "plain" (latency_pong 0 "plain") 1000;
     call_start]
    new_GhostDistributed.

(** The same two peers at the bootstrap latency. *)
Definition gpuRecord (l : Q) : DeviceScore :=
  {| peerId := "gpu"; peerName := "gpu"; score := 50;
     capabilities := gpuCapabilities; suggestedRole := display; latency := l |}.

Definition plainRecord (l : Q) : DeviceScore :=
  {| peerId := "plain"; peerName := "plain"; score := 60;
     capabilities := plainCapabilities; suggestedRole := compute; latency := l |}.

Definition twoPeers (l : Q) : GhostDistributed :=
  set_isRunning true
    (set_deviceScores [("gpu"%string, gpuRecord l); ("plain"%string, plainRecord l)]
       new_GhostDistributed).

(** Two peers whose suitabilities for an audio task are 0 - 1/5 and
    1 - 6/5: a peer without capabilities measured at 1 ms and a peer with a
    16 Mbps link measured at 6 ms, both measured before they are announced. *)
Definition wideLink : PeerCapabilities :=
  {| hasGPU := false; hasWASM := false; maxMemory := 0; bandwidth := 16;
     canRender := false; canCompute := false; canStore := false |}.

Definition tiedPeers : GhostDistributed :=
  runAll localClient
    [call_initialize;
     on_data "near" (latency_pong 0 "near") 1;
     on_data "far" (latency_pong 0 "far") 6;
     on_peers_updated [announce "near" noCapabilities; announce "far" wideLink];
     call_start]
    new_GhostDistributed.

(** A record of another node than the local one. *)
Definition remote (gc : GhostClient) (d : DeviceScore) : Prop :=
  peerId d <> getPeerId gc.

(** The latency update as the specification words it, for a sample
    [now - ots] delivered for [from]: for a known peer the sample is
    appended, score and suggested role are recomputed from the capability
    profile and the sample, and the election is up to date afterwards; for
    an unknown peer nothing at all happens. *)
Definition latencyUpdateAsSpecified (gc : GhostClient) (st : GhostDistributed)
    (from : string) (ots now : Q) : Prop :=
  let l := now - ots in
  let r := handlePeerMessage gc from (latency_pong ots from) now st in
  match JSMap.get (deviceScores st) from with
  | Some d =>
      JSMap.get (latencyTests (final r)) from
        = Some (match JSMap.get (latencyTests st) from with
                | Some samples => samples ++ [l]
                | None => [l]
                end) /\
      (exists d',
          JSMap.get (deviceScores (final r)) from = Some d' /\
          score d' = calculateDeviceScore (capabilities d) l /\
          suggestedRole d' = suggestRole (capabilities d) (score d')) /\
      electMaster gc (final r) = (tt, final r, [])
  | None => r = (tt, st, [])
  end.

(** A local node without capabilities and three announced peers. *)
Definition thinClient : GhostClient :=
  {| getPeerId := "local"; getPeerName := "Browser-local";
     getCapabilities := noCapabilities |}.

Definition renderOnlyCapabilities : PeerCapabilities :=
  {| hasGPU := true; hasWASM := true; maxMemory := 0; bandwidth := 0;
     canRender := true; canCompute := false; canStore := false |}.

Definition threePeersEngine : GhostDistributed :=
  runAll thinClient
    [call_initialize;
     on_peers_updated
       [announce "a" fullProfile; announce "b" fullProfile;
        announce "c" renderOnlyCapabilities]]
    new_GhostDistributed.

(** [distributeTask] on a stopped engine as the specification words it. *)
Definition rejectionAsSpecified (gc : GhostClient) (st : GhostDistributed)
    (task : DistributedTask.t) : Prop :=
  let r := distributeTask gc task st in
  result r = false /\
  failedTasks (metrics (final r)) = (failedTasks (metrics st) + 1)%Z /\
  effects r = [] /\
  pendingTasks (final r) = pendingTasks st.

(** Every record of the directory is the local node's. *)
Definition onlyLocal (gc : GhostClient) (st : GhostDistributed) : bool :=
  forallb (fun d => String.eqb (peerId d) (getPeerId gc))
    (JSMap.values (deviceScores st)).

Definition selfOnlyEngine : GhostDistributed :=
  runAll localClient [call_initialize; call_start] new_GhostDistributed.

(** A running engine with one task dispatched to a capable peer. *)
Definition dispatchedEngine : GhostDistributed :=
  runAll localClient
    [call_initialize; on_peers_updated [announce "helper" fullProfile]; call_start;
     call_distributeTask renderTask]
    new_GhostDistributed.

Definition done : TaskOutcome := {| processed := true; deviceId := "helper" |}.

(** ** Relations between the state before and after a method *)

(** The latency histories and the average-latency metric are untouched. *)
Definition SameLatency (st st' : GhostDistributed) : Prop :=
  latencyTests st' = latencyTests st /\
  avgLatency (metrics st') = avgLatency (metrics st).


(** The directory keeps its records and [totalDevices] does not fall, as
    long as it was at most the size of the directory. *)
Definition Grows (st st' : GhostDistributed) : Prop :=
  (forall k, JSMap.has (deviceScores st) k = true ->
             JSMap.has (deviceScores st') k = true) /\
  (JSMap.size (deviceScores st) <= JSMap.size (deviceScores st'))%Z /\
  ((totalDevices (metrics st) <= JSMap.size (deviceScores st))%Z ->
   (totalDevices (metrics st) <= totalDevices (metrics st'))%Z /\
   (totalDevices (metrics st') <= JSMap.size (deviceScores st'))%Z).

(** Every map of the engine holds a key once. *)
Definition wellFormed (st : GhostDistributed) : Prop :=
  JSMap.wf (deviceScores st) /\ JSMap.wf (pendingTasks st) /\
  JSMap.wf (completedTasks st) /\ JSMap.wf (latencyTests st).

Definition KeepsWellFormed (st st' : GhostDistributed) : Prop :=
  wellFormed st -> wellFormed st'.

(** ** Latency samples and their mean *)






(** A [latency-pong] as it arrives: sender, echoed timestamp, time of
    arrival. *)
Definition Pong : Type := (string * Q * Q)%type.

Definition pongFrom (p : Pong) : string := fst (fst p).

Definition deliver (p : Pong) : Input :=
  on_data (pongFrom p) (latency_pong (snd (fst p)) (pongFrom p)) (snd p).


(** A running engine with one capable peer. *)
Definition helperEngine : GhostDistributed :=
  runAll localClient
    [call_initialize; on_peers_updated [announce "helper" fullProfile]; call_start]
    new_GhostDistributed.

(** The records already in the directory are still there, unchanged. *)
Definition KeepsRecords (st st' : GhostDistributed) : Prop :=
  forall k d, JSMap.get (deviceScores st) k = Some d ->
              JSMap.get (deviceScores st') k = Some d.

(** Three samples of 10, 20 and 30 ms delivered for the peer of
    [helperEngine]. *)
Definition threeSamples : list Pong :=
  [("helper"%string, 0, 10); ("helper"%string, 0, 20); ("helper"%string, 0, 30)].

Definition sampledEngine : GhostDistributed :=
  runAll localClient (map deliver threeSamples) helperEngine.



(** Every record is stored under its own peer id and carries the score of
    its capabilities and its recorded latency. *)
Definition recordsConsistent (st : GhostDistributed) : Prop :=
  forall k d,
    JSMap.get (deviceScores st) k = Some d ->
    peerId d = k /\ score d = calculateDeviceScore (capabilities d) (latency d).

Definition KeepsConsistent (st st' : GhostDistributed) : Prop :=
  recordsConsistent st -> recordsConsistent st'.

(** ** The winner of an election *)

(** [(k, d)] is the first entry of greatest score among the entries that
    satisfy [eligible]. *)
Definition firstBest (eligible : DeviceScore -> Prop)
    (es : list (string * DeviceScore)) (k : string) (d : DeviceScore) : Prop :=
  exists l1 l2,
    es = l1 ++ (k, d) :: l2 /\
    eligible d /\
    (forall e, In e l1 -> eligible (snd e) -> score (snd e) < score d) /\
    (forall e, In e l2 -> eligible (snd e) -> score (snd e) <= score d).

Definition masterSuggested (d : DeviceScore) : Prop := suggestedRole d = master.
Definition anyRecord (d : DeviceScore) : Prop := True.

(** The winner the election rules name: the first best master-suggested
    entry, or without any master-suggested entry the first best entry. *)
Definition electedByRule (es : list (string * DeviceScore)) (k : string) : Prop :=
  exists d,
    firstBest masterSuggested es k d \/
    ((forall e, In e es -> ~ masterSuggested (snd e)) /\ firstBest anyRecord es k d).

(** The two loops of [electMaster] share this shape. *)
Definition electStep (eligible : DeviceScore -> bool) (best : Q * option string)
    (entry : string * DeviceScore) : Q * option string :=
  if JS.gtb (score (snd entry)) (fst best) && eligible (snd entry)
  then (score (snd entry), Some (fst entry))
  else best.

Definition threeMasters : list (string * DeviceScore) :=
  [("a"%string, {| peerId := "a"; peerName := "a"; score := 60;
                    capabilities := fullProfile; suggestedRole := compute; latency := 0 |});
   ("b"%string, {| peerId := "b"; peerName := "b"; score := 90;
                    capabilities := fullProfile; suggestedRole := master; latency := 0 |});
   ("c"%string, {| peerId := "c"; peerName := "c"; score := 90;
                    capabilities := fullProfile; suggestedRole := master; latency := 0 |})].

(** ** The elected master *)

(** The metric names the elected master, the elected master has a record
    and a non-empty id, and a local node that is the elected master has
    the role [master]. *)
Definition electionConsistent (gc : GhostClient) (st : GhostDistributed) : Prop :=
  masterDevice (metrics st) = masterPeerId st /\
  (forall m, masterPeerId st = Some m ->
             JSMap.has (deviceScores st) m = true /\ m <> ""%string) /\
  (masterPeerId st = Some (getPeerId gc) -> myRole st = master).

Definition KeepsElection (gc : GhostClient) (st st' : GhostDistributed) : Prop :=
  electionConsistent gc st -> electionConsistent gc st'.

(** An elected master is never withdrawn. *)
Definition KeepsMaster (st st' : GhostDistributed) : Prop :=
  masterPeerId st <> None -> masterPeerId st' <> None.

(** ** Dispatching a task *)

(** The descriptor [distributeTask] sends in place of the task. *)
Definition taskInfo (task : DistributedTask.t) : TaskInfo :=
  {| info_id := DistributedTask.id task;
     info_type := DistributedTask.type task;
     dataSize :=
       match DistributedTask.data task with
       | Some bytes => Z.of_nat (length bytes)
       | None => 0%Z
       end;
     info_timestamp := DistributedTask.timestamp task |}.

(** ** Messages between two engines *)


(** The messages a list of effects schedules for broadcast. *)
Definition broadcasts (effs : list Effect) : list Message :=
  flat_map (fun e =>
              match e with
              | SetTimeoutBroadcast _ m => [m]
              | _ => []
              end) effs.

Definition helperClient : GhostClient :=
  {| getPeerId := "helper"; getPeerName := "Browser-helper";
     getCapabilities := fullProfile |}.

(** ** Records made for announced peers *)

(** The latency a new record starts with: the oldest sample recorded for
    the peer unless there is none or it is 0, and 50 then. *)
Definition bootstrapLatency (tests : JSMap.t (list Q)) (id : string) : Q :=
  match JSMap.get tests id with
  | Some (first :: _) => JS.or_default first 50
  | _ => 50
  end.

Definition freshRecord (tests : JSMap.t (list Q)) (peer : GhostPeer.t) : DeviceScore :=
  {| peerId := GhostPeer.id peer;
     peerName := GhostPeer.name peer;
     score := calculateDeviceScore (GhostPeer.capabilities peer)
                (bootstrapLatency tests (GhostPeer.id peer));
     capabilities := GhostPeer.capabilities peer;
     suggestedRole :=
       suggestRole (GhostPeer.capabilities peer)
         (calculateDeviceScore (GhostPeer.capabilities peer)
            (bootstrapLatency tests (GhostPeer.id peer)));
     latency := bootstrapLatency tests (GhostPeer.id peer) |}.

Definition insertNew (tests : JSMap.t (list Q)) (scores : JSMap.t DeviceScore)
    (peer : GhostPeer.t) : JSMap.t DeviceScore :=
  if JSMap.has scores (GhostPeer.id peer) then scores
  else JSMap.set scores (GhostPeer.id peer) (freshRecord tests peer).

(** An engine that recorded samples of 0, then 80, for ["early"] and of 70,
    then 20, for ["late"] before either was announced. *)
Definition sampledBeforeJoin : GhostDistributed :=
  runAll localClient
    [call_initialize;
     on_data "early" (latency_pong 0 "early") 0;
     on_data "early" (latency_pong 0 "early") 80;
     on_data "late" (latency_pong 0 "late") 70;
     on_data "late" (latency_pong 0 "late") 20]
    new_GhostDistributed.

(** ** The event-handler registry: [on], [off] and the handlers [emit] calls

    A handler is a function object, compared by identity; the model names
    it by a number.  [eventHandlers] maps an event name to the array of its
    handlers in registration order. *)

Module EventEmitter.

Definition Handler : Type := nat.

Definition t : Type := JSMap.t (list Handler).

Definition empty : t := JSMap.empty.

(** [handlers.indexOf(handler)]: the index of the first occurrence, [None]
    for -1. *)
Fixpoint indexOf (handler : Handler) (handlers : list Handler) : option nat :=
  match handlers with
  | [] => None
  | h :: rest =>
      if Nat.eqb h handler then Some 0%nat
      else match indexOf handler rest with
           | Some i => Some (S i)
           | None => None
           end
  end.

(** [handlers.splice(index, 1)]: the array without the entry at [index]. *)
Fixpoint splice1 (index : nat) (handlers : list Handler) : list Handler :=
  match handlers, index with
  | [], _ => []
  | _ :: rest, O => rest
  | h :: rest, S i => h :: splice1 i rest
  end.

Definition on (event : string) (handler : Handler) (eventHandlers : t) : t :=
  let eventHandlers :=
    if negb (JSMap.has eventHandlers event)
    then JSMap.set eventHandlers event []
    else eventHandlers in
  match JSMap.get eventHandlers event with
  | Some handlers => JSMap.set eventHandlers event (handlers ++ [handler])
  | None => eventHandlers
  end.

Definition off (event : string) (handler : Handler) (eventHandlers : t) : t :=
  match JSMap.get eventHandlers event with
  | Some handlers =>
      match indexOf handler handlers with
      | Some index => JSMap.set eventHandlers event (splice1 index handlers)
      | None => eventHandlers
      end
  | None => eventHandlers
  end.

(** The handlers [emit(event, data)] calls, in the order of the calls. *)
Definition emit (event : string) (eventHandlers : t) : list Handler :=
  match JSMap.get eventHandlers event with
  | Some handlers => handlers
  | None => []
  end.

End EventEmitter.

(** A list without the earliest occurrence of a handler. *)
Fixpoint removeFirst (handler : EventEmitter.Handler)
    (handlers : list EventEmitter.Handler) : list EventEmitter.Handler :=
  match handlers with
  | [] => []
  | h :: rest => if Nat.eqb h handler then rest else h :: removeFirst handler rest
  end.

(** ** The record of the local node *)

Definition localRecord (gc : GhostClient) : DeviceScore :=
  {| peerId := getPeerId gc;
     peerName := getPeerName gc;
     score := calculateDeviceScore (getCapabilities gc) 0;
     capabilities := getCapabilities gc;
     suggestedRole :=
       suggestRole (getCapabilities gc) (calculateDeviceScore (getCapabilities gc) 0);
     latency := 0 |}.

(** ** The signaling client: peer list, peer connections, data channels

    The part of [GhostClient] that [GhostDistributed] listens to and sends
    through.  A peer connection is an opaque object; a data channel is named
    by a number and its [readyState], which the browser changes, is read
    from the environment when [sendToPeer] and [broadcast] look at it.  The
    WebSocket and the negotiation of a connection (offer, answer, candidates)
    run asynchronously and are left out, as are the handlers of [emit]. *)

Module RTCDataChannel.
Inductive readyState : Type := connecting | open | closing | closed.

Definition isOpen (s : readyState) : bool :=
  match s with
  | open => true
  | _ => false
  end.
End RTCDataChannel.

(** The cases of [message.type] in [handleMessage]. *)
Inductive Signal : Type :=
| peer_list (peers : list GhostPeer.t)
| peer_joined (peer : GhostPeer.t)
| peer_left (leaver : string)
| offer (sender sdp : string)
| answer (sender sdp : string)
| ice_candidate (sender candidate : string)
| bundle_request (body : string)
| bundle_response (body : string)
| state_sync (body : string)
| other_signal (type : string).

(** The events the client emits to its listeners. *)
Inductive ClientEvent : Type :=
| peers_updated (peers : list GhostPeer.t)
| relayed (type body : string)
| channel_open (remote : string)
| channel_close (remote : string)
| channel_data (sender : string) (payload : Message)
| binary_data (sender : string).

Inductive ClientEffect : Type :=
| ClientEmit (e : ClientEvent)
| ChannelSend (channel : nat) (payload : Message)
| PeerConnectionCreated (remote : string) (isInitiator : bool)
| PeerConnectionClosed (remote : string).

Record GhostClientState : Type := {
  connectedPeers : list GhostPeer.t;
  peerConnections : JSMap.t unit;
  dataChannels : JSMap.t nat
}.

Definition new_GhostClientState : GhostClientState :=
  {| connectedPeers := []; peerConnections := JSMap.empty; dataChannels := JSMap.empty |}.

Definition set_connectedPeers (l : list GhostPeer.t) (c : GhostClientState)
  : GhostClientState :=
  {| connectedPeers := l; peerConnections := peerConnections c;
     dataChannels := dataChannels c |}.

Definition set_peerConnections (m : JSMap.t unit) (c : GhostClientState)
  : GhostClientState :=
  {| connectedPeers := connectedPeers c; peerConnections := m;
     dataChannels := dataChannels c |}.

Definition set_dataChannels (m : JSMap.t nat) (c : GhostClientState)
  : GhostClientState :=
  {| connectedPeers := connectedPeers c; peerConnections := peerConnections c;
     dataChannels := m |}.

(** [createPeerConnection], up to its first [await]. *)
Definition createPeerConnection (remotePeerId : string) (isInitiator : bool)
    (c : GhostClientState) : GhostClientState * list ClientEffect :=
  if JSMap.has (peerConnections c) remotePeerId then (c, [])
  else (set_peerConnections (JSMap.set (peerConnections c) remotePeerId tt) c,
        [PeerConnectionCreated remotePeerId isInitiator]).

Definition closePeerConnection (peerId : string) (c : GhostClientState)
  : GhostClientState * list ClientEffect :=
  let closed :=
    match JSMap.get (peerConnections c) peerId with
    | Some _ =>
        (set_peerConnections (JSMap.delete (peerConnections c) peerId) c,
         [PeerConnectionClosed peerId])
    | None => (c, [])
    end in
  (set_dataChannels (JSMap.delete (dataChannels (fst closed)) peerId) (fst closed),
   snd closed).

(** [message.peers.forEach(peer => this.createPeerConnection(peer.id, true))] *)
Fixpoint connectAll (peers : list GhostPeer.t) (c : GhostClientState)
  : GhostClientState * list ClientEffect :=
  match peers with
  | [] => (c, [])
  | peer :: rest =>
      let r1 := createPeerConnection (GhostPeer.id peer) true c in
      let r2 := connectAll rest (fst r1) in
      (fst r2, snd r1 ++ snd r2)
  end.

Definition handleMessage (message : Signal) (c : GhostClientState)
  : GhostClientState * list ClientEffect :=
  match message with
  | peer_list peers =>
      let c := set_connectedPeers peers c in
      let r := connectAll peers c in
      (fst r, ClientEmit (peers_updated peers) :: snd r)
  | peer_joined peer =>
      if existsb (fun p => String.eqb (GhostPeer.id p) (GhostPeer.id peer))
           (connectedPeers c)
      then (c, [])
      else
        let c := set_connectedPeers (connectedPeers c ++ [peer]) c in
        (c, [ClientEmit (peers_updated (connectedPeers c))])
  | peer_left leaver =>
      let c :=
        set_connectedPeers
          (filter (fun p => negb (String.eqb (GhostPeer.id p) leaver)) (connectedPeers c))
          c in
      let r := closePeerConnection leaver c in
      (fst r, snd r ++ [ClientEmit (peers_updated (connectedPeers (fst r)))])
  | offer sender _ => createPeerConnection sender false c
  | answer _ _ => (c, [])
  | ice_candidate _ _ => (c, [])
  | bundle_request body => (c, [ClientEmit (relayed "bundle-request" body)])
  | bundle_response body => (c, [ClientEmit (relayed "bundle-response" body)])
  | state_sync body => (c, [ClientEmit (relayed "state-sync" body)])
  | other_signal _ => (c, [])
  end.

(** The handlers [setupDataChannel] installs on a channel. *)
Definition channelOpened (remotePeerId : string) (channel : nat) (c : GhostClientState)
  : GhostClientState * list ClientEffect :=
  (set_dataChannels (JSMap.set (dataChannels c) remotePeerId channel) c,
   [ClientEmit (channel_open remotePeerId)]).

Definition channelClosed (remotePeerId : string) (c : GhostClientState)
  : GhostClientState * list ClientEffect :=
  (set_dataChannels (JSMap.delete (dataChannels c) remotePeerId) c,
   [ClientEmit (channel_close remotePeerId)]).

(** [onmessage]: [parsed] is the outcome of [JSON.parse]. *)
Definition channelMessage (remotePeerId : string) (parsed : option Message)
    (c : GhostClientState) : GhostClientState * list ClientEffect :=
  match parsed with
  | Some payload => (c, [ClientEmit (channel_data remotePeerId payload)])
  | None => (c, [ClientEmit (binary_data remotePeerId)])
  end.

Definition sendToPeer (readyState : nat -> RTCDataChannel.readyState)
    (peerId : string) (payload : Message) (c : GhostClientState) : list ClientEffect :=
  match JSMap.get (dataChannels c) peerId with
  | Some channel =>
      if RTCDataChannel.isOpen (readyState channel)
      then [ChannelSend channel payload]
      else []
  | None => []
  end.

Definition broadcast (readyState : nat -> RTCDataChannel.readyState)
    (payload : Message) (c : GhostClientState) : list ClientEffect :=
  flat_map (fun channel =>
              if RTCDataChannel.isOpen (readyState channel)
              then [ChannelSend channel payload]
              else [])
    (JSMap.values (dataChannels c)).

(** The part of [disconnect] that concerns connections and channels. *)
Definition disconnect (c : GhostClientState) : GhostClientState * list ClientEffect :=
  (set_dataChannels (JSMap.clear (dataChannels c))
     (set_peerConnections (JSMap.clear (peerConnections c)) c),
   map PeerConnectionClosed (JSMap.keys (peerConnections c))).

Definition getDataChannelCount (c : GhostClientState) : Z := JSMap.size (dataChannels c).

(** *** The engine behind the client *)

(** The three listeners [setupEventListeners] registers on the client. *)
Definition listener (gc : GhostClient) (now : Q) (e : ClientEvent) : M unit :=
  match e with
  | peers_updated peers => updateDeviceScores gc peers
  | channel_data sender payload => handlePeerMessage gc sender payload now
  | channel_open remote => measureLatency gc remote now
  | _ => ret tt
  end.

(** What of a list of engine effects the client puts on a channel. *)
Definition transmitted (readyState : nat -> RTCDataChannel.readyState)
    (c : GhostClientState) (effs : list Effect) : list ClientEffect :=
  flat_map (fun eff =>
              match eff with
              | SendToPeer target payload => sendToPeer readyState target payload c
              | _ => []
              end) effs.

(** The ids of a peer list. *)
Definition peerIds (peers : list GhostPeer.t) : list string := map GhostPeer.id peers.

Definition allOpen (channel : nat) : RTCDataChannel.readyState := RTCDataChannel.open.

(** The events among the effects of the client, in order. *)
Definition emitted (effs : list ClientEffect) : list ClientEvent :=
  flat_map (fun eff =>
              match eff with
              | ClientEmit e => [e]
              | _ => []
              end) effs.

(** The engine listening to what the client emits. *)
Definition listen (gc : GhostClient) (now : Q) (effs : list ClientEffect) : M unit :=
  forEach (emitted effs) (listener gc now).

(** A client with an open channel to the peer of [helperEngine]. *)
Definition linkedClient : GhostClientState :=
  fst (channelOpened "helper" 1
         (fst (handleMessage (peer_list [announce "helper" fullProfile])
                 new_GhostClientState))).

(** * GhostRuntime: loading, the frame loop, pause and stop

    The methods of [GhostRuntime] as functions from the state to the new
    state and the effects performed, in program order.  The clock readings,
    the handle [requestAnimationFrame] returns, the context the canvas
    offers, the stored bundles, the outcome of the integrity check and the
    outcome of instantiating WebAssembly come from the environment and are
    arguments.  Drawing is one effect. *)

Module GhostGame.
Inductive phase : Type := transforming | ready | distributing | running.
Record t : Type := {
  id : string;
  originalName : string;
  bundles : list string;
  entryPoint : string;
  totalSize : Q;
  status : phase;
  integrity : string
}.
End GhostGame.

Module GhostBundle.
Inductive kind : Type := wasm | asset | state | shader.
Record t : Type := {
  id : string;
  gameId : string;
  type : kind;
  hash : string;
  size : Q;
  data : option (list Byte.byte);
  dependencies : list string
}.
End GhostBundle.

Module GhostRuntime.

Inductive ContextKind : Type := webgl2 | webgl | context2d.

(** A WebAssembly instance: whether it exports a function [update]. *)
Record WasmInstance : Type := { exportsUpdate : bool }.

Record Canvas : Type := { width : Q; height : Q }.

Record t : Type := {
  currentGame : option GhostGame.t;
  loadedBundles : JSMap.t GhostBundle.t;
  wasmInstance : option WasmInstance;
  isRunning : bool;
  fps : Q;
  frameTime : Q;
  canvas : option Canvas;
  ctx : option ContextKind;
  animationFrameId : option Z;
  lastFrameTime : Q;
  frameCount : Z;
  lastFpsUpdate : Q
}.

Definition fpsUpdateInterval : Q := 1000.

Definition new : t :=
  {| currentGame := None; loadedBundles := JSMap.empty; wasmInstance := None;
     isRunning := false; fps := 0; frameTime := 0; canvas := None; ctx := None;
     animationFrameId := None; lastFrameTime := 0; frameCount := 0;
     lastFpsUpdate := 0 |}.

Inductive Mode : Type := wasm_mode | simulation_mode.

Inductive RuntimeEvent : Type :=
| loading (game : GhostGame.t) (progress : Q)
| loaded (game : GhostGame.t)
| started (game : GhostGame.t) (mode : Mode)
| stats (fps frameTime : Q)
| paused (game : option GhostGame.t)
| resumed (game : GhostGame.t)
| stopped.

Inductive RuntimeEffect : Type :=
| Emit (e : RuntimeEvent)
| WasmUpdate (deltaTime : Q)
| RenderSimulation (deltaTime : Q)
| SyncState (gameId : string) (frame : Z) (time : Q)
| RequestAnimationFrame
| CancelAnimationFrame (handle : Z).

Inductive RuntimeError : Type :=
| integrity_check_failed
| no_game_loaded
| no_canvas_context.

(** Field assignments. *)

Definition set_currentGame (g : option GhostGame.t) (rt : t) : t :=
  {| currentGame := g; loadedBundles := loadedBundles rt;
     wasmInstance := wasmInstance rt; isRunning := isRunning rt; fps := fps rt;
     frameTime := frameTime rt; canvas := canvas rt; ctx := ctx rt;
     animationFrameId := animationFrameId rt; lastFrameTime := lastFrameTime rt;
     frameCount := frameCount rt; lastFpsUpdate := lastFpsUpdate rt |}.

Definition set_loadedBundles (b : JSMap.t GhostBundle.t) (rt : t) : t :=
  {| currentGame := currentGame rt; loadedBundles := b;
     wasmInstance := wasmInstance rt; isRunning := isRunning rt; fps := fps rt;
     frameTime := frameTime rt; canvas := canvas rt; ctx := ctx rt;
     animationFrameId := animationFrameId rt; lastFrameTime := lastFrameTime rt;
     frameCount := frameCount rt; lastFpsUpdate := lastFpsUpdate rt |}.

Definition set_wasmInstance (w : option WasmInstance) (rt : t) : t :=
  {| currentGame := currentGame rt; loadedBundles := loadedBundles rt;
     wasmInstance := w; isRunning := isRunning rt; fps := fps rt;
     frameTime := frameTime rt; canvas := canvas rt; ctx := ctx rt;
     animationFrameId := animationFrameId rt; lastFrameTime := lastFrameTime rt;
     frameCount := frameCount rt; lastFpsUpdate := lastFpsUpdate rt |}.

Definition set_isRunning (b : bool) (rt : t) : t :=
  {| currentGame := currentGame rt; loadedBundles := loadedBundles rt;
     wasmInstance := wasmInstance rt; isRunning := b; fps := fps rt;
     frameTime := frameTime rt; canvas := canvas rt; ctx := ctx rt;
     animationFrameId := animationFrameId rt; lastFrameTime := lastFrameTime rt;
     frameCount := frameCount rt; lastFpsUpdate := lastFpsUpdate rt |}.

Definition set_fps (x : Q) (rt : t) : t :=
  {| currentGame := currentGame rt; loadedBundles := loadedBundles rt;
     wasmInstance := wasmInstance rt; isRunning := isRunning rt; fps := x;
     frameTime := frameTime rt; canvas := canvas rt; ctx := ctx rt;
     animationFrameId := animationFrameId rt; lastFrameTime := lastFrameTime rt;
     frameCount := frameCount rt; lastFpsUpdate := lastFpsUpdate rt |}.

Definition set_frameTime (x : Q) (rt : t) : t :=
  {| currentGame := currentGame rt; loadedBundles := loadedBundles rt;
     wasmInstance := wasmInstance rt; isRunning := isRunning rt; fps := fps rt;
     frameTime := x; canvas := canvas rt; ctx := ctx rt;
     animationFrameId := animationFrameId rt; lastFrameTime := lastFrameTime rt;
     frameCount := frameCount rt; lastFpsUpdate := lastFpsUpdate rt |}.

Definition set_canvas (c : option Canvas) (rt : t) : t :=
  {| currentGame := currentGame rt; loadedBundles := loadedBundles rt;
     wasmInstance := wasmInstance rt; isRunning := isRunning rt; fps := fps rt;
     frameTime := frameTime rt; canvas := c; ctx := ctx rt;
     animationFrameId := animationFrameId rt; lastFrameTime := lastFrameTime rt;
     frameCount := frameCount rt; lastFpsUpdate := lastFpsUpdate rt |}.

Definition set_ctx (c : option ContextKind) (rt : t) : t :=
  {| currentGame := currentGame rt; loadedBundles := loadedBundles rt;
     wasmInstance := wasmInstance rt; isRunning := isRunning rt; fps := fps rt;
     frameTime := frameTime rt; canvas := canvas rt; ctx := c;
     animationFrameId := animationFrameId rt; lastFrameTime := lastFrameTime rt;
     frameCount := frameCount rt; lastFpsUpdate := lastFpsUpdate rt |}.

Definition set_animationFrameId (h : option Z) (rt : t) : t :=
  {| currentGame := currentGame rt; loadedBundles := loadedBundles rt;
     wasmInstance := wasmInstance rt; isRunning := isRunning rt; fps := fps rt;
     frameTime := frameTime rt; canvas := canvas rt; ctx := ctx rt;
     animationFrameId := h; lastFrameTime := lastFrameTime rt;
     frameCount := frameCount rt; lastFpsUpdate := lastFpsUpdate rt |}.

Definition set_lastFrameTime (x : Q) (rt : t) : t :=
  {| currentGame := currentGame rt; loadedBundles := loadedBundles rt;
     wasmInstance := wasmInstance rt; isRunning := isRunning rt; fps := fps rt;
     frameTime := frameTime rt; canvas := canvas rt; ctx := ctx rt;
     animationFrameId := animationFrameId rt; lastFrameTime := x;
     frameCount := frameCount rt; lastFpsUpdate := lastFpsUpdate rt |}.

Definition set_frameCount (n : Z) (rt : t) : t :=
  {| currentGame := currentGame rt; loadedBundles := loadedBundles rt;
     wasmInstance := wasmInstance rt; isRunning := isRunning rt; fps := fps rt;
     frameTime := frameTime rt; canvas := canvas rt; ctx := ctx rt;
     animationFrameId := animationFrameId rt; lastFrameTime := lastFrameTime rt;
     frameCount := n; lastFpsUpdate := lastFpsUpdate rt |}.

Definition set_lastFpsUpdate (x : Q) (rt : t) : t :=
  {| currentGame := currentGame rt; loadedBundles := loadedBundles rt;
     wasmInstance := wasmInstance rt; isRunning := isRunning rt; fps := fps rt;
     frameTime := frameTime rt; canvas := canvas rt; ctx := ctx rt;
     animationFrameId := animationFrameId rt; lastFrameTime := lastFrameTime rt;
     frameCount := frameCount rt; lastFpsUpdate := x |}.

Definition isSome {A : Type} (o : option A) : bool :=
  match o with Some _ => true | None => false end.

(** [renderSimulation(deltaTime)]: draws on a 2D context only. *)
Definition renderSimulation (deltaTime : Q) (rt : t) : list RuntimeEffect :=
  match canvas rt, ctx rt with
  | Some _, Some context2d => [RenderSimulation deltaTime]
  | _, _ => []
  end.

(** [syncState()]; [now] is the clock reading it takes for the snapshot. *)
Definition syncState (now : Q) (rt : t) : list RuntimeEffect :=
  match currentGame rt with
  | Some game => [SyncState (GhostGame.id game) (frameCount rt) now]
  | None => []
  end.

(** [gameLoop]: [now] is its clock reading, [syncNow] the later one of
    [syncState] and [handle] what [requestAnimationFrame] returns. *)
Definition gameLoop (now syncNow : Q) (handle : Z) (rt : t) : t * list RuntimeEffect :=
  if negb (isRunning rt) || negb (isSome (canvas rt)) || negb (isSome (ctx rt))
  then (rt, [])
  else
    let deltaTime := now - lastFrameTime rt in
    let rt := set_lastFrameTime now rt in
    let rt := set_frameCount (frameCount rt + 1)%Z rt in
    let updated :=
      if JS.geb (now - lastFpsUpdate rt) fpsUpdateInterval then
        let rt :=
          set_fps
            (JS.Math_round
               (inject_Z (frameCount rt) * 1000 / (now - lastFpsUpdate rt))) rt in
        let rt := set_frameTime deltaTime rt in
        let rt := set_lastFpsUpdate now rt in
        let rt := set_frameCount 0%Z rt in
        (rt, [Emit (stats (fps rt) (frameTime rt))])
      else (rt, []) in
    let rt := fst updated in
    let logic :=
      match wasmInstance rt with
      | Some instance =>
          if exportsUpdate instance then [WasmUpdate deltaTime]
          else renderSimulation deltaTime rt
      | None => renderSimulation deltaTime rt
      end in
    let sync :=
      if (frameCount rt mod 30 =? 0)%Z && isSome (currentGame rt)
      then syncState syncNow rt
      else [] in
    (set_animationFrameId (Some handle) rt,
     snd updated ++ logic ++ sync ++ [RequestAnimationFrame]).

Definition pause (rt : t) : t * list RuntimeEffect :=
  let rt := set_isRunning false rt in
  let cancelled :=
    match animationFrameId rt with
    | Some handle =>
        if negb (handle =? 0)%Z
        then (set_animationFrameId None rt, [CancelAnimationFrame handle])
        else (rt, [])
    | None => (rt, [])
    end in
  (fst cancelled, snd cancelled ++ [Emit (paused (currentGame (fst cancelled)))]).

(** [resume()]: [now] is its own clock reading, [loopNow] and [syncNow]
    are those of the frame it runs. *)
Definition resume (now loopNow syncNow : Q) (handle : Z) (rt : t)
  : t * list RuntimeEffect :=
  match currentGame rt, canvas rt with
  | Some game, Some _ =>
      let rt := set_isRunning true rt in
      let rt := set_lastFrameTime now rt in
      let r := gameLoop loopNow syncNow handle rt in
      (fst r, snd r ++ [Emit (resumed game)])
  | _, _ => (rt, [])
  end.

Definition stop (rt : t) : t * list RuntimeEffect :=
  let r := pause rt in
  let rt := fst r in
  let rt := set_currentGame None rt in
  let rt := set_loadedBundles (JSMap.clear (loadedBundles rt)) rt in
  let rt := set_wasmInstance None rt in
  let rt := set_fps 0 rt in
  let rt := set_frameTime 0 rt in
  let rt := set_canvas None rt in
  let rt := set_ctx None rt in
  (rt, snd r ++ [Emit stopped]).

(** The loop of [loadGame] that stores the bundles; [total] is
    [bundles.length]. *)
Fixpoint storeBundles (game : GhostGame.t) (total : Z) (bundles : list GhostBundle.t)
    (rt : t) : t * list RuntimeEffect :=
  match bundles with
  | [] => (rt, [])
  | bundle :: rest =>
      let rt :=
        set_loadedBundles (JSMap.set (loadedBundles rt) (GhostBundle.id bundle) bundle) rt in
      let r := storeBundles game total rest rt in
      (fst r,
       Emit (loading game (inject_Z (JSMap.size (loadedBundles rt)) / inject_Z total * 100))
         :: snd r)
  end.

(** [loadGame(game)]: [bundles] is what the compiler has stored for the
    game and [isValid] the outcome of its integrity check. *)
Definition loadGame (game : GhostGame.t) (bundles : list GhostBundle.t) (isValid : bool)
    (rt : t) : option RuntimeError * t * list RuntimeEffect :=
  if negb isValid
  then (Some integrity_check_failed, rt, [Emit (loading game 0)])
  else
    let r := storeBundles game (Z.of_nat (length bundles)) bundles rt in
    (None, set_currentGame (Some game) (fst r),
     Emit (loading game 0) :: snd r ++ [Emit (loaded game)]).

(** [start(canvasElement)]: [offered] is the first context the canvas
    gives among webgl2, webgl and 2d, [instantiate] the outcome of compiling
    and instantiating the entry bundle, [now] the clock reading of [start],
    [loopNow] and [syncNow] those of the frame it runs. *)
Definition start (canvasElement : Canvas) (offered : option ContextKind)
    (instantiate : list Byte.byte -> option WasmInstance)
    (now loopNow syncNow : Q) (handle : Z) (rt : t)
  : option RuntimeError * t * list RuntimeEffect :=
  match currentGame rt with
  | None => (Some no_game_loaded, rt, [])
  | Some game =>
      let rt := set_canvas (Some canvasElement) rt in
      let rt := set_ctx offered rt in
      match offered with
      | None => (Some no_canvas_context, rt, [])
      | Some _ =>
          let entryData :=
            match JSMap.get (loadedBundles rt) (GhostGame.entryPoint game) with
            | Some entryBundle =>
                match GhostBundle.data entryBundle with
                | Some bytes => if (0 <? length bytes)%nat then Some bytes else None
                | None => None
                end
            | None => None
            end in
          let instantiated :=
            match entryData with
            | Some bytes =>
                match instantiate bytes with
                | Some instance =>
                    (set_wasmInstance (Some instance) rt, [Emit (started game wasm_mode)])
                | None => (rt, [Emit (started game simulation_mode)])
                end
            | None => (rt, [Emit (started game simulation_mode)])
            end in
          let rt := fst instantiated in
          let rt := set_isRunning true rt in
          let rt := set_lastFrameTime now rt in
          let rt := set_lastFpsUpdate (lastFrameTime rt) rt in
          let rt := set_frameCount 0%Z rt in
          let r := gameLoop loopNow syncNow handle rt in
          (None, fst r, snd instantiated ++ snd r)
      end
  end.

End GhostRuntime.





(** What the loop of [loadGame] leaves in [loadedBundles]. *)
Definition storeAll (bundles : list GhostBundle.t) (m : JSMap.t GhostBundle.t)
  : JSMap.t GhostBundle.t :=
  fold_left (fun m bundle => JSMap.set m (GhostBundle.id bundle) bundle) bundles m.

(** The percentages [1/n, 2/n, ..., n/n]. *)
Definition steps (n : nat) : list Q :=
  map (fun i => inject_Z (Z.of_nat i) / inject_Z (Z.of_nat n) * 100) (seq 1 n).

(** The progress values among the effects, in order. *)
Definition progressOf (effs : list GhostRuntime.RuntimeEffect) : list Q :=
  flat_map (fun eff =>
              match eff with
              | GhostRuntime.Emit (GhostRuntime.loading _ progress) => [progress]
              | _ => []
              end) effs.

(** The instance [start] gets from the entry bundle of the game: the bundle
    is loaded, holds data that is not empty, and instantiating it succeeds. *)
Definition entryInstance (instantiate : list Byte.byte -> option GhostRuntime.WasmInstance)
    (game : GhostGame.t) (rt : GhostRuntime.t) : option GhostRuntime.WasmInstance :=
  match JSMap.get (GhostRuntime.loadedBundles rt) (GhostGame.entryPoint game) with
  | Some {| GhostBundle.data := Some (byte :: bytes) |} => instantiate (byte :: bytes)
  | _ => None
  end.

(** The state in which [start] runs its first frame. *)
Definition prepared (canvasElement : GhostRuntime.Canvas) (kind : GhostRuntime.ContextKind)
    (instance : option GhostRuntime.WasmInstance) (now : Q) (rt : GhostRuntime.t)
  : GhostRuntime.t :=
  {| GhostRuntime.currentGame := GhostRuntime.currentGame rt;
     GhostRuntime.loadedBundles := GhostRuntime.loadedBundles rt;
     GhostRuntime.wasmInstance :=
       match instance with
       | Some _ => instance
       | None => GhostRuntime.wasmInstance rt
       end;
     GhostRuntime.isRunning := true;
     GhostRuntime.fps := GhostRuntime.fps rt;
     GhostRuntime.frameTime := GhostRuntime.frameTime rt;
     GhostRuntime.canvas := Some canvasElement;
     GhostRuntime.ctx := Some kind;
     GhostRuntime.animationFrameId := GhostRuntime.animationFrameId rt;
     GhostRuntime.lastFrameTime := now;
     GhostRuntime.frameCount := 0%Z;
     GhostRuntime.lastFpsUpdate := now |}.

(** * IndexedDB: the object store of the bundles

    [openDatabase] creates the object store [bundles] with the key path
    [id] and an index on [gameId].  An object store holds at most one
    record per key and keeps its records in the order of their keys; keys
    that are strings are compared code unit by code unit, which for the
    identifiers of the bundles, all of them ASCII, is the order of
    [String.compare].  [getAll] on the index answers with the records of
    one game in the order of their keys.  Transactions are taken to
    complete. *)

Module IDB.

Record StoredBundle : Type := {
  id : string;
  gameId : string;
  type : GhostBundle.kind;
  hash : string;
  size : Q;
  dependencies : list string;
  serializedData : option (list Byte.byte)
}.

Definition ObjectStore : Type := list StoredBundle.

Definition empty : ObjectStore := [].

(** [store.put(record)]: the record takes the place its key gives it, and
    the place of the record that had the same key. *)
Fixpoint put (record : StoredBundle) (store : ObjectStore) : ObjectStore :=
  match store with
  | [] => [record]
  | held :: rest =>
      match String.compare (id record) (id held) with
      | Lt => record :: held :: rest
      | Eq => record :: rest
      | Gt => held :: put record rest
      end
  end.

(** [store.index("gameId").getAll(key)]. *)
Definition getAll (key : string) (store : ObjectStore) : list StoredBundle :=
  filter (fun record => String.eqb (gameId record) key) store.

End IDB.

(** * GhostCompiler: chunks, the Merkle root and the integrity check

    [GhostRuntime.loadGame] takes the bundles and the verdict of the
    integrity check from the compiler.  SHA-256 in hexadecimal and the text
    encoder are the environment's; the identifier of a game comes from
    [crypto.randomUUID] and is an argument; the object store of the bundles
    is passed along. *)

Module GhostCompiler.

Section Hashing.

Variable calculateHash : list Byte.byte -> string.
Variable encode : string -> list Byte.byte.

Definition chunksizeBytes : nat := 256 * 1024.

(** [buffer.slice(start, end)] for [start <= end]. *)
Definition slice {A : Type} (start finish : nat) (buffer : list A) : list A :=
  firstn (finish - start) (skipn start buffer).

(** The template [`${gameId}-chunk-${i}`]. *)
Definition chunkId (gameId : string) (i : nat) : string :=
  (gameId ++ "-chunk-" ++ DecimalString.NilEmpty.string_of_uint (Nat.to_uint i))%string.

(** The loop of [compileGame] from chunk [i] on, [remaining] chunks to go:
    the bundles pushed and the values given to [onProgress]. *)
Fixpoint chunkLoop (chunksize : nat) (file : list Byte.byte) (gameId : string)
    (totalChunks remaining i : nat) : list GhostBundle.t * list Q :=
  match remaining with
  | O => ([], [])
  | S remaining =>
      let start := (i * chunksize)%nat in
      let finish := Nat.min (start + chunksize) (length file) in
      let chunkData := slice start finish file in
      let hash := calculateHash chunkData in
      let bundle :=
        {| GhostBundle.id := chunkId gameId i;
           GhostBundle.gameId := gameId;
           GhostBundle.type := if (i =? 0)%nat then GhostBundle.wasm else GhostBundle.asset;
           GhostBundle.hash := hash;
           GhostBundle.size := inject_Z (Z.of_nat (length chunkData));
           GhostBundle.data := Some chunkData;
           GhostBundle.dependencies :=
             if (0 <? i)%nat then [chunkId gameId (i - 1)] else [] |} in
      let r := chunkLoop chunksize file gameId totalChunks remaining (i + 1) in
      (bundle :: fst r,
       inject_Z (Z.of_nat (i + 1)) / inject_Z (Z.of_nat totalChunks) * 100 :: snd r)
  end.

(** One level of the tree: the loop over the hashes two by two.  A hash
    with nothing, or with the empty string, to its right is paired with
    itself. *)
Fixpoint pairs (hashes : list string) : list string :=
  match hashes with
  | [] => []
  | [leftHash] => [calculateHash (encode (leftHash ++ leftHash)%string)]
  | leftHash :: next :: rest =>
      let rightHash := if truthy (Some next) then next else leftHash in
      calculateHash (encode (leftHash ++ rightHash)%string) :: pairs rest
  end.

(** [calculateMerkleRoot], with the depth of the recursion bounded by
    [fuel]. *)
Fixpoint merkle (fuel : nat) (hashes : list string) : option string :=
  match hashes with
  | [] => Some ""%string
  | [hash] => Some hash
  | _ =>
      match fuel with
      | O => None
      | S fuel => merkle fuel (pairs hashes)
      end
  end.

Definition calculateMerkleRoot (hashes : list string) : option string :=
  merkle (length hashes) hashes.

(** [compileGame(file, gameName, onProgress)], parameterised by the size of
    a chunk: the game, the bundles handed to [storeBundles] and the values
    given to [onProgress]. *)
Definition compileWith (chunksize : nat) (file : list Byte.byte)
    (gameName gameId : string) : option (GhostGame.t * list GhostBundle.t * list Q) :=
  let byteLength := length file in
  let totalChunks :=
    Z.to_nat (Qceiling (inject_Z (Z.of_nat byteLength) / inject_Z (Z.of_nat chunksize))) in
  let r := chunkLoop chunksize file gameId totalChunks totalChunks 0 in
  let bundles := fst r in
  match calculateMerkleRoot (map GhostBundle.hash bundles) with
  | None => None
  | Some integrity =>
      Some ({| GhostGame.id := gameId;
               GhostGame.originalName := gameName;
               GhostGame.bundles := map GhostBundle.id bundles;
               GhostGame.entryPoint :=
                 match bundles with
                 | first :: _ => GhostBundle.id first
                 | [] => ""%string
                 end;
               GhostGame.totalSize := inject_Z (Z.of_nat byteLength);
               GhostGame.status := GhostGame.ready;
               GhostGame.integrity := integrity |},
            bundles, snd r)
  end.

Definition compileGame : list Byte.byte -> string -> string
                         -> option (GhostGame.t * list GhostBundle.t * list Q) :=
  compileWith chunksizeBytes.

(** [storeBundles(bundles)].  The data of a bundle is an [ArrayBuffer] or
    [null]; a buffer, even an empty one, is truthy, so it is stored as the
    array of its bytes. *)
Definition storeBundles (bundles : list GhostBundle.t) (store : IDB.ObjectStore)
  : IDB.ObjectStore :=
  fold_left
    (fun store bundle =>
       IDB.put
         {| IDB.id := GhostBundle.id bundle;
            IDB.gameId := GhostBundle.gameId bundle;
            IDB.type := GhostBundle.type bundle;
            IDB.hash := GhostBundle.hash bundle;
            IDB.size := GhostBundle.size bundle;
            IDB.dependencies := GhostBundle.dependencies bundle;
            IDB.serializedData := GhostBundle.data bundle |}
         store)
    bundles store.

(** [getAllBundlesForGame(gameId)].  An array, even an empty one, is
    truthy, so the bytes stored come back as a buffer. *)
Definition getAllBundlesForGame (gameId : string) (store : IDB.ObjectStore)
  : list GhostBundle.t :=
  map (fun r =>
         {| GhostBundle.id := IDB.id r;
            GhostBundle.gameId := IDB.gameId r;
            GhostBundle.type := IDB.type r;
            GhostBundle.hash := IDB.hash r;
            GhostBundle.size := IDB.size r;
            GhostBundle.data := IDB.serializedData r;
            GhostBundle.dependencies := IDB.dependencies r |})
      (IDB.getAll gameId store).

(** [verifyIntegrity(game)]. *)
Definition verifyIntegrity (game : GhostGame.t) (store : IDB.ObjectStore) : bool :=
  let bundles := getAllBundlesForGame (GhostGame.id game) store in
  let hashes := map GhostBundle.hash bundles in
  match calculateMerkleRoot hashes with
  | Some calculatedRoot => String.eqb calculatedRoot (GhostGame.integrity game)
  | None => false
  end.

End Hashing.

End GhostCompiler.



(** Chunk [k] of a file, as the loop of [compileGame] builds it. *)
Definition chunkAt (calculateHash : list Byte.byte -> string) (chunksize : nat)
    (file : list Byte.byte) (gameId : string) (k : nat) : GhostBundle.t :=
  let chunkData := firstn chunksize (skipn (k * chunksize) file) in
  {| GhostBundle.id := GhostCompiler.chunkId gameId k;
     GhostBundle.gameId := gameId;
     GhostBundle.type := if (k =? 0)%nat then GhostBundle.wasm else GhostBundle.asset;
     GhostBundle.hash := calculateHash chunkData;
     GhostBundle.size := inject_Z (Z.of_nat (length chunkData));
     GhostBundle.data := Some chunkData;
     GhostBundle.dependencies :=
       if (0 <? k)%nat then [GhostCompiler.chunkId gameId (k - 1)] else [] |}.

(** The number of chunks of a file of [byteLength] bytes. *)
Definition chunkCount (chunksize byteLength : nat) : nat :=
  Z.to_nat (Qceiling (inject_Z (Z.of_nat byteLength) / inject_Z (Z.of_nat chunksize))).

(** The order of the keys of the object store, on bundles. *)
Definition keyBefore (a b : GhostBundle.t) : Prop :=
  String.compare (GhostBundle.id a) (GhostBundle.id b) = Lt.

(** A bundle as [storeBundles] writes it, and a record as
    [getAllBundlesForGame] gives it back. *)
Definition recordOf (bundle : GhostBundle.t) : IDB.StoredBundle :=
  {| IDB.id := GhostBundle.id bundle;
     IDB.gameId := GhostBundle.gameId bundle;
     IDB.type := GhostBundle.type bundle;
     IDB.hash := GhostBundle.hash bundle;
     IDB.size := GhostBundle.size bundle;
     IDB.dependencies := GhostBundle.dependencies bundle;
     IDB.serializedData := GhostBundle.data bundle |}.

Definition bundleOf (r : IDB.StoredBundle) : GhostBundle.t :=
  {| GhostBundle.id := IDB.id r;
     GhostBundle.gameId := IDB.gameId r;
     GhostBundle.type := IDB.type r;
     GhostBundle.hash := IDB.hash r;
     GhostBundle.size := IDB.size r;
     GhostBundle.data := IDB.serializedData r;
     GhostBundle.dependencies := IDB.dependencies r |}.

(** The order of the keys, on records. *)
Definition recordBefore (a b : IDB.StoredBundle) : Prop :=
  String.compare (IDB.id a) (IDB.id b) = Lt.

(** An object store in the order of its keys that holds no record of the
    game and none under the name of one of its chunks. *)
Definition holdsNothingOf (gameId : string) (store : IDB.ObjectStore) : Prop :=
  StronglySorted recordBefore store /\
  forall r, In r store ->
            IDB.gameId r <> gameId /\
            forall k, IDB.id r <> GhostCompiler.chunkId gameId k.

(** What the compiler reads back for the game once it has stored the
    bundles. *)
Definition readBack (gameId : string) (bundles : list GhostBundle.t)
    (store : IDB.ObjectStore) : list GhostBundle.t :=
  GhostCompiler.getAllBundlesForGame gameId (GhostCompiler.storeBundles bundles store).

(** A stand-in for SHA-256 in examples: the first and the last byte of the
    data, as a string of two characters; and the bytes of a string. *)
Definition endsHash (bytes : list Byte.byte) : string :=
  match bytes with
  | [] => ""%string
  | first :: _ =>
      String (Ascii.ascii_of_byte first)
        (String (Ascii.ascii_of_byte (last bytes first)) "")
  end.

Definition bytesOf : string -> list Byte.byte := list_byte_of_string.

(** A file of eleven chunks, chunk [k] filled with the byte [k]. *)
Definition elevenChunks : list Byte.byte :=
  flat_map (fun byte => repeat byte GhostCompiler.chunksizeBytes)
    [Byte.x00; Byte.x01; Byte.x02; Byte.x03; Byte.x04; Byte.x05;
     Byte.x06; Byte.x07; Byte.x08; Byte.x09; Byte.x0a].

(** A file of one chunk. *)
Definition smallFile : list Byte.byte := [Byte.x00; Byte.x61; Byte.x73; Byte.x6d].

(** The sum of the formula with every operation in binary64. *)
Definition scoreInBinary64 (c : PeerCapabilities) (latencyMs : Q) : Q :=
  JS.sub
    (JS.add
       (JS.add (baseContribution c) (JS.Math_min (JS.div (maxMemory c) 1024) 10))
       (JS.Math_min (JS.div (bandwidth c) 10) 10))
    (JS.Math_min (JS.div latencyMs 10) 20).

(** A profile with a 7 Mbps link and nothing else. *)
Definition narrowLink : PeerCapabilities :=
  {| hasGPU := false; hasWASM := false; maxMemory := 0; bandwidth := 7;
     canRender := false; canCompute := false; canStore := false |}.

(** * Properties *)

(** ** binary64 rounding *)

Lemma pow2_pos (e : Z) : 0 < JS.pow2 e.
Proof. apply Qpower_0_lt. reflexivity. Qed.

Lemma pow2_plus (a b : Z) : JS.pow2 (a + b) == JS.pow2 a * JS.pow2 b.
Proof. apply Qpower_plus. discriminate. Qed.

Lemma pow2_le (a b : Z) : (a <= b)%Z -> JS.pow2 a <= JS.pow2 b.
Proof. intros H. apply Qpower_le_compat_l; [exact H | discriminate]. Qed.

Lemma pow2_Z (n : Z) : (0 <= n)%Z -> JS.pow2 n == inject_Z (2 ^ n).
Proof. intros H. unfold JS.pow2. rewrite Zpower_Qpower by exact H. reflexivity. Qed.

Lemma pow2_succ (a : Z) : JS.pow2 (a + 1) == 2 * JS.pow2 a.
Proof. rewrite pow2_plus. change (JS.pow2 1) with 2. ring. Qed.

Lemma ilog2_spec (x : Q) :
  0 < x -> JS.pow2 (JS.ilog2 x) <= x /\ x < JS.pow2 (JS.ilog2 x + 1).
Proof.
  intros P. destruct x as [n d].
  assert (0 < n)%Z as Pn by (unfold Qlt in P; cbn in P; lia).
  destruct (Z.log2_spec n Pn) as [Ln Un].
  destruct (Z.log2_spec (Zpos d) eq_refl) as [Ld Ud].
  pose proof (Z.log2_nonneg n) as Nn. pose proof (Z.log2_nonneg (Zpos d)) as Nd.
  set (la := Z.log2 n) in *. set (ld := Z.log2 (Zpos d)) in *.
  assert (inject_Z n == (n # d) * inject_Z (Zpos d)) as X.
  { unfold Qeq, inject_Z, Qmult. cbn. lia. }
  assert (0 < inject_Z (Zpos d)) as PD by reflexivity.
  assert (JS.pow2 la <= inject_Z n) as A1.
  { rewrite pow2_Z by lia. rewrite <- Zle_Qle. exact Ln. }
  assert (inject_Z n < 2 * JS.pow2 la) as A2.
  { rewrite <- pow2_succ, pow2_Z by lia. rewrite <- Zlt_Qlt.
    unfold Z.succ in Un. exact Un. }
  assert (JS.pow2 ld <= inject_Z (Zpos d)) as D1.
  { rewrite pow2_Z by lia. rewrite <- Zle_Qle. exact Ld. }
  assert (inject_Z (Zpos d) < 2 * JS.pow2 ld) as D2.
  { rewrite <- pow2_succ, pow2_Z by lia. rewrite <- Zlt_Qlt.
    unfold Z.succ in Ud. exact Ud. }
  assert (JS.pow2 la == JS.pow2 (la - ld) * JS.pow2 ld) as K.
  { rewrite <- pow2_plus. replace (la - ld + ld)%Z with la by lia. reflexivity. }
  pose proof (pow2_pos (la - ld)) as Pk. pose proof (pow2_pos ld) as Pld.
  pose proof (pow2_pos la) as Pla.
  assert ((n # d) < 2 * JS.pow2 (la - ld)) as Upper.
  { apply Qnot_le_lt. intros H.
    assert (2 * JS.pow2 (la - ld) * JS.pow2 ld <= (n # d) * inject_Z (Zpos d)) as C.
    { apply Qle_trans with ((n # d) * JS.pow2 ld).
      - apply Qmult_le_compat_r; [exact H | apply Qlt_le_weak, Pld].
      - rewrite !(Qmult_comm (n # d)).
        apply Qmult_le_compat_r; [exact D1 | apply Qlt_le_weak, P]. }
    rewrite <- X in C. rewrite <- Qmult_assoc, <- K in C. lra. }
  assert (JS.pow2 (la - ld) < 2 * (n # d)) as Lower.
  { apply Qnot_le_lt. intros H.
    assert ((n # d) * inject_Z (Zpos d) < (n # d) * (2 * JS.pow2 ld)) as C1.
    { rewrite !(Qmult_comm (n # d)). apply Qmult_lt_compat_r; [exact P | exact D2]. }
    assert (2 * (n # d) * JS.pow2 ld <= JS.pow2 (la - ld) * JS.pow2 ld) as C2.
    { apply Qmult_le_compat_r; [exact H | apply Qlt_le_weak, Pld]. }
    rewrite <- X in C1. rewrite <- K in C2.
    setoid_replace ((n # d) * (2 * JS.pow2 ld)) with (2 * (n # d) * JS.pow2 ld) in C1
      by ring.
    lra. }
  unfold JS.ilog2. cbn [Qnum Qden]. fold la ld.
  destruct (Qle_bool (JS.pow2 (la - ld)) (n # d)) eqn:T.
  - apply Qle_bool_iff in T. split; [exact T |]. rewrite pow2_succ. exact Upper.
  - assert (~ JS.pow2 (la - ld) <= n # d) as T'
      by (intros H; apply Qle_bool_iff in H; congruence).
    apply Qnot_le_lt in T'.
    replace (la - ld - 1 + 1)%Z with (la - ld)%Z by lia.
    split; [| exact T'].
    assert (JS.pow2 (la - ld) == 2 * JS.pow2 (la - ld - 1)) as E.
    { rewrite <- pow2_succ. replace (la - ld - 1 + 1)%Z with (la - ld)%Z by lia.
      reflexivity. }
    lra.
Qed.

Lemma inject_Z_minus (a b : Z) : inject_Z (a - b) == inject_Z a - inject_Z b.
Proof. unfold Z.sub. rewrite inject_Z_plus, inject_Z_opp. reflexivity. Qed.

Lemma nearestEven_half (x : Q) : Qabs (x - inject_Z (JS.nearestEven x)) <= 1 # 2.
Proof.
  pose proof (Qfloor_le x) as L. pose proof (Qlt_floor x) as U.
  rewrite inject_Z_plus in U. change (inject_Z 1) with 1 in U.
  unfold JS.nearestEven.
  destruct (Qcompare_spec (x - inject_Z (Qfloor x)) (1 # 2)) as [E | E | E];
    [destruct (Z.even (Qfloor x)) |..];
    rewrite ?inject_Z_plus; change (inject_Z 1) with 1;
    apply Qabs_Qle_condition; split; lra.
Qed.

Lemma nearestEven_nearest (x : Q) (z : Z) :
  Qabs (x - inject_Z (JS.nearestEven x)) <= Qabs (x - inject_Z z).
Proof.
  pose proof (nearestEven_half x) as H.
  destruct (Z.eq_dec z (JS.nearestEven x)) as [-> | N]; [apply Qle_refl |].
  apply Qle_trans with (1 # 2); [exact H |].
  apply Qabs_Qle_condition in H. destruct H as [H1 H2].
  assert (z <= JS.nearestEven x - 1 \/ JS.nearestEven x + 1 <= z)%Z as [C | C] by lia.
  - rewrite Zle_Qle, inject_Z_minus in C. change (inject_Z 1) with 1 in C.
    apply Qle_trans with (x - inject_Z z); [lra | apply Qle_Qabs].
  - rewrite Zle_Qle, inject_Z_plus in C. change (inject_Z 1) with 1 in C.
    rewrite Qabs_Qminus. apply Qle_trans with (inject_Z z - x); [lra | apply Qle_Qabs].
Qed.

Lemma nearestEven_comp (x y : Q) : x == y -> JS.nearestEven x = JS.nearestEven y.
Proof.
  intros E. unfold JS.nearestEven. rewrite (Qfloor_comp x y E).
  assert (Qcompare (x - inject_Z (Qfloor y)) (1 # 2)
          = Qcompare (y - inject_Z (Qfloor y)) (1 # 2)) as C.
  { apply Qcompare_comp; [rewrite E; reflexivity | reflexivity]. }
  rewrite C. reflexivity.
Qed.

Lemma nearestEven_Z (z : Z) : JS.nearestEven (inject_Z z) = z.
Proof.
  unfold JS.nearestEven. rewrite Qfloor_Z.
  destruct (Qcompare_spec (inject_Z z - inject_Z z) (1 # 2)) as [E | E | E];
    [exfalso; lra | reflexivity | exfalso; lra].
Qed.

Lemma nearestEven_bound (x : Q) (b : Z) :
  Qabs x <= inject_Z b -> (Z.abs (JS.nearestEven x) <= b)%Z.
Proof.
  intros H. pose proof (nearestEven_half x) as N.
  apply Qabs_Qle_condition in H. apply Qabs_Qle_condition in N.
  destruct H as [H1 H2]. destruct N as [N1 N2].
  assert (inject_Z (JS.nearestEven x) < inject_Z (b + 1)) as U.
  { rewrite inject_Z_plus. change (inject_Z 1) with 1. lra. }
  assert (inject_Z (- b - 1) < inject_Z (JS.nearestEven x)) as L.
  { rewrite inject_Z_minus, inject_Z_opp. change (inject_Z 1) with 1. lra. }
  rewrite <- Zlt_Qlt in U, L. lia.
Qed.

(** The exponent leaves at most 53 bits of significand, and exactly 53 in
    the normal range. *)
Lemma exponent_fits (x : Q) : Qabs x < JS.pow2 (JS.exponent x + 53).
Proof.
  destruct (Qlt_le_dec 0 (Qabs x)) as [P | Z0].
  - destruct (ilog2_spec (Qabs x) P) as [_ U].
    apply Qlt_le_trans with (1 := U). apply pow2_le. unfold JS.exponent. lia.
  - apply Qle_lt_trans with (1 := Z0). apply pow2_pos.
Qed.

Lemma exponent_normal (x : Q) :
  ~ x == 0 -> (-1074 < JS.exponent x)%Z -> JS.pow2 (JS.exponent x + 52) <= Qabs x.
Proof.
  intros N E.
  assert (0 < Qabs x) as P.
  { destruct (Qlt_le_dec 0 (Qabs x)) as [P | Z0]; [exact P |].
    exfalso. apply N. pose proof (Qabs_nonneg x) as A.
    assert (Qabs x == 0) as A0 by lra.
    apply Qabs_Qle_condition with (y := 0) in Z0 as Z1. lra. }
  destruct (ilog2_spec (Qabs x) P) as [L _].
  unfold JS.exponent in *.
  replace (Z.max (JS.ilog2 (Qabs x) - 52) (-1074) + 52)%Z with (JS.ilog2 (Qabs x)) by lia.
  exact L.
Qed.

Lemma round64_value (x : Q) :
  JS.round64 x
  == inject_Z (JS.nearestEven (x / JS.pow2 (JS.exponent x))) * JS.pow2 (JS.exponent x).
Proof. unfold JS.round64. cbv zeta. apply Qred_correct. Qed.

Lemma scaled (x : Q) (e : Z) : x / JS.pow2 e * JS.pow2 e == x.
Proof. pose proof (pow2_pos e). field. lra. Qed.

Lemma Qabs_scale (x : Q) (e : Z) : Qabs (x * JS.pow2 e) == Qabs x * JS.pow2 e.
Proof.
  rewrite Qabs_Qmult, (Qabs_pos (JS.pow2 e)); [reflexivity |].
  apply Qlt_le_weak, pow2_pos.
Qed.

Lemma round64_representable (x : Q) : representable (JS.round64 x).
Proof.
  exists (JS.nearestEven (x / JS.pow2 (JS.exponent x))), (JS.exponent x).
  split; [apply round64_value |]. split; [| unfold JS.exponent; lia].
  apply nearestEven_bound.
  pose proof (exponent_fits x) as F. pose proof (pow2_pos (JS.exponent x)) as P.
  rewrite pow2_plus in F.
  assert (Qabs (x / JS.pow2 (JS.exponent x)) * JS.pow2 (JS.exponent x) == Qabs x) as S.
  { rewrite <- Qabs_scale, scaled. reflexivity. }
  assert (JS.pow2 53 == inject_Z (2 ^ 53)) as E by (apply pow2_Z; lia).
  rewrite <- E. apply Qlt_le_weak.
  apply Qnot_le_lt. intros H.
  assert (JS.pow2 53 * JS.pow2 (JS.exponent x)
          <= Qabs (x / JS.pow2 (JS.exponent x)) * JS.pow2 (JS.exponent x)) as C
    by (apply Qmult_le_compat_r; [exact H | apply Qlt_le_weak, P]).
  rewrite S in C. rewrite (Qmult_comm (JS.pow2 (JS.exponent x))) in F. lra.
Qed.

(** A multiple of [2^e] is the nearest only if the rounded value is. *)
Lemma round64_grid (x : Q) (z : Z) :
  Qabs (x - JS.round64 x) <= Qabs (x - inject_Z z * JS.pow2 (JS.exponent x)).
Proof.
  set (e := JS.exponent x). pose proof (pow2_pos e) as P.
  rewrite round64_value. fold e.
  pose proof (nearestEven_nearest (x / JS.pow2 e) z) as N.
  assert (forall k : Z,
             Qabs (x - inject_Z k * JS.pow2 e)
             == Qabs (x / JS.pow2 e - inject_Z k) * JS.pow2 e) as S.
  { intros k. rewrite <- Qabs_scale. apply Qabs_wd. field. lra. }
  rewrite !S. apply Qmult_le_compat_r; [exact N | apply Qlt_le_weak, P].
Qed.

Lemma round64_zero (x : Q) : x == 0 -> JS.round64 x == 0.
Proof.
  intros E. rewrite round64_value.
  assert (x / JS.pow2 (JS.exponent x) == inject_Z 0) as Z0.
  { set (p := JS.pow2 (JS.exponent x)). rewrite E. unfold Qdiv. ring. }
  rewrite (nearestEven_comp _ _ Z0), nearestEven_Z. ring.
Qed.

Lemma round64_nearest (x f : Q) :
  representable f -> Qabs (x - JS.round64 x) <= Qabs (x - f).
Proof.
  intros (m & e' & Ef & Bm & Be).
  destruct (Qeq_dec x 0) as [X0 | N].
  { pose proof (round64_zero x X0) as R0.
    assert (x - JS.round64 x == 0) as D by lra.
    rewrite (Qabs_wd _ _ D). apply Qabs_nonneg. }
  set (e := JS.exponent x). pose proof (pow2_pos e) as P.
  destruct (Z_le_gt_dec e e') as [Ge | Lt].
  - (* [f] is a multiple of [2^e] *)
    assert (f == inject_Z (m * 2 ^ (e' - e)) * JS.pow2 e) as G.
    { rewrite Ef, inject_Z_mult, <- pow2_Z by lia.
      rewrite <- Qmult_assoc, <- pow2_plus.
      replace (e' - e + e)%Z with e' by lia. reflexivity. }
    rewrite G. apply round64_grid.
  - (* [f] lies below the binade of [x] *)
    assert (-1074 < e)%Z as Normal by lia.
    pose proof (exponent_normal x N Normal) as Low. fold e in Low.
    assert (Qabs f <= JS.pow2 (e + 52)) as Small.
    { rewrite Ef, Qabs_scale.
      apply Qle_trans with (inject_Z (2 ^ 53) * JS.pow2 e').
      - apply Qmult_le_compat_r; [| apply Qlt_le_weak, pow2_pos].
        change (Qabs (inject_Z m)) with (inject_Z (Z.abs m)).
        rewrite <- Zle_Qle. exact Bm.
      - rewrite <- pow2_Z by lia. rewrite <- pow2_plus. apply pow2_le. lia. }
    assert (JS.pow2 (e + 52) == inject_Z (2 ^ 52) * JS.pow2 e) as B.
    { rewrite Z.add_comm, pow2_plus, pow2_Z by lia. reflexivity. }
    destruct (Qlt_le_dec 0 x) as [Px | Nx].
    + rewrite (Qabs_pos x) in Low by lra.
      apply Qle_trans with (Qabs (x - inject_Z (2 ^ 52) * JS.pow2 e));
        [apply round64_grid |].
      rewrite <- B.
      apply Qabs_Qle_condition in Small. destruct Small as [S1 S2].
      rewrite (Qabs_pos (x - JS.pow2 (e + 52))) by lra.
      apply Qle_trans with (x - f); [lra | apply Qle_Qabs].
    + rewrite (Qabs_neg x) in Low by exact Nx.
      apply Qle_trans with (Qabs (x - inject_Z (- 2 ^ 52) * JS.pow2 e));
        [apply round64_grid |].
      rewrite inject_Z_opp.
      setoid_replace (x - - inject_Z (2 ^ 52) * JS.pow2 e)
        with (x + JS.pow2 (e + 52)) by (rewrite B; ring).
      apply Qabs_Qle_condition in Small. destruct Small as [S1 S2].
      rewrite (Qabs_neg (x + JS.pow2 (e + 52))) by lra.
      rewrite Qabs_Qminus. apply Qle_trans with (f - x); [lra | apply Qle_Qabs].
Qed.

Lemma round64_exact (x : Q) : representable x -> JS.round64 x == x.
Proof.
  intros R. pose proof (round64_nearest x x R) as N.
  setoid_replace (x - x) with 0 in N by ring. change (Qabs 0) with 0 in N.
  pose proof (Qabs_nonneg (x - JS.round64 x)) as A.
  assert (Qabs (x - JS.round64 x) <= 0) as Z0 by lra.
  apply Qabs_Qle_condition in Z0. lra.
Qed.

Lemma round64_comp (x y : Q) : x == y -> JS.round64 x = JS.round64 y.
Proof.
  intros E. unfold JS.round64. cbv zeta. apply Qred_complete.
  destruct (Qeq_dec x 0) as [X0 | N].
  { assert (y == 0) as Y0 by (rewrite <- E; exact X0).
    rewrite <- !round64_value, (round64_zero x X0), (round64_zero y Y0). reflexivity. }
  assert (JS.exponent x = JS.exponent y) as Ee.
  { unfold JS.exponent. f_equal. f_equal.
    assert (0 < Qabs x) as Px.
    { pose proof (Qabs_nonneg x).
      destruct (Qlt_le_dec 0 (Qabs x)) as [Q0 | Q0]; [exact Q0 |].
      exfalso. apply N. apply Qabs_Qle_condition in Q0. lra. }
    assert (Qabs x == Qabs y) as Ea by (apply Qabs_wd, E).
    assert (0 < Qabs y) as Py by (rewrite <- Ea; exact Px).
    destruct (ilog2_spec _ Px) as [L1 U1]. destruct (ilog2_spec _ Py) as [L2 U2].
    assert (JS.pow2 (JS.ilog2 (Qabs x)) < JS.pow2 (JS.ilog2 (Qabs y) + 1)) as A by lra.
    assert (JS.pow2 (JS.ilog2 (Qabs y)) < JS.pow2 (JS.ilog2 (Qabs x) + 1)) as B by lra.
    apply Qpower_lt_compat_l_inv in A; [| reflexivity].
    apply Qpower_lt_compat_l_inv in B; [| reflexivity].
    lia. }
  rewrite Ee.
  assert (x / JS.pow2 (JS.exponent y) == y / JS.pow2 (JS.exponent y)) as Es.
  { set (p := JS.pow2 (JS.exponent y)). rewrite E. reflexivity. }
  rewrite (nearestEven_comp _ _ Es). reflexivity.
Qed.

Lemma nearer_above (a b x : Q) :
  a < b -> Qabs (x - b) <= Qabs (x - a) -> a + b <= 2 * x.
Proof.
  intros L H. destruct (Qlt_le_dec (2 * x) (a + b)) as [C | C]; [exfalso | exact C].
  rewrite (Qabs_neg (x - b)) in H by lra.
  destruct (Qlt_le_dec x a) as [D | D].
  - rewrite (Qabs_neg (x - a)) in H by lra. lra.
  - rewrite (Qabs_pos (x - a)) in H by lra. lra.
Qed.

Lemma nearer_below (a b y : Q) :
  a < b -> Qabs (y - a) <= Qabs (y - b) -> 2 * y <= a + b.
Proof.
  intros L H. destruct (Qlt_le_dec (a + b) (2 * y)) as [C | C]; [exfalso | exact C].
  rewrite (Qabs_pos (y - a)) in H by lra.
  destruct (Qlt_le_dec y b) as [D | D].
  - rewrite (Qabs_neg (y - b)) in H by lra. lra.
  - rewrite (Qabs_pos (y - b)) in H by lra. lra.
Qed.

Lemma round64_monotone (x y : Q) : x <= y -> JS.round64 x <= JS.round64 y.
Proof.
  intros L. apply Qnot_lt_le. intros C.
  pose proof (round64_nearest x (JS.round64 y) (round64_representable y)) as N1.
  pose proof (round64_nearest y (JS.round64 x) (round64_representable x)) as N2.
  pose proof (nearer_above _ _ _ C N1) as A.
  pose proof (nearer_below _ _ _ C N2) as B.
  assert (x == y) as E by lra.
  rewrite (round64_comp x y E) in C. exact (Qlt_irrefl _ C).
Qed.

(** Whole numbers up to [2^53] and fractions on a grid are binary64 values. *)
Lemma representable_Z (n : Z) : (Z.abs n <= 2 ^ 53)%Z -> representable (inject_Z n).
Proof.
  intros H. exists n, 0%Z. split; [| split; [exact H | lia]].
  change (JS.pow2 0) with 1. ring.
Qed.

Lemma round64_Z (n : Z) : (Z.abs n <= 2 ^ 53)%Z -> JS.round64 (inject_Z n) == inject_Z n.
Proof. intros H. apply round64_exact, representable_Z, H. Qed.

(** The rounding error on a bounded value. *)
Lemma round64_error (x : Q) (j : Z) :
  (-1074 <= j)%Z -> Qabs x <= JS.pow2 (j + 53) ->
  Qabs (x - JS.round64 x) <= JS.pow2 j.
Proof.
  intros J B. pose proof (pow2_pos j) as P.
  assert (Qabs (x / JS.pow2 j) <= inject_Z (2 ^ 53)) as S.
  { rewrite <- pow2_Z by lia. apply Qnot_lt_le. intros H.
    assert (JS.pow2 53 * JS.pow2 j < Qabs (x / JS.pow2 j) * JS.pow2 j) as C
      by (apply Qmult_lt_compat_r; assumption).
    rewrite <- Qabs_scale, scaled, <- pow2_plus, Z.add_comm in C. lra. }
  apply Qle_trans with
    (Qabs (x - inject_Z (JS.nearestEven (x / JS.pow2 j)) * JS.pow2 j)).
  - apply round64_nearest.
    exists (JS.nearestEven (x / JS.pow2 j)), j.
    split; [reflexivity |]. split; [apply nearestEven_bound, S | exact J].
  - assert (Qabs (x - inject_Z (JS.nearestEven (x / JS.pow2 j)) * JS.pow2 j)
            == Qabs (x / JS.pow2 j - inject_Z (JS.nearestEven (x / JS.pow2 j)))
               * JS.pow2 j) as E.
    { rewrite <- Qabs_scale. apply Qabs_wd. field. lra. }
    rewrite E. pose proof (nearestEven_half (x / JS.pow2 j)) as H.
    apply Qle_trans with ((1 # 2) * JS.pow2 j).
    + apply Qmult_le_compat_r; [exact H | lra].
    + lra.
Qed.

(** ** JavaScript numbers *)

Lemma gtb_lt (a b : Q) : JS.gtb a b = true <-> b < a.
Proof.
  unfold JS.gtb. rewrite negb_true_iff, <- not_true_iff_false, Qle_bool_iff.
  split; [apply Qnot_le_lt | apply Qlt_not_le].
Qed.

Lemma gtb_le (a b : Q) : JS.gtb a b = false <-> a <= b.
Proof. unfold JS.gtb. rewrite negb_false_iff. apply Qle_bool_iff. Qed.

Lemma geb_le (a b : Q) : JS.geb a b = true <-> b <= a.
Proof. unfold JS.geb. apply Qle_bool_iff. Qed.

Lemma Math_min_Qmin (a b : Q) : JS.Math_min a b == Qmin a b.
Proof.
  unfold JS.Math_min. destruct (Qle_bool a b) eqn:E.
  - apply Qle_bool_iff in E. symmetry. apply Q.min_l; exact E.
  - apply not_true_iff_false in E. rewrite Qle_bool_iff in E.
    symmetry. apply Q.min_r. apply Qlt_le_weak, Qnot_le_lt, E.
Qed.

Lemma Math_max_Qmax (a b : Q) : JS.Math_max a b == Qmax a b.
Proof.
  unfold JS.Math_max. destruct (Qle_bool a b) eqn:E.
  - apply Qle_bool_iff in E. symmetry. apply Q.max_r; exact E.
  - apply not_true_iff_false in E. rewrite Qle_bool_iff in E.
    symmetry. apply Q.max_l. apply Qlt_le_weak, Qnot_le_lt, E.
Qed.

Lemma Math_max_lower (a b : Q) : a <= JS.Math_max a b.
Proof.
  unfold JS.Math_max. destruct (Qle_bool a b) eqn:E.
  - apply Qle_bool_iff, E.
  - apply Qle_refl.
Qed.

Lemma Math_round_nearest (x : Q) : nearest x (Qfloor (x + (1 # 2))).
Proof.
  unfold nearest.
  pose proof (Qfloor_le (x + (1 # 2))) as Hle.
  pose proof (Qlt_floor (x + (1 # 2))) as Hlt.
  rewrite inject_Z_plus in Hlt.
  change (inject_Z 1) with 1 in Hlt.
  split; lra.
Qed.

(** An integer nearest to [x] in this sense is unique. *)
Lemma nearest_unique (x : Q) (z1 z2 : Z) : nearest x z1 -> nearest x z2 -> z1 = z2.
Proof.
  unfold nearest. intros [H1 H2] [H3 H4].
  assert (inject_Z z1 < inject_Z z2 + 1) as A by lra.
  assert (inject_Z z2 < inject_Z z1 + 1) as B by lra.
  change 1 with (inject_Z 1) in A, B. rewrite <- inject_Z_plus in A, B.
  rewrite <- Zlt_Qlt in A, B. lia.
Qed.

(** The base contribution is at most 90. *)
Lemma baseContribution_range (c : PeerCapabilities) :
  0 <= baseContribution c /\ baseContribution c <= 90.
Proof.
  unfold baseContribution.
  destruct (hasGPU c), (hasWASM c), (canRender c), (canCompute c); split;
    vm_compute; discriminate.
Qed.

(** *** Arithmetic on numbers *)

Lemma add_monotone (a b c d : Q) : a <= c -> b <= d -> JS.add a b <= JS.add c d.
Proof. intros H1 H2. apply round64_monotone. lra. Qed.

Lemma sub_monotone (a b c d : Q) : a <= c -> d <= b -> JS.sub a b <= JS.sub c d.
Proof. intros H1 H2. apply round64_monotone. lra. Qed.

Lemma div_monotone (a b d : Q) : 0 < d -> a <= b -> JS.div a d <= JS.div b d.
Proof.
  intros P H. apply round64_monotone. unfold Qdiv.
  apply Qmult_le_compat_r; [exact H |]. apply Qlt_le_weak, Qinv_lt_0_compat, P.
Qed.

(** Rounding keeps a value between two whole numbers. *)
Lemma round64_between (lo hi : Z) (x : Q) :
  (Z.abs lo <= 2 ^ 53)%Z -> (Z.abs hi <= 2 ^ 53)%Z ->
  inject_Z lo <= x -> x <= inject_Z hi ->
  inject_Z lo <= JS.round64 x /\ JS.round64 x <= inject_Z hi.
Proof.
  intros Blo Bhi L H. split.
  - rewrite <- (round64_Z lo Blo). apply round64_monotone, L.
  - rewrite <- (round64_Z hi Bhi). apply round64_monotone, H.
Qed.

Lemma add_between (lo hi : Z) (a b : Q) :
  (Z.abs lo <= 2 ^ 53)%Z -> (Z.abs hi <= 2 ^ 53)%Z ->
  inject_Z lo <= a + b -> a + b <= inject_Z hi ->
  inject_Z lo <= JS.add a b /\ JS.add a b <= inject_Z hi.
Proof. apply round64_between. Qed.

Lemma Qabs_le_iff (x e : Q) : Qabs x <= e <-> - e <= x /\ x <= e.
Proof. apply Qabs_Qle_condition. Qed.

(** The error of a quotient cut off at [cap]. *)
Lemma min_div_error (a d cap : Q) :
  0 <= a -> 0 < d -> cap <= 32 ->
  Qabs (JS.Math_min (JS.div a d) cap - Qmin (a / d) cap) <= JS.pow2 (-48) /\
  0 <= JS.div a d.
Proof.
  intros A D C.
  assert (0 <= a / d) as Q0.
  { unfold Qdiv. apply Qmult_le_0_compat; [exact A |].
    apply Qlt_le_weak, Qinv_lt_0_compat, D. }
  assert (0 <= JS.div a d) as R0.
  { change 0 with (inject_Z 0). rewrite <- (round64_Z 0) by (cbn; lia).
    apply round64_monotone, Q0. }
  split; [| exact R0].
  rewrite Math_min_Qmin.
  pose proof (pow2_pos (-48)) as P.
  destruct (Qlt_le_dec 32 (a / d)) as [Big | Small].
  - assert (32 <= JS.div a d) as R32.
    { change 32 with (inject_Z 32). rewrite <- (round64_Z 32) by (cbn; lia).
      apply round64_monotone. apply Qlt_le_weak, Big. }
    rewrite (Q.min_r (JS.div a d) cap) by lra.
    rewrite (Q.min_r (a / d) cap) by lra.
    setoid_replace (cap - cap) with 0 by ring. cbn. lra.
  - assert (Qabs (a / d - JS.div a d) <= JS.pow2 (-48)) as E.
    { apply round64_error; [lia |].
      rewrite Qabs_pos by exact Q0. change (JS.pow2 (-48 + 53)) with 32. exact Small. }
    apply Qabs_le_iff in E. destruct E as [E1 E2].
    apply Qabs_le_iff.
    destruct (Q.min_spec (JS.div a d) cap) as [[H1 ->] | [H1 ->]];
      destruct (Q.min_spec (a / d) cap) as [[H2 ->] | [H2 ->]]; split; lra.
Qed.

(** The value [calculateDeviceScore] hands to [Math.round]. *)
Lemma score_is_rounded_sum (c : PeerCapabilities) (l : Q) :
  calculateDeviceScore c l = JS.Math_max 0 (JS.Math_round (scoreInBinary64 c l)).
Proof.
  unfold calculateDeviceScore, scoreInBinary64, baseContribution. cbv zeta.
  destruct (hasGPU c), (hasWASM c), (canRender c), (canCompute c); cbv iota;
    do 3 f_equal; apply round64_comp; apply Qplus_comp; try reflexivity;
    vm_compute; reflexivity.
Qed.

(** The rounded sum is within [2^-44] of the sum of the formula. *)
Lemma scoreInBinary64_error (c : PeerCapabilities) (l : Q) :
  0 <= maxMemory c -> 0 <= bandwidth c -> 0 <= l ->
  Qabs (scoreInBinary64 c l - scoreBeforeRounding c l) <= JS.pow2 (-44).
Proof.
  intros M B L.
  destruct (min_div_error (maxMemory c) 1024 10 M) as [E1 P1];
    [reflexivity | discriminate |].
  destruct (min_div_error (bandwidth c) 10 10 B) as [E2 P2];
    [reflexivity | discriminate |].
  destruct (min_div_error l 10 20 L) as [E3 P3]; [reflexivity | discriminate |].
  unfold scoreInBinary64, scoreBeforeRounding.
  set (t1 := JS.Math_min (JS.div (maxMemory c) 1024) 10) in *.
  set (t2 := JS.Math_min (JS.div (bandwidth c) 10) 10) in *.
  set (t3 := JS.Math_min (JS.div l 10) 20) in *.
  pose proof (baseContribution_range c) as [B0 B90].
  assert (0 <= t1 /\ t1 <= 10) as [T1a T1b].
  { subst t1. rewrite Math_min_Qmin. split; [apply Q.min_glb; lra | apply Q.le_min_r]. }
  assert (0 <= t2 /\ t2 <= 10) as [T2a T2b].
  { subst t2. rewrite Math_min_Qmin. split; [apply Q.min_glb; lra | apply Q.le_min_r]. }
  assert (0 <= t3 /\ t3 <= 20) as [T3a T3b].
  { subst t3. rewrite Math_min_Qmin. split; [apply Q.min_glb; lra | apply Q.le_min_r]. }
  set (s1 := JS.add (baseContribution c) t1).
  assert (Qabs (baseContribution c + t1 - s1) <= JS.pow2 (-46)) as R1.
  { apply round64_error; [lia |]. change (JS.pow2 (-46 + 53)) with 128.
    apply Qabs_le_iff. split; lra. }
  destruct (add_between 0 100 (baseContribution c) t1) as [S1a S1b];
    [cbn; lia | cbn; lia | change (inject_Z 0) with 0; lra
     | change (inject_Z 100) with 100; lra |].
  fold s1 in S1a, S1b.
  change (inject_Z 0) with 0 in S1a. change (inject_Z 100) with 100 in S1b.
  set (s2 := JS.add s1 t2).
  assert (Qabs (s1 + t2 - s2) <= JS.pow2 (-46)) as R2.
  { apply round64_error; [lia |]. change (JS.pow2 (-46 + 53)) with 128.
    apply Qabs_le_iff. split; lra. }
  destruct (add_between 0 110 s1 t2) as [S2a S2b];
    [cbn; lia | cbn; lia | change (inject_Z 0) with 0; lra
     | change (inject_Z 110) with 110; lra |].
  fold s2 in S2a, S2b.
  change (inject_Z 0) with 0 in S2a. change (inject_Z 110) with 110 in S2b.
  assert (Qabs (s2 - t3 - JS.sub s2 t3) <= JS.pow2 (-46)) as R3.
  { apply round64_error; [lia |]. change (JS.pow2 (-46 + 53)) with 128.
    apply Qabs_le_iff. split; lra. }
  apply Qabs_le_iff in E1, E2, E3, R1, R2, R3. apply Qabs_le_iff.
  change (JS.pow2 (-44)) with (1 # 17592186044416).
  change (JS.pow2 (-46)) with (1 # 70368744177664) in *.
  change (JS.pow2 (-48)) with (1 # 281474976710656) in *.
  split; lra.
Qed.

(** C1. The score is [max(0, round(x))], where [x] is the sum
    [B + min(maxMemory/1024, 10) + min(bandwidth/10, 10) - min(latency/10, 20)]
    evaluated in binary64, [B] adding 40 for [hasGPU], 20 for [hasWASM], 20
    for [canRender] and 10 for [canCompute], and [round] taking the nearest
    integer, a tie going up.  For a memory, a bandwidth and a latency that
    are not negative, [x] is within [2^-44] of the sum [S] of the real
    numbers, so the score is [max(0, round(S))] whenever [S] is not that
    close to a tie.  The score is a whole number, never negative, and the
    profile with the four flags set, 10240 MB, 100 Mbps and latency 0 scores
    exactly 110. *)
Theorem calculateDeviceScore_formula :
  (forall (c : PeerCapabilities) (l : Q),
      calculateDeviceScore c l = JS.Math_max 0 (JS.Math_round (scoreInBinary64 c l)) /\
      (0 <= maxMemory c -> 0 <= bandwidth c -> 0 <= l ->
       Qabs (scoreInBinary64 c l - scoreBeforeRounding c l) <= JS.pow2 (-44) /\
       forall z : Z,
         inject_Z z - (1 # 2) + JS.pow2 (-44) <= scoreBeforeRounding c l ->
         scoreBeforeRounding c l < inject_Z z + (1 # 2) - JS.pow2 (-44) ->
         nearest (scoreBeforeRounding c l) z /\
         calculateDeviceScore c l == Qmax 0 (inject_Z z))) /\
  (forall (c : PeerCapabilities) (l : Q),
      exists z : Z, (0 <= z)%Z /\ calculateDeviceScore c l == inject_Z z) /\
  (forall (c : PeerCapabilities) (l : Q), 0 <= calculateDeviceScore c l) /\
  calculateDeviceScore fullProfile 0 = 110.
Proof.
  split; [| split; [| split]].
  - intros c l. split; [apply score_is_rounded_sum |].
    intros M B L. pose proof (scoreInBinary64_error c l M B L) as E.
    split; [exact E |]. intros z Lo Hi.
    pose proof (pow2_pos (-44)) as P.
    split; [unfold nearest; split; lra |].
    rewrite score_is_rounded_sum, Math_max_Qmax.
    apply Qabs_le_iff in E. destruct E as [E1 E2].
    assert (Qfloor (scoreInBinary64 c l + (1 # 2)) = z) as F.
    { apply (nearest_unique (scoreInBinary64 c l)).
      - apply Math_round_nearest.
      - unfold nearest. split; lra. }
    unfold JS.Math_round. rewrite F. reflexivity.
  - intros c l. rewrite score_is_rounded_sum.
    set (r := Qfloor (scoreInBinary64 c l + (1 # 2))).
    unfold JS.Math_round. fold r. unfold JS.Math_max.
    destruct (Qle_bool 0 (inject_Z r)) eqn:E.
    + exists r. split; [| reflexivity].
      apply Qle_bool_iff in E. change 0 with (inject_Z 0) in E.
      rewrite <- Zle_Qle in E. exact E.
    + exists 0%Z. split; [lia | reflexivity].
  - intros c l. rewrite score_is_rounded_sum. apply Math_max_lower.
  - vm_compute. reflexivity.
Qed.

Lemma calculateDeviceScore_formula_witness :
  nearest (scoreBeforeRounding fullProfile 0) 110 /\
  calculateDeviceScore fullProfile 0 == Qmax 0 (inject_Z 110).
Proof.
  destruct calculateDeviceScore_formula as [H _].
  destruct (H fullProfile 0) as [_ K].
  destruct K as [_ K]; [discriminate | discriminate | discriminate |].
  apply K; vm_compute; [discriminate | reflexivity].
Defined.

(** The formula in real numbers fails at a tie: with 7 Mbps and 2 ms the
    sum is exactly 1/2, which rounds to 1, while binary64 computes
    [0.7 - 0.2] below 1/2 and the score is 0. *)
Lemma calculateDeviceScore_formula_fails_at_tie :
  scoreBeforeRounding narrowLink 2 == 1 # 2 /\
  nearest (scoreBeforeRounding narrowLink 2) 1 /\
  scoreInBinary64 narrowLink 2 == 9007199254740991 # 18014398509481984 /\
  calculateDeviceScore narrowLink 2 = 0.
Proof.
  split; [reflexivity |]. split; [split; vm_compute; [discriminate | reflexivity] |].
  split; vm_compute; reflexivity.
Qed.

(** ** Role suggestion *)

Lemma masterRule_test (c : PeerCapabilities) (s : Q) :
  JS.geb s 70 && hasGPU c && canRender c = true <-> masterRule c s.
Proof.
  unfold masterRule. rewrite !andb_true_iff, geb_le. tauto.
Qed.

Lemma computeRule_test (c : PeerCapabilities) (s : Q) :
  JS.geb s 50 && hasWASM c && canCompute c = true <-> computeRule c s.
Proof.
  unfold computeRule. rewrite !andb_true_iff, geb_le. tauto.
Qed.

Lemma storageRule_test (c : PeerCapabilities) (s : Q) :
  JS.geb s 30 && canStore c = true <-> storageRule c s.
Proof.
  unfold storageRule. rewrite !andb_true_iff, geb_le. tauto.
Qed.

Lemma suggestRole_follows_rules (c : PeerCapabilities) (s : Q) :
  roleRule c s (suggestRole c s).
Proof.
  unfold suggestRole.
  destruct (JS.geb s 70 && hasGPU c && canRender c) eqn:E1.
  { apply first_master, masterRule_test, E1. }
  assert (~ masterRule c s) as N1
    by (rewrite <- masterRule_test, E1; discriminate).
  destruct (JS.geb s 50 && hasWASM c && canCompute c) eqn:E2.
  { apply then_compute; [exact N1 | apply computeRule_test, E2]. }
  assert (~ computeRule c s) as N2
    by (rewrite <- computeRule_test, E2; discriminate).
  destruct (JS.geb s 30 && canStore c) eqn:E3.
  { apply then_storage; [exact N1 | exact N2 | apply storageRule_test, E3]. }
  apply else_display; [exact N1 | exact N2 |].
  rewrite <- storageRule_test, E3; discriminate.
Qed.

Lemma roleRule_functional (c : PeerCapabilities) (s : Q) (r1 r2 : DeviceRole) :
  roleRule c s r1 -> roleRule c s r2 -> r1 = r2.
Proof.
  intros H1 H2. inversion H1; subst; inversion H2; subst;
    solve [reflexivity | contradiction].
Qed.

(** C2. [suggestRole] applies its rules in order, the first match winning:
    score >= 70 with [hasGPU] and [canRender] gives master; otherwise score
    >= 50 with [hasWASM] and [canCompute] gives compute; otherwise score >=
    30 with [canStore] gives storage; otherwise display.  With [hasGPU] and
    [canRender], score 70 gives master and score 69 does not. *)
Theorem suggestRole_first_match :
  (forall (c : PeerCapabilities) (s : Q) (r : DeviceRole),
      suggestRole c s = r <-> roleRule c s r) /\
  (forall c : PeerCapabilities,
      hasGPU c = true -> canRender c = true ->
      suggestRole c 70 = master /\ suggestRole c 69 <> master).
Proof.
  split.
  - intros c s r. split.
    + intros <-. apply suggestRole_follows_rules.
    + intros H. apply (roleRule_functional c s); [apply suggestRole_follows_rules | exact H].
  - intros c Hg Hr. split.
    + unfold suggestRole. rewrite Hg, Hr. reflexivity.
    + intros H.
      pose proof (suggestRole_follows_rules c 69) as R. rewrite H in R.
      inversion R as [[Hs _] | | |]. revert Hs. apply Qlt_not_le. reflexivity.
Qed.

(** ** Master election *)

Lemma differs_false (s : string) (o : option string) :
  differs s o = false <-> o = Some s.
Proof.
  destruct o as [s' |]; simpl.
  - rewrite negb_false_iff. split.
    + intros H. apply String.eqb_eq in H. congruence.
    + intros [= ->]. apply String.eqb_refl.
  - split; discriminate.
Qed.

(** Running a method: unfold the monad and project the triples. *)
Ltac run_method :=
  unfold bind, get, modify, emit, perform, ret, final, effects, result;
  cbn [fst snd app].

(** [electMaster] never touches the directory. *)
Lemma electMaster_deviceScores (gc : GhostClient) (st : GhostDistributed) :
  deviceScores (final (electMaster gc st)) = deviceScores st.
Proof.
  unfold electMaster. run_method.
  destruct (electBest (deviceScores st)) as [b |]; [| reflexivity].
  destruct (truthy (Some b) && differs b (masterPeerId st)); [| reflexivity].
  destruct (String.eqb b (getPeerId gc)); reflexivity.
Qed.

(** When the guard of [electMaster] fails nothing happens. *)
Lemma electMaster_unchanged (gc : GhostClient) (st : GhostDistributed) :
  truthy (electBest (deviceScores st)) = false \/
  electBest (deviceScores st) = masterPeerId st ->
  electMaster gc st = (tt, st, []).
Proof.
  intros H. unfold electMaster. run_method.
  destruct (electBest (deviceScores st)) as [b |] eqn:E; [| reflexivity].
  destruct H as [H | H].
  - rewrite H. reflexivity.
  - symmetry in H. apply differs_false in H. rewrite H, andb_false_r. reflexivity.
Qed.

(** When the guard holds the winner becomes the elected master. *)
Lemma electMaster_elects (gc : GhostClient) (st : GhostDistributed) (b : string) :
  electBest (deviceScores st) = Some b ->
  truthy (Some b) && differs b (masterPeerId st) = true ->
  masterPeerId (final (electMaster gc st)) = Some b /\
  In (Emit (master_elected b)) (effects (electMaster gc st)).
Proof.
  intros E G. unfold electMaster. run_method.
  rewrite E, G.
  destruct (String.eqb b (getPeerId gc)); cbn; split; auto.
Qed.

(** C3. Election is idempotent: a second run on the state the first run
    left selects the same winner, changes nothing and emits nothing; and
    whenever the winner is the master already elected, the election changes
    nothing and emits neither [master-elected] nor [role-changed]. *)
Theorem electMaster_idempotent :
  forall (gc : GhostClient) (st : GhostDistributed),
    let once := final (electMaster gc st) in
    electBest (deviceScores once) = electBest (deviceScores st) /\
    electMaster gc once = (tt, once, []) /\
    masterPeerId (final (electMaster gc once)) = masterPeerId once /\
    (electBest (deviceScores st) = masterPeerId st ->
     electMaster gc st = (tt, st, [])).
Proof.
  intros gc st once.
  assert (deviceScores once = deviceScores st) as D
    by apply electMaster_deviceScores.
  assert (electMaster gc once = (tt, once, [])) as I.
  { apply electMaster_unchanged. rewrite D.
    destruct (electBest (deviceScores st)) as [b |] eqn:E; [| left; reflexivity].
    destruct (truthy (Some b)) eqn:T; [| left; reflexivity].
    right. destruct (differs b (masterPeerId st)) eqn:F.
    - symmetry. apply (electMaster_elects gc st b E). rewrite T, F. reflexivity.
    - apply differs_false in F. subst once.
      rewrite (electMaster_unchanged gc st) by (right; congruence).
      symmetry. exact F. }
  repeat split.
  - rewrite D. reflexivity.
  - exact I.
  - rewrite I. reflexivity.
  - intros H. apply electMaster_unchanged. right. exact H.
Qed.

(** ** Target selection *)

Lemma findStep_cases (gc : GhostClient) (ty : string)
    (best : option DeviceScore * Q) (d : DeviceScore) :
  (findStep gc ty best d = best /\
   (remote gc d -> suitabilityFor ty d <= snd best)) \/
  (findStep gc ty best d = (Some d, suitabilityFor ty d) /\
   remote gc d /\ snd best < suitabilityFor ty d).
Proof.
  unfold findStep, remote.
  destruct (String.eqb_spec (peerId d) (getPeerId gc)) as [E | N].
  - left. split; [reflexivity | intros H; contradiction].
  - destruct (JS.gtb (suitabilityFor ty d) (snd best)) eqn:G.
    + right. apply gtb_lt in G. auto.
    + left. apply gtb_le in G. auto.
Qed.

(** The loop of [findBestDeviceForTask], from any accumulator: either no
    remote record beats the accumulator, or the result is the first remote
    record of greatest suitability, and it beats the accumulator. *)
Lemma findStep_fold (gc : GhostClient) (ty : string) (l : list DeviceScore) :
  forall best : option DeviceScore * Q,
    (fold_left (findStep gc ty) l best = best /\
     forall d, In d l -> remote gc d -> suitabilityFor ty d <= snd best) \/
    (exists d l1 l2,
        l = l1 ++ d :: l2 /\
        fold_left (findStep gc ty) l best = (Some d, suitabilityFor ty d) /\
        remote gc d /\ snd best < suitabilityFor ty d /\
        (forall d', In d' l1 -> remote gc d' -> suitabilityFor ty d' < suitabilityFor ty d) /\
        (forall d', In d' l2 -> remote gc d' -> suitabilityFor ty d' <= suitabilityFor ty d)).
Proof.
  induction l as [| x l IH]; intros best.
  - left. split; [reflexivity | intros d []].
  - cbn [fold_left].
    destruct (findStep_cases gc ty best x) as [[E Hx] | (E & Rx & Hx)]; rewrite E.
    + destruct (IH best) as [[F Hl] | (d & l1 & l2 & -> & F & Rd & Hd & H1 & H2)].
      * left. split; [exact F |].
        intros d [<- | Hin] R; auto.
      * right. exists d, (x :: l1), l2. repeat split; auto.
        intros d' [<- | Hin] R; [| auto].
        specialize (Hx R). lra.
    + destruct (IH (Some x, suitabilityFor ty x))
        as [[F Hl] | (d & l1 & l2 & -> & F & Rd & Hd & H1 & H2)];
        cbn [snd] in *.
      * right. exists x, [], l. repeat split; auto.
        intros d' [].
      * right. exists d, (x :: l1), l2. repeat split; auto.
        -- lra.
        -- intros d' [<- | Hin] R; [exact Hd | auto].
Qed.

(** What [findBestDeviceForTask] guarantees: a returned record is remote,
    has suitability above -1 and is the first record of greatest suitability
    among the remote ones; nothing is returned exactly when no remote record
    has suitability above -1.  The directory is only read. *)
Theorem findBestDeviceForTask_selection :
  forall (gc : GhostClient) (ty : string) (st : GhostDistributed),
    final (findBestDeviceForTask gc ty st) = st /\
    effects (findBestDeviceForTask gc ty st) = [] /\
    (forall d,
        result (findBestDeviceForTask gc ty st) = Some d ->
        exists l1 l2,
          JSMap.values (deviceScores st) = l1 ++ d :: l2 /\
          remote gc d /\ -1 < suitabilityFor ty d /\
          (forall d', In d' l1 -> remote gc d' ->
                      suitabilityFor ty d' < suitabilityFor ty d) /\
          (forall d', In d' l2 -> remote gc d' ->
                      suitabilityFor ty d' <= suitabilityFor ty d)) /\
    (result (findBestDeviceForTask gc ty st) = None <->
     forall d, In d (JSMap.values (deviceScores st)) -> remote gc d ->
               suitabilityFor ty d <= -1).
Proof.
  intros gc ty st. unfold findBestDeviceForTask. run_method.
  split; [reflexivity | split; [reflexivity |]].
  destruct (findStep_fold gc ty (JSMap.values (deviceScores st)) (None, -1))
    as [[F Hl] | (d & l1 & l2 & E & F & Rd & Hd & H1 & H2)];
    rewrite F; cbn [fst snd] in *.
  - split; [discriminate |]. split; auto.
  - split.
    + intros d0 [= <-]. exists l1, l2. auto.
    + split; [discriminate |].
      intros H. exfalso.
      assert (suitabilityFor ty d <= -1) as A.
      { apply H; [| exact Rd]. rewrite E. apply in_elt. }
      lra.
Qed.

(** Two remote peers whose suitabilities would tie at -1/5 in exact
    arithmetic, the nearer one first in the directory: in binary64 the
    farther one has the greater suitability, and it is selected. *)
Lemma findBestDeviceForTask_selection_witness :
  final (findBestDeviceForTask localClient "audio" tiedPeers) = tiedPeers /\
  option_map peerId (result (findBestDeviceForTask localClient "audio" tiedPeers))
  = Some "far"%string /\
  exists near far,
    JSMap.values (deviceScores tiedPeers) = [localRecord localClient; near; far] /\
    score near - latency near / 5 == score far - latency far / 5 /\
    suitabilityFor "audio" near < suitabilityFor "audio" far.
Proof.
  split; [exact (proj1 (findBestDeviceForTask_selection localClient "audio" tiedPeers)) |].
  split; [vm_compute; reflexivity |].
  eexists. eexists. split; [vm_compute; reflexivity |].
  split; vm_compute; reflexivity.
Defined.

(** The example of two remote peers at one latency [l]: the record with
    [hasGPU && canRender] and score 50 has suitability [80 - l/5], the
    other one, of score 60, has [60 - l/5], both in binary64; the first is
    selected for a render task at every latency up to 400 ms. *)
Lemma render_prefers_gpu_peer (gc : GhostClient) (l : Q) :
  getPeerId gc <> "gpu"%string -> getPeerId gc <> "plain"%string ->
  l <= 400 ->
  result (findBestDeviceForTask gc "render" (twoPeers l)) = Some (gpuRecord l).
Proof.
  intros Ng Np Hl. unfold findBestDeviceForTask. run_method.
  cbn [twoPeers set_isRunning set_deviceScores deviceScores JSMap.values map snd fold_left].
  unfold findStep at 2. cbn [peerId gpuRecord].
  destruct (String.eqb_spec "gpu" (getPeerId gc)) as [E | _]; [congruence |].
  assert (JS.div l 5 <= 80) as Q80.
  { change 80 with (inject_Z 80). rewrite <- (round64_Z 80) by (cbn; lia).
    apply round64_monotone. change (inject_Z 80) with 80.
    apply Qle_shift_div_r; [reflexivity | lra]. }
  assert (suitabilityFor "render" (gpuRecord l) = JS.sub 80 (JS.div l 5)) as Sg.
  { unfold suitabilityFor.
    cbn [gpuRecord score capabilities latency hasGPU canRender andb String.eqb
         Ascii.eqb Bool.eqb].
    cbv iota. reflexivity. }
  assert (suitabilityFor "render" (plainRecord l) = JS.sub 60 (JS.div l 5)) as Sp.
  { unfold suitabilityFor.
    cbn [plainRecord score capabilities latency hasGPU canRender andb String.eqb
         Ascii.eqb Bool.eqb].
    cbv iota. reflexivity. }
  assert (0 <= JS.sub 80 (JS.div l 5)) as G0.
  { change 0 with (inject_Z 0). rewrite <- (round64_Z 0) by (cbn; lia).
    apply round64_monotone. change (inject_Z 0) with 0. lra. }
  cbn [snd].
  destruct (JS.gtb (suitabilityFor "render" (gpuRecord l)) (-1)) eqn:G.
  2:{ apply gtb_le in G. rewrite Sg in G. lra. }
  unfold findStep. cbn [peerId plainRecord snd].
  destruct (String.eqb_spec "plain" (getPeerId gc)) as [E | _]; [congruence |].
  fold (plainRecord l).
  destruct (JS.gtb (suitabilityFor "render" (plainRecord l))
              (suitabilityFor "render" (gpuRecord l))) eqn:G2.
  { apply gtb_lt in G2. rewrite Sg, Sp in G2.
    assert (JS.sub 60 (JS.div l 5) <= JS.sub 80 (JS.div l 5)) as M
      by (apply sub_monotone; [discriminate | apply Qle_refl]).
    lra. }
  reflexivity.
Qed.

(** C4 (the code departs from the claim).  A remote record whose
    suitability is -1 or less is never selected, because the running
    maximum starts at -1: with the only remote peer at suitability -10
    nothing is selected and the task fails; with the two peers of the
    example at a latency of one second, suitabilities -120 and -140,
    nothing is selected either. *)
Theorem findBestDeviceForTask_ignores_low_suitability :
  (JSMap.keys (deviceScores weakPeerEngine) = ["local"; "weak"]%string /\
   (exists d, JSMap.get (deviceScores weakPeerEngine) "weak" = Some d /\
              remote localClient d /\ suitabilityFor "render" d == -(10)) /\
   result (findBestDeviceForTask localClient "render" weakPeerEngine) = None /\
   result (distributeTask localClient renderTask weakPeerEngine) = false) /\
  (JSMap.keys (deviceScores slowPeersEngine) = ["local"; "gpu"; "plain"]%string /\
   (exists d, JSMap.get (deviceScores slowPeersEngine) "gpu" = Some d /\
              hasGPU (capabilities d) && canRender (capabilities d) = true /\
              score d == 50 /\ latency d == 1000 /\
              suitabilityFor "render" d == -(120)) /\
   (exists d, JSMap.get (deviceScores slowPeersEngine) "plain" = Some d /\
              hasGPU (capabilities d) && canRender (capabilities d) = false /\
              score d == 60 /\ latency d == 1000 /\
              suitabilityFor "render" d == -(140)) /\
   result (findBestDeviceForTask localClient "render" slowPeersEngine) = None).
Proof.
  split.
  - split; [vm_compute; reflexivity |].
    split; [| split; vm_compute; reflexivity].
    eexists. split; [cbv; reflexivity |].
    split; [discriminate | reflexivity].
  - split; [vm_compute; reflexivity |].
    split; [| split; [| vm_compute; reflexivity]].
    + eexists. split; [cbv; reflexivity |]. repeat split; reflexivity.
    + eexists. split; [cbv; reflexivity |]. repeat split; reflexivity.
Qed.

(** ** JavaScript maps *)

Lemma get_set_same {V : Type} (m : JSMap.t V) (k : string) (v : V) :
  JSMap.get (JSMap.set m k v) k = Some v.
Proof.
  induction m as [| [k' v'] m IH]; cbn.
  - rewrite String.eqb_refl. reflexivity.
  - destruct (String.eqb k' k) eqn:E; cbn; rewrite E; [reflexivity | exact IH].
Qed.

Lemma get_set_other {V : Type} (m : JSMap.t V) (k k0 : string) (v : V) :
  k0 <> k -> JSMap.get (JSMap.set m k v) k0 = JSMap.get m k0.
Proof.
  intros N. induction m as [| [k' v'] m IH]; cbn.
  - destruct (String.eqb_spec k k0); [congruence | reflexivity].
  - destruct (String.eqb_spec k' k) as [-> | N']; cbn.
    + destruct (String.eqb_spec k k0); [congruence | reflexivity].
    + destruct (String.eqb k' k0); [reflexivity | exact IH].
Qed.

Lemma has_get {V : Type} (m : JSMap.t V) (k : string) :
  JSMap.has m k = true <-> exists v, JSMap.get m k = Some v.
Proof.
  unfold JSMap.has. destruct (JSMap.get m k) as [v |].
  - split; [eauto | reflexivity].
  - split; [discriminate | intros [v [=]]].
Qed.

Lemma has_false_get {V : Type} (m : JSMap.t V) (k : string) :
  JSMap.has m k = false <-> JSMap.get m k = None.
Proof.
  unfold JSMap.has. destruct (JSMap.get m k) as [v |]; split; congruence.
Qed.

(** ** Latency updates *)

Lemma set_set {V : Type} (m : JSMap.t V) (k : string) (v v' : V) :
  JSMap.set (JSMap.set m k v) k v' = JSMap.set m k v'.
Proof.
  induction m as [| [k0 v0] m IH]; cbn.
  - rewrite String.eqb_refl. reflexivity.
  - destruct (String.eqb k0 k) eqn:E; cbn; rewrite E; [reflexivity |].
    rewrite IH. reflexivity.
Qed.

(** The whole effect of a [latency-pong] from [from]. *)
Lemma latency_pong_run (gc : GhostClient) (st : GhostDistributed)
    (from sender : string) (ots now : Q) :
  let l := now - ots in
  let tests :=
    JSMap.set (latencyTests st) from
      (match JSMap.get (latencyTests st) from with
       | Some samples => samples ++ [l]
       | None => [l]
       end) in
  let scores :=
    match JSMap.get (deviceScores st) from with
    | Some d =>
        JSMap.set (deviceScores st) from
          (set_latency_score l (calculateDeviceScore (capabilities d) l) d)
    | None => deviceScores st
    end in
  handlePeerMessage gc from (latency_pong ots sender) now st
  = (tt,
     set_metrics (set_avgLatency (averageOf tests) (metrics st))
       (set_deviceScores scores (set_latencyTests tests st)),
     [Emit (latency_measured from l)]).
Proof.
  intros l tests scores. subst tests scores.
  unfold handlePeerMessage, updateAverageLatency. run_method.
  unfold JSMap.has.
  destruct (JSMap.get (latencyTests st) from) as [h |] eqn:H; cbn [negb fst snd].
  - cbn [set_latencyTests latencyTests deviceScores]. rewrite H.
    destruct (JSMap.get (deviceScores st) from) as [d |]; reflexivity.
  - cbn [set_latencyTests latencyTests deviceScores].
    rewrite get_set_same, set_set. cbn [app].
    destruct (JSMap.get (deviceScores st) from) as [d |]; reflexivity.
Qed.



(** For a known peer the handler neither recomputes the suggested role nor
    runs the election: ["c"] keeps the role [master] at a score of 60, and
    ["a"] stays the elected master at a score of 90 although ["b"] has 105. *)
Example latency_update_keeps_role_and_master :
  masterPeerId threePeersEngine = Some "a"%string /\
  (let st := final (handlePeerMessage thinClient "c" (latency_pong 0 "c") 2000
                      threePeersEngine) in
   option_map (fun d => (score d, suggestedRole d)) (JSMap.get (deviceScores st) "c")
     = Some (60, master) /\
   suggestRole renderOnlyCapabilities 60 = display) /\
  (let st := final (handlePeerMessage thinClient "a" (latency_pong 0 "a") 2000
                      threePeersEngine) in
   option_map score (JSMap.get (deviceScores st) "a") = Some 90 /\
   option_map score (JSMap.get (deviceScores st) "b") = Some 105 /\
   masterPeerId st = Some "a"%string /\
   electBest (deviceScores st) = Some "b"%string /\
   ~ latencyUpdateAsSpecified thinClient threePeersEngine "a" 0 2000).
Proof.
  split; [vm_compute; reflexivity |]. cbv zeta.
  split; [split; vm_compute; reflexivity |].
  split; [vm_compute; reflexivity |].
  split; [vm_compute; reflexivity |].
  split; [vm_compute; reflexivity |].
  split; [vm_compute; reflexivity |].
  unfold latencyUpdateAsSpecified. intros H. vm_compute in H.
  destruct H as (_ & _ & H). discriminate H.
Qed.

(** ** Task distribution *)

(** C6 (as amended).  On an engine that is not running [distributeTask]
    returns failure and does nothing else: no counter moves, no target is
    looked for, nothing is sent and no pending entry is made. *)
Theorem distributeTask_not_running :
  forall (gc : GhostClient) (st : GhostDistributed) (task : DistributedTask.t),
    isRunning st = false ->
    distributeTask gc task st = (false, st, []).
Proof.
  intros gc st task H. unfold distributeTask. run_method.
  rewrite H. reflexivity.
Qed.

Lemma distributeTask_not_running_witness :
  distributeTask localClient renderTask new_GhostDistributed
  = (false, new_GhostDistributed, []).
Proof.
  apply distributeTask_not_running. reflexivity.
Defined.

(** C6 fails as stated: the rejection on a stopped engine leaves the
    failed-task counter where it was. *)
Lemma distributeTask_not_running_counts_nothing :
  isRunning new_GhostDistributed = false /\
  failedTasks (metrics (final (distributeTask localClient renderTask new_GhostDistributed)))
    = failedTasks (metrics new_GhostDistributed) /\
  ~ rejectionAsSpecified localClient new_GhostDistributed renderTask.
Proof.
  split; [reflexivity |]. split; [vm_compute; reflexivity |].
  unfold rejectionAsSpecified. intros H. vm_compute in H.
  destruct H as (_ & H & _). discriminate H.
Qed.

Lemma onlyLocal_no_target (gc : GhostClient) (ty : string) (l : list DeviceScore)
    (best : option DeviceScore * Q) :
  forallb (fun d => String.eqb (peerId d) (getPeerId gc)) l = true ->
  fold_left (findStep gc ty) l best = best.
Proof.
  revert best. induction l as [| d l IH]; intros best H; [reflexivity |].
  cbn in H. apply andb_true_iff in H as [Hd Hl].
  cbn [fold_left]. unfold findStep at 2. rewrite Hd. apply IH, Hl.
Qed.

(** C7. On a running engine whose directory holds no record but the local
    node's, [distributeTask] returns failure and adds one to [failedTasks];
    the task is not made pending and nothing is sent.  The method is a total
    function: there is no exceptional outcome. *)
Theorem distributeTask_no_eligible_peer :
  forall (gc : GhostClient) (st : GhostDistributed) (task : DistributedTask.t),
    isRunning st = true ->
    onlyLocal gc st = true ->
    distributeTask gc task st
    = (false,
       set_metrics (set_failedTasks (failedTasks (metrics st) + 1)%Z (metrics st)) st,
       []).
Proof.
  intros gc st task R L. unfold distributeTask, findBestDeviceForTask. run_method.
  rewrite R. cbn [negb fst snd app].
  rewrite (onlyLocal_no_target gc _ _ _ L). reflexivity.
Qed.

Lemma distributeTask_no_eligible_peer_witness :
  result (distributeTask localClient renderTask selfOnlyEngine) = false /\
  failedTasks (metrics (final (distributeTask localClient renderTask selfOnlyEngine))) = 1%Z /\
  pendingTasks (final (distributeTask localClient renderTask selfOnlyEngine)) = [] /\
  effects (distributeTask localClient renderTask selfOnlyEngine) = [].
Proof.
  rewrite (distributeTask_no_eligible_peer localClient selfOnlyEngine renderTask);
    [| vm_compute; reflexivity | vm_compute; reflexivity].
  repeat split; vm_compute; reflexivity.
Defined.

Lemma get_absent {V : Type} (m : JSMap.t V) (k : string) :
  ~ In k (JSMap.keys m) -> JSMap.get m k = None.
Proof.
  induction m as [| [k' v] m IH]; cbn; intros N; [reflexivity |].
  destruct (String.eqb_spec k' k) as [-> | _]; [tauto |].
  apply IH. tauto.
Qed.

Lemma get_delete_same {V : Type} (m : JSMap.t V) (k : string) :
  JSMap.wf m -> JSMap.get (JSMap.delete m k) k = None.
Proof.
  unfold JSMap.wf. induction m as [| [k' v] m IH]; cbn; intros W; [reflexivity |].
  inversion W as [| ? ? Hk Hm]; subst.
  destruct (String.eqb_spec k' k) as [-> | N].
  - apply get_absent, Hk.
  - cbn. destruct (String.eqb_spec k' k); [contradiction | auto].
Qed.

(** The whole effect of a [task-result] message. *)
Lemma task_result_run (gc : GhostClient) (st : GhostDistributed)
    (from taskId : string) (res : TaskOutcome) (now : Q) :
  handlePeerMessage gc from (task_result taskId res) now st
  = match JSMap.get (pendingTasks st) taskId with
    | Some _ =>
        (tt,
         set_completedTasks
           (JSMap.set (completedTasks st) taskId
              {| completed_result := res; completed_from := from; completedAt := now |})
           (set_pendingTasks (JSMap.delete (pendingTasks st) taskId) st),
         [Emit (task_completed taskId res from)])
    | None => (tt, st, [])
    end.
Proof.
  unfold handlePeerMessage, handleTaskResult. run_method.
  destruct (JSMap.get (pendingTasks st) taskId); reflexivity.
Qed.

(** C8. A [task-result] whose task id is not pending changes nothing,
    emits nothing and fails in no way; a result for a pending task removes it
    from the pending set, records it as completed and emits one
    [task-completed], without touching the metrics; hence a second result
    for the same task id is ignored. *)
Theorem handleTaskResult_ignores_unknown :
  forall (gc : GhostClient) (st : GhostDistributed) (from taskId : string)
         (res : TaskOutcome) (now : Q),
    let r := handlePeerMessage gc from (task_result taskId res) now st in
    (JSMap.get (pendingTasks st) taskId = None -> r = (tt, st, [])) /\
    (forall task,
        JSMap.get (pendingTasks st) taskId = Some task ->
        pendingTasks (final r) = JSMap.delete (pendingTasks st) taskId /\
        JSMap.get (completedTasks (final r)) taskId
          = Some {| completed_result := res; completed_from := from; completedAt := now |} /\
        effects r = [Emit (task_completed taskId res from)]) /\
    metrics (final r) = metrics st /\
    (JSMap.wf (pendingTasks st) ->
     forall (from' : string) (res' : TaskOutcome) (now' : Q),
       handlePeerMessage gc from' (task_result taskId res') now' (final r)
       = (tt, final r, [])).
Proof.
  intros gc st from taskId res now r. subst r.
  rewrite task_result_run.
  destruct (JSMap.get (pendingTasks st) taskId) as [task |] eqn:P;
    unfold final, effects; cbn [fst snd].
  - split; [discriminate |]. split; [| split].
    + intros task' _. split; [reflexivity |]. split; [apply get_set_same | reflexivity].
    + reflexivity.
    + intros W from' res' now'. rewrite task_result_run.
      cbn [set_completedTasks set_pendingTasks pendingTasks].
      rewrite get_delete_same by exact W. reflexivity.
  - split; [reflexivity |]. split; [discriminate |]. split; [reflexivity |].
    intros _ from' res' now'. rewrite task_result_run, P. reflexivity.
Qed.

Lemma handleTaskResult_ignores_unknown_witness :
  JSMap.keys (pendingTasks dispatchedEngine) = ["t1"%string] /\
  (let once := final (handlePeerMessage localClient "helper" (task_result "t1" done) 5
                        dispatchedEngine) in
   pendingTasks once = [] /\
   handlePeerMessage localClient "helper" (task_result "t1" done) 6 once = (tt, once, [])).
Proof.
  split; [vm_compute; reflexivity |]. cbv zeta.
  pose proof (handleTaskResult_ignores_unknown localClient dispatchedEngine
                "helper" "t1" done 5) as (_ & H & _ & D).
  assert (JSMap.get (pendingTasks dispatchedEngine) "t1" = Some renderTask) as P
    by (vm_compute; reflexivity).
  split.
  - rewrite (proj1 (H renderTask P)). vm_compute. reflexivity.
  - apply D. replace (pendingTasks dispatchedEngine) with [("t1"%string, renderTask)]
      by (vm_compute; reflexivity).
    repeat constructor. intros [].
Defined.

(** ** Frame rules: a relation between the state before and after *)

Section Frame.

Variable R : GhostDistributed -> GhostDistributed -> Prop.
Hypothesis R_refl : forall st, R st st.
Hypothesis R_trans : forall a b c, R a b -> R b c -> R a c.

Lemma frame_bind {A B : Type} (m : M A) (k : A -> M B) (st : GhostDistributed) :
  R st (final (m st)) ->
  (forall a st', R st' (final (k a st'))) ->
  R st (final (bind m k st)).
Proof.
  intros Hm Hk. apply R_trans with (final (m st)); [exact Hm |].
  apply (Hk (result (m st)) (final (m st))).
Qed.

Lemma frame_forEach {A : Type} (l : list A) (body : A -> M unit) :
  (forall x st, R st (final (body x st))) ->
  forall st, R st (final (forEach l body st)).
Proof.
  intros Hb. induction l as [| x l IH]; intros st.
  - apply R_refl.
  - cbn [forEach]. apply frame_bind; [apply Hb | intros _ st'; apply IH].
Qed.

Lemma frame_runAll (gc : GhostClient) :
  (forall i st, R st (final (react gc i st))) ->
  forall inputs st, R st (runAll gc inputs st).
Proof.
  intros Hr. induction inputs as [| i inputs IH]; intros st.
  - apply R_refl.
  - cbn. apply R_trans with (final (react gc i st)); [apply Hr | apply IH].
Qed.

End Frame.

(** Walk through a method built from [bind], [get], [modify], [perform],
    [forEach] and case distinctions; [leaf] settles the assignments. *)
Ltac frame refl trans leaf :=
  cbv zeta;
  lazymatch goal with
  | |- ?R ?st (final (bind get ?k ?st)) =>
      change (R st (final (k st st))); cbv beta; frame refl trans leaf
  | |- _ _ (final (bind _ _ _)) =>
      apply (frame_bind _ trans);
      [ frame refl trans leaf | intros ? ?; frame refl trans leaf ]
  | |- _ _ (final (forEach _ _ _)) =>
      apply (frame_forEach _ refl trans); intros ? ?; frame refl trans leaf
  | |- _ _ (final (ret _ _)) => apply refl
  | |- _ _ (final (get _)) => apply refl
  | |- _ _ (final (perform _ _)) => apply refl
  | |- _ _ (final (emit _ _)) => apply refl
  | |- ?R ?st (final (modify ?f ?st)) =>
      change (R st (f st)); cbv beta; leaf
  | |- _ _ (final ((if ?b then _ else _) _)) =>
      destruct b eqn:?; frame refl trans leaf
  | |- _ _ (final (match ?x with _ => _ end _)) =>
      destruct x eqn:?; frame refl trans leaf
  | |- _ => try solve [leaf]
  end.

Lemma SameLatency_refl (st : GhostDistributed) : SameLatency st st.
Proof. split; reflexivity. Qed.

Lemma SameLatency_trans (a b c : GhostDistributed) :
  SameLatency a b -> SameLatency b c -> SameLatency a c.
Proof. unfold SameLatency. intros [H1 H2] [H3 H4]. split; congruence. Qed.

Lemma electMaster_SameLatency (gc : GhostClient) (st : GhostDistributed) :
  SameLatency st (final (electMaster gc st)).
Proof.
  unfold electMaster.
  frame SameLatency_refl SameLatency_trans ltac:(split; reflexivity).
Qed.

(** Unfold every method down to the monad, [electMaster] and the
    [latency-pong] case apart. *)
Ltac unfold_methods :=
  unfold react, wifiDiscovered, initialize, updateDeviceScores, measureLatency,
    distributeTask, findBestDeviceForTask, requestRender, start, stop,
    handleTaskAssignment, handleTaskResult, processRenderRequest.

Ltac unfold_message :=
  unfold handlePeerMessage, handleTaskAssignment, handleTaskResult,
    processRenderRequest.




(** ** The average-latency metric *)



(** ** Sequences of latency samples *)








Lemma runAll_app (gc : GhostClient) (l1 l2 : list Input) (st : GhostDistributed) :
  runAll gc (l1 ++ l2) st = runAll gc l2 (runAll gc l1 st).
Proof. unfold runAll. apply fold_left_app. Qed.










(** ** The directory only grows *)

Lemma has_set {V : Type} (m : JSMap.t V) (k k0 : string) (v : V) :
  JSMap.has m k0 = true -> JSMap.has (JSMap.set m k v) k0 = true.
Proof.
  unfold JSMap.has. destruct (String.eqb_spec k0 k) as [-> | N].
  - rewrite get_set_same. reflexivity.
  - rewrite get_set_other by exact N. auto.
Qed.

Lemma keys_set {V : Type} (m : JSMap.t V) (k : string) (v : V) :
  JSMap.keys (JSMap.set m k v)
  = if JSMap.has m k then JSMap.keys m else JSMap.keys m ++ [k].
Proof.
  unfold JSMap.has, JSMap.keys.
  induction m as [| [k' v'] m IH]; cbn; [reflexivity |].
  destruct (String.eqb_spec k' k) as [-> | N]; cbn; [reflexivity |].
  rewrite IH. destruct (JSMap.get m k); reflexivity.
Qed.

Lemma size_set {V : Type} (m : JSMap.t V) (k : string) (v : V) :
  (JSMap.size m <= JSMap.size (JSMap.set m k v))%Z.
Proof.
  unfold JSMap.size.
  rewrite <- (length_map fst m), <- (length_map fst (JSMap.set m k v)).
  pose proof (keys_set m k v) as E. unfold JSMap.keys in E. rewrite E.
  destruct (JSMap.has m k); [lia |].
  rewrite length_app. cbn [length]. lia.
Qed.

Lemma Grows_refl (st : GhostDistributed) : Grows st st.
Proof. unfold Grows. repeat split; auto; lia. Qed.

Lemma Grows_trans (a b c : GhostDistributed) : Grows a b -> Grows b c -> Grows a c.
Proof.
  unfold Grows. intros (H1 & S1 & T1) (H2 & S2 & T2).
  split; [auto |]. split; [lia |].
  intros T. destruct (T1 T) as [A B]. destruct (T2 B) as [C D]. lia.
Qed.

Lemma Grows_same (st st' : GhostDistributed) :
  deviceScores st' = deviceScores st ->
  totalDevices (metrics st') = totalDevices (metrics st) ->
  Grows st st'.
Proof.
  intros D T. unfold Grows. rewrite D, T. repeat split; auto; lia.
Qed.

Lemma Grows_set (st : GhostDistributed) (k : string) (v : DeviceScore) :
  Grows st (set_deviceScores (JSMap.set (deviceScores st) k v) st).
Proof.
  unfold Grows. cbn [set_deviceScores deviceScores metrics].
  pose proof (size_set (deviceScores st) k v).
  split; [intros k0; apply has_set |]. split; [assumption | lia].
Qed.

Lemma Grows_total (st : GhostDistributed) :
  Grows st
    (set_metrics (set_totalDevices (JSMap.size (deviceScores st)) (metrics st)) st).
Proof.
  unfold Grows. cbn [set_metrics set_totalDevices deviceScores metrics totalDevices].
  repeat split; auto; lia.
Qed.

Ltac grows_leaf :=
  first [ apply Grows_set | apply Grows_total | apply Grows_same; reflexivity ].

Lemma electMaster_Grows (gc : GhostClient) (st : GhostDistributed) :
  Grows st (final (electMaster gc st)).
Proof.
  unfold electMaster. frame Grows_refl Grows_trans grows_leaf.
Qed.

Lemma react_Grows (gc : GhostClient) (i : Input) (st : GhostDistributed) :
  Grows st (final (react gc i st)).
Proof.
  destruct i as [l | l | from data now | p now | | task | f now | |];
    try destruct data as [ts s | ots s | task | taskId res | frame | f ts | ty].
  4:{ cbn [react]. rewrite latency_pong_run. unfold final. cbn [fst snd].
      destruct (JSMap.get (deviceScores st) from) as [d |].
      - apply Grows_trans with
          (set_deviceScores
             (JSMap.set (deviceScores st) from
                (set_latency_score (now - ots)
                   (calculateDeviceScore (capabilities d) (now - ots)) d)) st).
        + apply Grows_set.
        + apply Grows_same; reflexivity.
      - apply Grows_same; reflexivity. }
  all: unfold_methods; unfold_message;
    frame Grows_refl Grows_trans ltac:(first [ apply electMaster_Grows | grows_leaf ]).
Qed.

Lemma KeepsRecords_refl (st : GhostDistributed) : KeepsRecords st st.
Proof. intros k d H. exact H. Qed.

Lemma KeepsRecords_trans (a b c : GhostDistributed) :
  KeepsRecords a b -> KeepsRecords b c -> KeepsRecords a c.
Proof. intros H1 H2 k d H. apply H2, H1, H. Qed.

Lemma KeepsRecords_insert (st : GhostDistributed) (k : string) (v : DeviceScore) :
  negb (JSMap.has (deviceScores st) k) = true ->
  KeepsRecords st (set_deviceScores (JSMap.set (deviceScores st) k v) st).
Proof.
  intros H k0 d G. cbn [set_deviceScores deviceScores].
  apply negb_true_iff, has_false_get in H.
  rewrite get_set_other; [exact G | congruence].
Qed.

(** A peer-list update inserts records for new peers and leaves the
    records it finds as they are. *)
Lemma updateDeviceScores_KeepsRecords (gc : GhostClient) (peers : list GhostPeer.t)
    (st : GhostDistributed) :
  KeepsRecords st (final (updateDeviceScores gc peers st)).
Proof.
  unfold updateDeviceScores.
  frame KeepsRecords_refl KeepsRecords_trans
    ltac:(first [ apply KeepsRecords_insert; assumption
                | unfold KeepsRecords; rewrite electMaster_deviceScores; auto
                | intros ? ? ?; assumption ]).
Qed.

(** C10. Nothing removes a record from the directory: over any sequence
    of inputs the peer ids of the directory are kept and its size does not
    fall, and from a fresh engine [totalDevices] never decreases.  A
    peer-list update leaves the records it finds untouched, a latency update
    rewrites a record in place, and [stop] clears the pending tasks and the
    running flag only. *)
Theorem directory_never_shrinks :
  (forall (gc : GhostClient) (inputs : list Input) (st : GhostDistributed),
      let st' := runAll gc inputs st in
      (forall k, JSMap.has (deviceScores st) k = true ->
                 JSMap.has (deviceScores st') k = true) /\
      (JSMap.size (deviceScores st) <= JSMap.size (deviceScores st'))%Z) /\
  (forall (gc : GhostClient) (before after : list Input),
      let st := runAll gc before new_GhostDistributed in
      let st' := runAll gc after st in
      (totalDevices (metrics st) <= totalDevices (metrics st'))%Z) /\
  (forall (gc : GhostClient) (peers : list GhostPeer.t) (st : GhostDistributed)
          (k : string) (d : DeviceScore),
      JSMap.get (deviceScores st) k = Some d ->
      JSMap.get (deviceScores (final (updateDeviceScores gc peers st))) k = Some d) /\
  (forall (gc : GhostClient) (from sender : string) (ots now : Q) (st : GhostDistributed),
      JSMap.keys
        (deviceScores (final (handlePeerMessage gc from (latency_pong ots sender) now st)))
      = JSMap.keys (deviceScores st)) /\
  (forall st : GhostDistributed,
      final (stop st) = set_pendingTasks [] (set_isRunning false st)).
Proof.
  split; [| split; [| split; [| split]]].
  - intros gc inputs st st'. subst st'.
    destruct (frame_runAll Grows Grows_refl Grows_trans gc (react_Grows gc) inputs st)
      as (H & S & _).
    split; assumption.
  - intros gc before after st st'.
    pose proof (frame_runAll Grows Grows_refl Grows_trans gc (react_Grows gc)) as G.
    destruct (G before new_GhostDistributed) as (_ & _ & T0).
    destruct (G after st) as (_ & _ & T1). fold st' in T1.
    fold st in T0. cbn in T0.
    destruct T0 as [_ B]; [lia |].
    apply T1, B.
  - intros gc peers st k d H. apply updateDeviceScores_KeepsRecords, H.
  - intros gc from sender ots now st. rewrite latency_pong_run.
    unfold final. cbn [fst snd set_metrics set_deviceScores deviceScores].
    destruct (JSMap.get (deviceScores st) from) as [d |] eqn:E; [| reflexivity].
    rewrite keys_set. unfold JSMap.has. rewrite E. reflexivity.
  - reflexivity.
Qed.

(** ** Maps stay well formed *)

Lemma get_present {V : Type} (m : JSMap.t V) (k : string) :
  In k (JSMap.keys m) -> exists v, JSMap.get m k = Some v.
Proof.
  unfold JSMap.keys. induction m as [| [k' v'] m IH]; cbn; [tauto |].
  intros [-> | Hin].
  - rewrite String.eqb_refl. eauto.
  - destruct (String.eqb k' k); eauto.
Qed.

Lemma wf_set {V : Type} (m : JSMap.t V) (k : string) (v : V) :
  JSMap.wf m -> JSMap.wf (JSMap.set m k v).
Proof.
  unfold JSMap.wf. intros W. rewrite keys_set.
  destruct (JSMap.has m k) eqn:H; [exact W |].
  apply NoDup_app; [exact W | repeat constructor; intros [] |].
  intros x Hx [E | []]. subst x.
  apply has_false_get in H.
  destruct (get_present m k Hx) as [v' G]. congruence.
Qed.

Lemma keys_delete {V : Type} (m : JSMap.t V) (k k0 : string) :
  In k0 (JSMap.keys (JSMap.delete m k)) -> In k0 (JSMap.keys m).
Proof.
  induction m as [| [k' v'] m IH]; cbn; [tauto |].
  destruct (String.eqb k' k); cbn; tauto.
Qed.

Lemma wf_delete {V : Type} (m : JSMap.t V) (k : string) :
  JSMap.wf m -> JSMap.wf (JSMap.delete m k).
Proof.
  unfold JSMap.wf. induction m as [| [k' v'] m IH]; cbn; intros W; [exact W |].
  inversion W as [| ? ? Hk Hm]; subst.
  destruct (String.eqb k' k); [exact Hm |].
  cbn. constructor; [| auto].
  intros Hin. apply Hk. eapply keys_delete, Hin.
Qed.

Lemma wf_clear {V : Type} (m : JSMap.t V) : JSMap.wf (JSMap.clear m).
Proof. constructor. Qed.

Lemma KeepsWellFormed_refl (st : GhostDistributed) : KeepsWellFormed st st.
Proof. intros H. exact H. Qed.

Lemma KeepsWellFormed_trans (a b c : GhostDistributed) :
  KeepsWellFormed a b -> KeepsWellFormed b c -> KeepsWellFormed a c.
Proof. unfold KeepsWellFormed. auto. Qed.

Ltac wf_leaf :=
  unfold KeepsWellFormed, wellFormed;
  cbn [set_myRole set_masterPeerId set_deviceScores set_pendingTasks
       set_completedTasks set_latencyTests set_isRunning set_metrics
       deviceScores pendingTasks completedTasks latencyTests];
  intros (? & ? & ? & ?);
  repeat split; auto using wf_set, wf_delete, wf_clear.

Lemma electMaster_KeepsWellFormed (gc : GhostClient) (st : GhostDistributed) :
  KeepsWellFormed st (final (electMaster gc st)).
Proof.
  unfold electMaster. frame KeepsWellFormed_refl KeepsWellFormed_trans wf_leaf.
Qed.

Lemma react_KeepsWellFormed (gc : GhostClient) (i : Input) (st : GhostDistributed) :
  KeepsWellFormed st (final (react gc i st)).
Proof.
  destruct i as [l | l | from data now | p now | | task | f now | |];
    try destruct data as [ts s | ots s | task | taskId res | frame | f ts | ty].
  4:{ cbn [react]. rewrite latency_pong_run. unfold final. cbn [fst snd].
      destruct (JSMap.get (deviceScores st) from); wf_leaf. }
  all: unfold_methods; unfold_message;
    frame KeepsWellFormed_refl KeepsWellFormed_trans
      ltac:(first [ apply electMaster_KeepsWellFormed | wf_leaf ]).
Qed.

(** Every state an engine reaches from its construction is well formed. *)
Lemma reachable_wellFormed (gc : GhostClient) (inputs : list Input) :
  wellFormed (runAll gc inputs new_GhostDistributed).
Proof.
  apply (frame_runAll KeepsWellFormed KeepsWellFormed_refl KeepsWellFormed_trans gc
           (react_KeepsWellFormed gc) inputs new_GhostDistributed).
  repeat split; constructor.
Qed.

(** ** Range and monotonicity of the score *)

Lemma Math_min_le_l (a b : Q) : JS.Math_min a b <= a.
Proof.
  unfold JS.Math_min. destruct (Qle_bool a b) eqn:E; [apply Qle_refl |].
  apply Qlt_le_weak, (proj1 (gtb_lt a b)). unfold JS.gtb. rewrite E. reflexivity.
Qed.

Lemma Math_min_le_r (a b : Q) : JS.Math_min a b <= b.
Proof.
  unfold JS.Math_min. destruct (Qle_bool a b) eqn:E; [| apply Qle_refl].
  apply Qle_bool_iff, E.
Qed.

Lemma Math_min_mono (a a' b : Q) : a <= a' -> JS.Math_min a b <= JS.Math_min a' b.
Proof.
  intros H. rewrite !Math_min_Qmin. apply Q.min_le_compat_r, H.
Qed.

Lemma Math_round_mono (x y : Q) : x <= y -> JS.Math_round x <= JS.Math_round y.
Proof.
  intros H. unfold JS.Math_round. rewrite <- Zle_Qle.
  apply Qfloor_resp_le. lra.
Qed.

Lemma Math_max_mono (a x y : Q) : x <= y -> JS.Math_max a x <= JS.Math_max a y.
Proof.
  intros H. rewrite !Math_max_Qmax. apply Q.max_le_compat_l, H.
Qed.


(** The score never rises with latency, stops falling at 200 ms, and for
    a latency that is not negative it is at most 110. *)
Theorem calculateDeviceScore_latency :
  forall (c : PeerCapabilities) (l1 l2 : Q),
    l1 <= l2 ->
    calculateDeviceScore c l2 <= calculateDeviceScore c l1 /\
    (200 <= l1 -> calculateDeviceScore c l2 == calculateDeviceScore c l1) /\
    (0 <= l1 -> calculateDeviceScore c l1 <= 110).
Proof.
  intros c l1 l2 H.
  rewrite !score_is_rounded_sum. unfold scoreInBinary64.
  set (s := JS.add
              (JS.add (baseContribution c)
                 (JS.Math_min (JS.div (maxMemory c) 1024) 10))
              (JS.Math_min (JS.div (bandwidth c) 10) 10)).
  assert (JS.Math_min (JS.div l1 10) 20 <= JS.Math_min (JS.div l2 10) 20) as M.
  { apply Math_min_mono, div_monotone; [reflexivity | exact H]. }
  split; [| split].
  - apply Math_max_mono, Math_round_mono, sub_monotone; [apply Qle_refl | exact M].
  - intros H200.
    assert (forall l, 200 <= l -> JS.Math_min (JS.div l 10) 20 == 20) as Cap.
    { intros l Hl. rewrite Math_min_Qmin. apply Q.min_r.
      change 20 with (inject_Z 20). rewrite <- (round64_Z 20) by (cbn; lia).
      apply round64_monotone. change (inject_Z 20) with 20.
      apply Qle_shift_div_l; [reflexivity | lra]. }
    assert (JS.sub s (JS.Math_min (JS.div l2 10) 20)
            = JS.sub s (JS.Math_min (JS.div l1 10) 20)) as E.
    { apply round64_comp. rewrite (Cap l1), (Cap l2) by lra. reflexivity. }
    rewrite E. reflexivity.
  - intros H0.
    pose proof (baseContribution_range c) as [_ B].
    pose proof (Math_min_le_r (JS.div (maxMemory c) 1024) 10) as T1.
    pose proof (Math_min_le_r (JS.div (bandwidth c) 10) 10) as T2.
    assert (0 <= JS.Math_min (JS.div l1 10) 20) as T3.
    { rewrite Math_min_Qmin. apply Q.min_glb; [| discriminate].
      change 0 with (inject_Z 0). rewrite <- (round64_Z 0) by (cbn; lia).
      apply round64_monotone. change (inject_Z 0) with 0.
      apply Qle_shift_div_l; [reflexivity | lra]. }
    assert (JS.add (baseContribution c) (JS.Math_min (JS.div (maxMemory c) 1024) 10)
            <= 100) as S1.
    { change 100 with (inject_Z 100). rewrite <- (round64_Z 100) by (cbn; lia).
      apply round64_monotone. change (inject_Z 100) with 100. lra. }
    assert (s <= 110) as S2.
    { subst s. change 110 with (inject_Z 110). rewrite <- (round64_Z 110) by (cbn; lia).
      apply round64_monotone. change (inject_Z 110) with 110. lra. }
    assert (JS.sub s (JS.Math_min (JS.div l1 10) 20) <= 110) as S3.
    { change 110 with (inject_Z 110). rewrite <- (round64_Z 110) by (cbn; lia).
      apply round64_monotone. change (inject_Z 110) with 110. lra. }
    assert (JS.Math_round (JS.sub s (JS.Math_min (JS.div l1 10) 20)) <= 110) as R.
    { change 110 with (JS.Math_round (inject_Z 110)) at 1.
      apply Math_round_mono. exact S3. }
    rewrite Math_max_Qmax. apply Q.max_lub; [discriminate | exact R].
Qed.

Lemma calculateDeviceScore_latency_witness :
  calculateDeviceScore fullProfile 1000 <= calculateDeviceScore fullProfile 200 /\
  calculateDeviceScore fullProfile 1000 == calculateDeviceScore fullProfile 200 /\
  calculateDeviceScore fullProfile 200 <= 110.
Proof.
  assert (200 <= 1000) as H by discriminate.
  destruct (calculateDeviceScore_latency fullProfile 200 1000 H) as (A & B & C).
  split; [exact A |]. split; [apply B | apply C]; discriminate.
Defined.

(** ** Records and their scores *)

Lemma KeepsConsistent_refl (st : GhostDistributed) : KeepsConsistent st st.
Proof. intros H. exact H. Qed.

Lemma KeepsConsistent_trans (a b c : GhostDistributed) :
  KeepsConsistent a b -> KeepsConsistent b c -> KeepsConsistent a c.
Proof. unfold KeepsConsistent. auto. Qed.

Lemma KeepsConsistent_same (st st' : GhostDistributed) :
  deviceScores st' = deviceScores st -> KeepsConsistent st st'.
Proof. intros E H k d. rewrite E. apply H. Qed.

Lemma KeepsConsistent_set (st : GhostDistributed) (k : string) (v : DeviceScore) :
  peerId v = k ->
  score v = calculateDeviceScore (capabilities v) (latency v) ->
  KeepsConsistent st (set_deviceScores (JSMap.set (deviceScores st) k v) st).
Proof.
  intros Hk Hs H k0 d. cbn [set_deviceScores deviceScores].
  destruct (String.eqb_spec k0 k) as [-> | N].
  - rewrite get_set_same. intros [= <-]. auto.
  - rewrite get_set_other by exact N. apply H.
Qed.

Ltac consistent_leaf :=
  first [ apply KeepsConsistent_set; reflexivity
        | apply KeepsConsistent_same; reflexivity ].

Lemma electMaster_KeepsConsistent (gc : GhostClient) (st : GhostDistributed) :
  KeepsConsistent st (final (electMaster gc st)).
Proof. apply KeepsConsistent_same, electMaster_deviceScores. Qed.

Lemma react_KeepsConsistent (gc : GhostClient) (i : Input) (st : GhostDistributed) :
  KeepsConsistent st (final (react gc i st)).
Proof.
  destruct i as [l | l | from data now | p now | | task | f now | |];
    try destruct data as [ts s | ots s | task | taskId res | frame | f ts | ty].
  4:{ cbn [react]. rewrite latency_pong_run. unfold final. cbn [fst snd].
      destruct (JSMap.get (deviceScores st) from) as [d |] eqn:E.
      - intros H. destruct (H from d E) as [Hk Hs].
        set (mid := set_deviceScores
                      (JSMap.set (deviceScores st) from
                         (set_latency_score (now - ots)
                            (calculateDeviceScore (capabilities d) (now - ots)) d)) st).
        apply (KeepsConsistent_same mid); [reflexivity |].
        apply KeepsConsistent_set; [exact Hk | reflexivity | exact H].
      - apply KeepsConsistent_same; reflexivity. }
  all: unfold_methods; unfold_message;
    frame KeepsConsistent_refl KeepsConsistent_trans
      ltac:(first [ apply electMaster_KeepsConsistent | consistent_leaf ]).
Qed.

(** In every state an engine reaches from its construction, each record of
    the directory is stored under its own peer id, its score is the one
    [calculateDeviceScore] gives for its capabilities and its recorded
    latency, and so it is never negative. *)
Theorem reachable_records_consistent :
  forall (gc : GhostClient) (inputs : list Input) (k : string) (d : DeviceScore),
    JSMap.get (deviceScores (runAll gc inputs new_GhostDistributed)) k = Some d ->
    peerId d = k /\
    score d = calculateDeviceScore (capabilities d) (latency d) /\
    0 <= score d.
Proof.
  intros gc inputs k d H.
  assert (recordsConsistent (runAll gc inputs new_GhostDistributed)) as C.
  { apply (frame_runAll KeepsConsistent KeepsConsistent_refl KeepsConsistent_trans gc
             (react_KeepsConsistent gc) inputs new_GhostDistributed).
    intros k0 d0 [=]. }
  destruct (C k d H) as [Hk Hs]. split; [exact Hk |]. split; [exact Hs |].
  rewrite Hs, score_is_rounded_sum. apply Math_max_lower.
Qed.

Lemma reachable_records_consistent_witness :
  exists d, JSMap.get (deviceScores sampledEngine) "helper" = Some d /\
            peerId d = "helper"%string /\ 0 <= score d.
Proof.
  eexists. split; [cbv; reflexivity |].
  assert (JSMap.get (deviceScores sampledEngine) "helper"
          = Some {| peerId := "helper"; peerName := "helper"; score := 107;
                    capabilities := fullProfile; suggestedRole := master;
                    latency := 30 |}) as K by (vm_compute; reflexivity).
  unfold sampledEngine, helperEngine in K. rewrite <- runAll_app in K.
  destruct (reachable_records_consistent localClient _ _ _ K) as (A & _ & B).
  split; [exact A | exact B].
Defined.

(** ** The election rule *)

Lemma electStep_fold (el : DeviceScore -> bool) (es : list (string * DeviceScore)) :
  forall best : Q * option string,
    (fold_left (electStep el) es best = best /\
     forall e, In e es -> el (snd e) = true -> score (snd e) <= fst best) \/
    (exists k d l1 l2,
        es = l1 ++ (k, d) :: l2 /\
        fold_left (electStep el) es best = (score d, Some k) /\
        el d = true /\ fst best < score d /\
        (forall e, In e l1 -> el (snd e) = true -> score (snd e) < score d) /\
        (forall e, In e l2 -> el (snd e) = true -> score (snd e) <= score d)).
Proof.
  induction es as [| [k0 d0] es IH]; intros best.
  - left. split; [reflexivity | intros e []].
  - cbn [fold_left]. unfold electStep at 2 4. cbn [fst snd].
    destruct (JS.gtb (score d0) (fst best) && el d0) eqn:T.
    + apply andb_true_iff in T as [G E]. apply gtb_lt in G.
      destruct (IH (score d0, Some k0))
        as [[F Hl] | (k & d & l1 & l2 & -> & F & Ed & Hd & H1 & H2)];
        cbn [fst] in *.
      * right. exists k0, d0, [], es. repeat split; auto. intros e [].
      * right. exists k, d, ((k0, d0) :: l1), l2. repeat split; auto.
        -- lra.
        -- intros e [<- | Hin] Ee; [exact Hd | auto].
    + assert (el d0 = true -> score d0 <= fst best) as Hx.
      { intros E. rewrite E, andb_true_r in T. apply gtb_le, T. }
      destruct (IH best)
        as [[F Hl] | (k & d & l1 & l2 & -> & F & Ed & Hd & H1 & H2)].
      * left. split; [exact F |]. intros e [<- | Hin] Ee; auto.
      * right. exists k, d, ((k0, d0) :: l1), l2. repeat split; auto.
        intros e [<- | Hin] Ee; [| auto].
        cbn [snd] in *. specialize (Hx Ee). lra.
Qed.

Lemma electStepMaster_shape (es : list (string * DeviceScore)) (best : Q * option string) :
  fold_left electStepMaster es best
  = fold_left (electStep (fun d => DeviceRole_eqb (suggestedRole d) master)) es best.
Proof. reflexivity. Qed.

Lemma electStepAny_shape (es : list (string * DeviceScore)) :
  forall best,
    fold_left electStepAny es best = fold_left (electStep (fun _ => true)) es best.
Proof.
  induction es as [| e es IH]; intros best; [reflexivity |].
  cbn [fold_left]. rewrite IH. f_equal.
  unfold electStepAny, electStep. rewrite andb_true_r. reflexivity.
Qed.

Lemma DeviceRole_eqb_eq (a b : DeviceRole) : DeviceRole_eqb a b = true <-> a = b.
Proof. destruct a, b; cbn; split; congruence. Qed.

(** Two ways of splitting a list at an element. *)
Lemma split_twice {A : Type} (l1 l2 l1' l2' : list A) (x x' : A) :
  l1 ++ x :: l2 = l1' ++ x' :: l2' ->
  (l1 = l1' /\ x = x' /\ l2 = l2') \/
  (In x l1' /\ In x' l2) \/
  (In x' l1 /\ In x l2').
Proof.
  revert l1'. induction l1 as [| a l1 IH]; intros [| a' l1'] E; cbn in E.
  - inversion E; subst. auto.
  - inversion E; subst. right. left. split; [left; reflexivity | apply in_elt].
  - inversion E; subst. right. right. split; [left; reflexivity | apply in_elt].
  - inversion E as [[Ea E0]]. destruct (IH _ E0) as [(-> & -> & ->) | [[H1 H2] | [H1 H2]]].
    + auto.
    + right. left. split; [right; exact H1 | exact H2].
    + right. right. split; [right; exact H1 | exact H2].
Qed.

Lemma firstBest_unique (P : DeviceScore -> Prop) (es : list (string * DeviceScore))
    (k k' : string) (d d' : DeviceScore) :
  firstBest P es k d -> firstBest P es k' d' -> k = k' /\ d = d'.
Proof.
  intros (l1 & l2 & E & Pd & B & A) (l1' & l2' & E' & Pd' & B' & A').
  rewrite E in E'.
  destruct (split_twice _ _ _ _ _ _ E') as [(_ & X & _) | [[H1 H2] | [H1 H2]]].
  - injection X as -> ->. auto.
  - specialize (B' _ H1 Pd). specialize (A _ H2 Pd'). cbn [snd] in *. lra.
  - specialize (B _ H1 Pd'). specialize (A' _ H2 Pd). cbn [snd] in *. lra.
Qed.

Lemma firstBest_key (P : DeviceScore -> Prop) (es : list (string * DeviceScore))
    (k : string) (d : DeviceScore) :
  firstBest P es k d -> In (k, d) es.
Proof. intros (l1 & l2 & -> & _). apply in_elt. Qed.

(** With no negative score and no empty peer id in the directory, the
    election winner is the first master-suggested record of greatest score,
    or, when no record is master-suggested, the first record of greatest
    score; there is no winner exactly when the directory is empty. *)
Theorem electBest_rule :
  forall es : JSMap.t DeviceScore,
    (forall e, In e es -> 0 <= score (snd e)) ->
    (forall e, In e es -> fst e <> ""%string) ->
    (forall k, electBest es = Some k <-> electedByRule es k) /\
    (electBest es = None <-> es = []).
Proof.
  intros es Hs Hk.
  assert (forall k, electBest es = Some k -> electedByRule es k) as Sound.
  { intros k. unfold electBest, JSMap.entries. cbv zeta.
    rewrite electStepMaster_shape.
    destruct (electStep_fold (fun d => DeviceRole_eqb (suggestedRole d) master) es (-1, None))
      as [[F Hl] | (k1 & d1 & l1 & l2 & E & F & Ed & Hd & H1 & H2)]; rewrite F.
    - cbn [snd truthy negb fst]. rewrite electStepAny_shape.
      assert (forall e, In e es -> ~ masterSuggested (snd e)) as NoM.
      { intros e Hin M. cbn [fst] in Hl.
        specialize (Hl e Hin (proj2 (DeviceRole_eqb_eq _ _) M)).
        specialize (Hs e Hin). lra. }
      destruct (electStep_fold (fun _ => true) es (-1, None))
        as [[F2 Hl2] | (k2 & d2 & l1 & l2 & E & F2 & _ & Hd & H1 & H2)]; rewrite F2.
      + discriminate.
      + cbn [snd]. intros [= <-]. exists d2. right. split; [exact NoM |].
        exists l1, l2. repeat split; auto.
    - cbn [snd truthy].
      assert (k1 <> ""%string) as Nk.
      { apply (Hk (k1, d1)). rewrite E. apply in_elt. }
      destruct (String.eqb_spec k1 "") as [-> | _]; [congruence |].
      cbn [negb snd]. intros [= <-]. exists d1. left.
      exists l1, l2. apply DeviceRole_eqb_eq in Ed. repeat split; auto.
      + intros e Hin M. apply H1; [exact Hin | apply DeviceRole_eqb_eq, M].
      + intros e Hin M. apply H2; [exact Hin | apply DeviceRole_eqb_eq, M]. }
  assert (electBest es = None -> es = []) as Empty.
  { unfold electBest, JSMap.entries. cbv zeta. rewrite electStepMaster_shape.
    destruct (electStep_fold (fun d => DeviceRole_eqb (suggestedRole d) master) es (-1, None))
      as [[F Hl] | (k1 & d1 & l1 & l2 & E & F & Ed & Hd & H1 & H2)]; rewrite F.
    - cbn [snd truthy negb fst]. rewrite electStepAny_shape.
      destruct (electStep_fold (fun _ => true) es (-1, None))
        as [[F2 Hl2] | (k2 & d2 & l1 & l2 & E & F2 & _ & Hd & H1 & H2)]; rewrite F2.
      + intros _. destruct es as [| e es]; [reflexivity |]. exfalso.
        cbn [fst] in Hl2. specialize (Hl2 e (or_introl eq_refl) eq_refl).
        specialize (Hs e (or_introl eq_refl)). lra.
      + discriminate.
    - cbn [snd truthy].
      assert (k1 <> ""%string) as Nk.
      { apply (Hk (k1, d1)). rewrite E. apply in_elt. }
      destruct (String.eqb_spec k1 "") as [-> | _]; [congruence |].
      discriminate. }
  split.
  - intros k. split; [apply Sound |].
    intros R. destruct (electBest es) as [k' |] eqn:B.
    + f_equal. destruct (Sound k' eq_refl) as [d' R']. destruct R as [d R].
      destruct R as [M | [NoM A]], R' as [M' | [NoM' A']].
      * apply (firstBest_unique _ _ _ _ _ _ M' M).
      * exfalso. destruct M as (l1 & l2 & E & Md & _).
        apply (NoM' (k, d)); [rewrite E; apply in_elt | exact Md].
      * exfalso. destruct M' as (l1 & l2 & E & Md & _).
        apply (NoM (k', d')); [rewrite E; apply in_elt | exact Md].
      * apply (firstBest_unique _ _ _ _ _ _ A' A).
    + exfalso. rewrite (Empty eq_refl) in R. destruct R as [d [M | [_ M]]];
        destruct M as (l1 & l2 & E & _); destruct l1; discriminate.
  - split; [apply Empty |]. intros ->. reflexivity.
Qed.

Lemma electBest_rule_witness :
  electBest threeMasters = Some "b"%string /\ electedByRule threeMasters "b".
Proof.
  assert (electBest threeMasters = Some "b"%string) as E by (vm_compute; reflexivity).
  split; [exact E |].
  apply (electBest_rule threeMasters).
  - intros e [<- | [<- | [<- | []]]]; discriminate.
  - intros e [<- | [<- | [<- | []]]]; discriminate.
  - exact E.
Defined.

(** ** What an election does *)

(** The whole effect of [electMaster]. *)
Lemma electMaster_run (gc : GhostClient) (st : GhostDistributed) :
  electMaster gc st
  = match electBest (deviceScores st) with
    | Some b =>
        if truthy (Some b) && differs b (masterPeerId st) then
          let role :=
            if String.eqb b (getPeerId gc) then master
            else match JSMap.get (deviceScores st) (getPeerId gc) with
                 | Some d => suggestedRole d
                 | None => display
                 end in
          (tt,
           set_myRole role
             (set_metrics (set_masterDevice (Some b) (metrics st))
                (set_masterPeerId (Some b) st)),
           [Emit (role_changed role (String.eqb b (getPeerId gc)));
            Emit (master_elected b)])
        else (tt, st, [])
    | None => (tt, st, [])
    end.
Proof.
  unfold electMaster. run_method.
  destruct (electBest (deviceScores st)) as [b |]; [| reflexivity].
  destruct (truthy (Some b) && differs b (masterPeerId st)); [| reflexivity].
  cbv zeta. destruct (String.eqb b (getPeerId gc)); reflexivity.
Qed.

Lemma fold_electStep_key (el : DeviceScore -> bool) (es : list (string * DeviceScore)) :
  forall best k,
    snd (fold_left (electStep el) es best) = Some k ->
    snd best = Some k \/ In k (JSMap.keys es).
Proof.
  intros best k H.
  destruct (electStep_fold el es best)
    as [[F _] | (k1 & d1 & l1 & l2 & E & F & _)]; rewrite F in H.
  - left. exact H.
  - right. cbn [snd] in H. injection H as <-. rewrite E.
    unfold JSMap.keys. rewrite map_app. apply in_or_app. right. left. reflexivity.
Qed.

(** The winner of an election has a record in the directory. *)
Lemma electBest_has (es : JSMap.t DeviceScore) (k : string) :
  electBest es = Some k -> JSMap.has es k = true.
Proof.
  unfold electBest, JSMap.entries. cbv zeta. rewrite electStepMaster_shape.
  intros H.
  assert (In k (JSMap.keys es)) as Hin.
  { destruct (negb (truthy (snd (fold_left
               (electStep (fun d => DeviceRole_eqb (suggestedRole d) master)) es (-1, None))))).
    - rewrite electStepAny_shape in H.
      destruct (fold_electStep_key _ _ _ _ H) as [H1 | H1]; [| exact H1].
      destruct (fold_electStep_key _ _ _ _ H1) as [H2 | H2]; [discriminate | exact H2].
    - destruct (fold_electStep_key _ _ _ _ H) as [H2 | H2]; [discriminate | exact H2]. }
  apply has_get. apply get_present, Hin.
Qed.

Lemma KeepsElection_refl (gc : GhostClient) (st : GhostDistributed) :
  KeepsElection gc st st.
Proof. intros H. exact H. Qed.

Lemma KeepsElection_trans (gc : GhostClient) (a b c : GhostDistributed) :
  KeepsElection gc a b -> KeepsElection gc b c -> KeepsElection gc a c.
Proof. unfold KeepsElection. auto. Qed.

Lemma KeepsElection_same (gc : GhostClient) (st st' : GhostDistributed) :
  masterPeerId st' = masterPeerId st ->
  masterDevice (metrics st') = masterDevice (metrics st) ->
  myRole st' = myRole st ->
  deviceScores st' = deviceScores st ->
  KeepsElection gc st st'.
Proof.
  intros E1 E2 E3 E4. unfold KeepsElection, electionConsistent.
  rewrite E1, E2, E3, E4. auto.
Qed.

Lemma KeepsElection_set (gc : GhostClient) (st : GhostDistributed) (k : string)
    (v : DeviceScore) :
  KeepsElection gc st (set_deviceScores (JSMap.set (deviceScores st) k v) st).
Proof.
  unfold KeepsElection, electionConsistent.
  cbn [set_deviceScores deviceScores metrics masterPeerId myRole].
  intros (A & B & C). split; [exact A |]. split; [| exact C].
  intros m Hm. destruct (B m Hm) as [B1 B2]. split; [apply has_set, B1 | exact B2].
Qed.

Lemma electMaster_KeepsElection (gc : GhostClient) (st : GhostDistributed) :
  KeepsElection gc st (final (electMaster gc st)).
Proof.
  rewrite electMaster_run.
  destruct (electBest (deviceScores st)) as [b |] eqn:E; [| apply KeepsElection_refl].
  destruct (truthy (Some b) && differs b (masterPeerId st)) eqn:G;
    [| apply KeepsElection_refl].
  apply andb_true_iff in G as [T _]. cbn [truthy] in T.
  apply negb_true_iff in T.
  intros _. unfold final, electionConsistent. cbv zeta. cbn [fst snd].
  cbn [set_myRole set_metrics set_masterDevice set_masterPeerId
       metrics masterDevice masterPeerId deviceScores myRole].
  split; [reflexivity |]. split.
  - intros m [= <-]. split; [apply electBest_has, E |].
    intros ->. discriminate T.
  - intros [= ->]. rewrite String.eqb_refl. reflexivity.
Qed.

Ltac election_leaf :=
  first [ apply electMaster_KeepsElection
        | apply KeepsElection_set
        | apply KeepsElection_same; reflexivity ].

Lemma react_KeepsElection (gc : GhostClient) (i : Input) (st : GhostDistributed) :
  KeepsElection gc st (final (react gc i st)).
Proof.
  destruct i as [l | l | from data now | p now | | task | f now | |];
    try destruct data as [ts s | ots s | task | taskId res | frame | f ts | ty].
  4:{ cbn [react]. rewrite latency_pong_run. unfold final. cbn [fst snd].
      destruct (JSMap.get (deviceScores st) from) as [d |] eqn:E.
      - set (mid := set_deviceScores
                      (JSMap.set (deviceScores st) from
                         (set_latency_score (now - ots)
                            (calculateDeviceScore (capabilities d) (now - ots)) d)) st).
        apply (KeepsElection_trans gc _ mid); [apply KeepsElection_set |].
        apply KeepsElection_same; reflexivity.
      - apply KeepsElection_same; reflexivity. }
  all: unfold_methods; unfold_message;
    frame (KeepsElection_refl gc) (KeepsElection_trans gc) election_leaf.
Qed.

Lemma KeepsMaster_refl (st : GhostDistributed) : KeepsMaster st st.
Proof. intros H. exact H. Qed.

Lemma KeepsMaster_trans (a b c : GhostDistributed) :
  KeepsMaster a b -> KeepsMaster b c -> KeepsMaster a c.
Proof. unfold KeepsMaster. auto. Qed.

Lemma electMaster_KeepsMaster (gc : GhostClient) (st : GhostDistributed) :
  KeepsMaster st (final (electMaster gc st)).
Proof.
  rewrite electMaster_run.
  destruct (electBest (deviceScores st)) as [b |]; [| apply KeepsMaster_refl].
  destruct (truthy (Some b) && differs b (masterPeerId st));
    [| apply KeepsMaster_refl].
  intros _. discriminate.
Qed.

Lemma react_KeepsMaster (gc : GhostClient) (i : Input) (st : GhostDistributed) :
  KeepsMaster st (final (react gc i st)).
Proof.
  destruct i as [l | l | from data now | p now | | task | f now | |];
    try destruct data as [ts s | ots s | task | taskId res | frame | f ts | ty].
  4:{ cbn [react]. rewrite latency_pong_run. intros H. exact H. }
  all: unfold_methods; unfold_message;
    frame KeepsMaster_refl KeepsMaster_trans
      ltac:(first [ apply electMaster_KeepsMaster | intros H; exact H ]).
Qed.

(** In every state an engine reaches from its construction the metric
    [masterDevice] equals the elected master, the elected master has a
    record in the directory and a non-empty id, and if it is the local node
    then the local role is [master]; and from any state on, an elected
    master is replaced at most, never withdrawn. *)
Theorem elected_master_invariant :
  (forall (gc : GhostClient) (inputs : list Input),
      electionConsistent gc (runAll gc inputs new_GhostDistributed)) /\
  (forall (gc : GhostClient) (inputs : list Input) (st : GhostDistributed),
      masterPeerId st <> None -> masterPeerId (runAll gc inputs st) <> None).
Proof.
  split.
  - intros gc inputs.
    apply (frame_runAll (KeepsElection gc) (KeepsElection_refl gc) (KeepsElection_trans gc)
             gc (react_KeepsElection gc) inputs new_GhostDistributed).
    split; [reflexivity |]. split; [intros m [=] | intros [=]].
  - intros gc inputs st.
    apply (frame_runAll KeepsMaster KeepsMaster_refl KeepsMaster_trans gc
             (react_KeepsMaster gc) inputs st).
Qed.

(** ** Dispatching a task *)

(** The whole effect of [distributeTask] on a running engine. *)
Lemma distributeTask_run (gc : GhostClient) (st : GhostDistributed)
    (task : DistributedTask.t) :
  isRunning st = true ->
  distributeTask gc task st
  = match result (findBestDeviceForTask gc
                    (TaskType_name (DistributedTask.type task)) st) with
    | Some target =>
        (true,
         set_metrics
           (set_tasksDistributed (tasksDistributed (metrics st) + 1)%Z (metrics st))
           (set_pendingTasks
              (JSMap.set (pendingTasks st) (DistributedTask.id task) task) st),
         [SendToPeer (peerId target) (task_assign (taskInfo task))])
    | None =>
        (false,
         set_metrics (set_failedTasks (failedTasks (metrics st) + 1)%Z (metrics st)) st,
         [])
    end.
Proof.
  intros R. unfold distributeTask, findBestDeviceForTask. run_method.
  rewrite R. cbn [negb].
  destruct (fst (fold_left (findStep gc (TaskType_name (DistributedTask.type task)))
                   (JSMap.values (deviceScores st)) (None, -1)));
    reflexivity.
Qed.

Lemma findBestDeviceForTask_remote (gc : GhostClient) (ty : string)
    (st : GhostDistributed) (d : DeviceScore) :
  result (findBestDeviceForTask gc ty st) = Some d -> remote gc d.
Proof.
  unfold findBestDeviceForTask. run_method.
  destruct (findStep_fold gc ty (JSMap.values (deviceScores st)) (None, -1))
    as [[F _] | (d0 & _ & _ & _ & F & Rd & _)];
    rewrite F; cbn [fst snd]; [discriminate |].
  intros [= <-]. exact Rd.
Qed.

(** On a running engine every call of [distributeTask] is counted once:
    either it returns true, has sent exactly one [task-assign] carrying the
    task's id, type, payload size and timestamp to a peer other than the
    local node, has made the task pending under its id and has added one to
    [tasksDistributed]; or it returns false, has sent nothing, has left the
    pending tasks alone and has added one to [failedTasks]. *)
Theorem distributeTask_accounting :
  forall (gc : GhostClient) (st : GhostDistributed) (task : DistributedTask.t),
    isRunning st = true ->
    let r := distributeTask gc task st in
    ((result r = true /\
      (exists target,
          target <> getPeerId gc /\
          effects r = [SendToPeer target (task_assign (taskInfo task))]) /\
      JSMap.get (pendingTasks (final r)) (DistributedTask.id task) = Some task /\
      tasksDistributed (metrics (final r)) = (tasksDistributed (metrics st) + 1)%Z /\
      failedTasks (metrics (final r)) = failedTasks (metrics st))
     \/
     (result r = false /\
      effects r = [] /\
      pendingTasks (final r) = pendingTasks st /\
      tasksDistributed (metrics (final r)) = tasksDistributed (metrics st) /\
      failedTasks (metrics (final r)) = (failedTasks (metrics st) + 1)%Z)) /\
    deviceScores (final r) = deviceScores st /\
    isRunning (final r) = true.
Proof.
  intros gc st task R r. subst r. rewrite (distributeTask_run gc st task R).
  destruct (result (findBestDeviceForTask gc
                      (TaskType_name (DistributedTask.type task)) st))
    as [target |] eqn:F; unfold result, final, effects; cbn [fst snd].
  - split; [| split; [reflexivity | exact R]].
    left. pose proof (findBestDeviceForTask_remote gc _ st target F) as Rem.
    split; [reflexivity |]. split; [exists (peerId target); split; [exact Rem | reflexivity] |].
    split; [apply get_set_same |]. split; reflexivity.
  - split; [| split; [reflexivity | exact R]].
    right. repeat split.
Qed.

Lemma distributeTask_accounting_witness :
  result (distributeTask localClient renderTask helperEngine) = true /\
  effects (distributeTask localClient renderTask helperEngine)
    = [SendToPeer "helper" (task_assign (taskInfo renderTask))] /\
  tasksDistributed (metrics dispatchedEngine) = 1%Z.
Proof.
  assert (isRunning helperEngine = true) as R by (vm_compute; reflexivity).
  pose proof (distributeTask_accounting localClient helperEngine renderTask R) as H.
  cbv zeta in H. destruct H as [[(A & _ & _ & _ & _) | (A & _)] _].
  - split; [exact A |]. split; vm_compute; reflexivity.
  - exfalso. vm_compute in A. discriminate A.
Defined.

(** ** Round trip of a task *)

Lemma delete_set_fresh {V : Type} (m : JSMap.t V) (k : string) (v : V) :
  JSMap.get m k = None -> JSMap.delete (JSMap.set m k v) k = m.
Proof.
  induction m as [| [k' v'] m IH]; cbn; intros H.
  - rewrite String.eqb_refl. reflexivity.
  - destruct (String.eqb k' k) eqn:E; [discriminate |].
    cbn. rewrite E, IH by exact H. reflexivity.
Qed.

(** A task dispatched under an id that was not pending, followed by a
    [task-result] for that id from any peer whatever, leaves the pending
    tasks as they were before the dispatch, records the result with its
    sender and emits one [task-completed]; the counters keep the dispatch. *)
Theorem dispatch_then_result :
  forall (gc : GhostClient) (st : GhostDistributed) (task : DistributedTask.t)
         (from : string) (res : TaskOutcome) (now : Q),
    isRunning st = true ->
    result (distributeTask gc task st) = true ->
    JSMap.get (pendingTasks st) (DistributedTask.id task) = None ->
    let st1 := final (distributeTask gc task st) in
    let r := handlePeerMessage gc from (task_result (DistributedTask.id task) res) now st1 in
    pendingTasks (final r) = pendingTasks st /\
    JSMap.get (completedTasks (final r)) (DistributedTask.id task)
      = Some {| completed_result := res; completed_from := from; completedAt := now |} /\
    effects r = [Emit (task_completed (DistributedTask.id task) res from)] /\
    tasksDistributed (metrics (final r)) = (tasksDistributed (metrics st) + 1)%Z.
Proof.
  intros gc st task from res now R T P st1 r. subst r st1.
  rewrite (distributeTask_run gc st task R) in *.
  destruct (result (findBestDeviceForTask gc
                      (TaskType_name (DistributedTask.type task)) st))
    as [target |]; [| discriminate T].
  unfold final, effects. cbn [fst snd].
  rewrite task_result_run.
  cbn [set_metrics set_pendingTasks pendingTasks].
  rewrite get_set_same. cbn [fst snd].
  cbn [set_completedTasks set_pendingTasks set_metrics pendingTasks completedTasks
       metrics set_tasksDistributed tasksDistributed].
  split; [apply delete_set_fresh, P |].
  split; [apply get_set_same |]. split; reflexivity.
Qed.

Lemma dispatch_then_result_witness :
  pendingTasks
    (final (handlePeerMessage localClient "anyone" (task_result "t1" done) 7
              dispatchedEngine)) = [] /\
  effects (handlePeerMessage localClient "anyone" (task_result "t1" done) 7
             dispatchedEngine) = [Emit (task_completed "t1" done "anyone")].
Proof.
  assert (isRunning helperEngine = true) as R by (vm_compute; reflexivity).
  assert (result (distributeTask localClient renderTask helperEngine) = true) as T
    by (vm_compute; reflexivity).
  assert (JSMap.get (pendingTasks helperEngine) (DistributedTask.id renderTask) = None) as P
    by (vm_compute; reflexivity).
  pose proof (dispatch_then_result localClient helperEngine renderTask "anyone" done 7 R T P)
    as H.
  cbv zeta in H. destruct H as (A & _ & B & _).
  assert (dispatchedEngine = final (distributeTask localClient renderTask helperEngine)) as E
    by (vm_compute; reflexivity).
  rewrite E. split.
  - etransitivity; [exact A | vm_compute; reflexivity].
  - exact B.
Defined.

(** ** Stopping *)

(** [stop] abandons the pending tasks without counting them as failed: it
    changes the running flag and the pending tasks only; afterwards every
    [task-result] is ignored and every [distributeTask] is refused, until
    [start]; and [start] changes the running flag only. *)
Theorem stop_abandons_pending :
  forall (gc : GhostClient) (st : GhostDistributed),
    let halted := final (stop st) in
    stop st = (tt, set_pendingTasks [] (set_isRunning false st), [Emit stopped]) /\
    metrics halted = metrics st /\
    completedTasks halted = completedTasks st /\
    (forall from taskId res now,
        handlePeerMessage gc from (task_result taskId res) now halted
        = (tt, halted, [])) /\
    (forall task, distributeTask gc task halted = (false, halted, [])) /\
    start st = (tt, set_isRunning true st, [Emit started]) /\
    pendingTasks (final (start halted)) = [].
Proof.
  intros gc st halted. subst halted.
  split; [reflexivity |]. split; [reflexivity |]. split; [reflexivity |].
  split; [| split; [| split; reflexivity]].
  - intros from taskId res now. rewrite task_result_run. reflexivity.
  - intros task. unfold distributeTask. run_method. reflexivity.
Qed.

(** ** Protocols between two engines *)


(** A render request: [requestRender] sends one request to the elected
    master when there is one and it is not the local node, and nothing
    otherwise; a node whose role is [master] or [compute] answers a request
    with one frame carrying the requested frame id and adds one to
    [framesProcessed], a node of any other role ignores it; the requester
    turns the frame into one [frame-received] event and changes nothing. *)
Theorem render_request_round_trip :
  forall (a m : GhostClient) (stA stM : GhostDistributed) (frameId t0 tM t1 : Q),
    (masterPeerId stA = Some (getPeerId m) ->
     getPeerId m <> ""%string -> getPeerId m <> getPeerId a ->
     requestRender a frameId t0 stA
     = (tt, stA, [SendToPeer (getPeerId m) (render_request frameId t0)])) /\
    (masterPeerId stA = None \/ masterPeerId stA = Some ""%string \/
     masterPeerId stA = Some (getPeerId a) ->
     requestRender a frameId t0 stA = (tt, stA, [])) /\
    (let frame := {| frame_id := frameId; rendered := true; frame_timestamp := tM |} in
     let r := handlePeerMessage m (getPeerId a) (render_request frameId t0) tM stM in
     (myRole stM = master \/ myRole stM = compute ->
      effects r = [SendToPeer (getPeerId a) (frame_data frame)] /\
      framesProcessed (metrics (final r)) = (framesProcessed (metrics stM) + 1)%Z /\
      handlePeerMessage a (getPeerId m) (frame_data frame) t1 stA
      = (tt, stA, [Emit (frame_received (getPeerId m) frame)])) /\
     (myRole stM = storage \/ myRole stM = display -> r = (tt, stM, []))).
Proof.
  intros a m stA stM frameId t0 tM t1. split; [| split].
  - intros M N1 N2. unfold requestRender. run_method. rewrite M.
    cbn [truthy].
    destruct (String.eqb_spec (getPeerId m) "") as [E | _]; [contradiction |].
    destruct (String.eqb_spec (getPeerId m) (getPeerId a)) as [E | _]; [contradiction |].
    reflexivity.
  - intros [M | [M | M]]; unfold requestRender; run_method; rewrite M;
      [reflexivity | reflexivity |].
    cbn [truthy]. rewrite String.eqb_refl, andb_false_r. reflexivity.
  - cbv zeta. split.
    + intros R. unfold handlePeerMessage, processRenderRequest. run_method.
      destruct R as [-> | ->]; cbn [DeviceRole_eqb orb]; repeat split.
    + intros R. unfold handlePeerMessage. run_method.
      destruct R as [-> | ->]; reflexivity.
Qed.

Lemma render_request_round_trip_witness :
  requestRender helperClient 7 0 helperEngine
  = (tt, helperEngine, [SendToPeer "local" (render_request 7 0)]).
Proof.
  apply (proj1 (render_request_round_trip helperClient localClient helperEngine
                  helperEngine 7 0 0 0)).
  - vm_compute. reflexivity.
  - discriminate.
  - discriminate.
Defined.

(** The discovery callback never changes the engine; it announces exactly
    the discovered ids that have no record, in the order received. *)
Theorem wifiDiscovered_announces_unknown :
  forall (discovered : list string) (st : GhostDistributed),
    wifiDiscovered discovered st
    = (tt, st,
       map (fun device => Emit (peer_discovered device))
         (filter (fun device => negb (JSMap.has (deviceScores st) device)) discovered)).
Proof.
  intros discovered st. unfold wifiDiscovered.
  match goal with |- forEach _ ?b _ = _ => set (body := b) end.
  assert (forall x s,
             body x s
             = (tt, s, if negb (JSMap.has (deviceScores s) x)
                       then [Emit (peer_discovered x)] else [])) as Hb.
  { intros x s. subst body. run_method.
    destruct (negb (JSMap.has (deviceScores s) x)); reflexivity. }
  induction discovered as [| x l IH]; [reflexivity |].
  cbn [forEach filter]. unfold bind. rewrite Hb. cbn [fst snd]. rewrite IH.
  cbn [fst snd].
  destruct (negb (JSMap.has (deviceScores st) x)); reflexivity.
Qed.

(** ** Peer-list updates *)

Lemma set_deviceScores_same (st : GhostDistributed) :
  set_deviceScores (deviceScores st) st = st.
Proof. destruct st; reflexivity. Qed.

(** The loop of [updateDeviceScores]. *)
Lemma updateDeviceScores_loop (peers : list GhostPeer.t) :
  forall (body : GhostPeer.t -> M unit) (st : GhostDistributed),
    (forall p s,
        body p s
        = (tt, set_deviceScores (insertNew (latencyTests s) (deviceScores s) p) s, [])) ->
    forEach peers body st
    = (tt,
       set_deviceScores
         (fold_left (insertNew (latencyTests st)) peers (deviceScores st)) st,
       []).
Proof.
  induction peers as [| p peers IH]; intros body st Hb.
  - cbn. rewrite set_deviceScores_same. reflexivity.
  - cbn [forEach fold_left]. unfold bind. rewrite Hb. cbn [fst snd].
    rewrite (IH body _ Hb). cbn [fst snd set_deviceScores latencyTests deviceScores app].
    reflexivity.
Qed.

(** The whole effect of [updateDeviceScores]. *)
Lemma updateDeviceScores_run (gc : GhostClient) (peers : list GhostPeer.t)
    (st : GhostDistributed) :
  let inserted :=
    set_deviceScores
      (fold_left (insertNew (latencyTests st)) peers (deviceScores st)) st in
  let elected := electMaster gc inserted in
  updateDeviceScores gc peers st
  = (tt,
     set_metrics
       (set_totalDevices (JSMap.size (deviceScores inserted)) (metrics (final elected)))
       (final elected),
     effects elected ++ [Emit (scores_updated (JSMap.values (deviceScores inserted)))]).
Proof.
  intros inserted elected. unfold updateDeviceScores.
  match goal with |- bind (forEach _ ?b) _ _ = _ => set (body := b) end.
  assert (forall p s,
             body p s
             = (tt, set_deviceScores (insertNew (latencyTests s) (deviceScores s) p) s, []))
    as Hb.
  { intros p s. subst body. run_method. unfold insertNew.
    destruct (JSMap.has (deviceScores s) (GhostPeer.id p)); cbn [negb fst snd].
    - rewrite set_deviceScores_same. reflexivity.
    - reflexivity. }
  unfold bind at 1. rewrite (updateDeviceScores_loop peers body st Hb).
  cbn [fst snd]. fold inserted.
  unfold bind at 1. fold elected.
  run_method. fold elected.
  cbn [set_metrics deviceScores].
  assert (deviceScores (snd (fst elected)) = deviceScores inserted) as D
    by apply electMaster_deviceScores.
  rewrite D. reflexivity.
Qed.

Lemma insertNew_has (tests : JSMap.t (list Q)) (peers : list GhostPeer.t) :
  forall scores k,
    JSMap.has (fold_left (insertNew tests) peers scores) k = true <->
    JSMap.has scores k = true \/ exists p, In p peers /\ GhostPeer.id p = k.
Proof.
  induction peers as [| p peers IH]; intros scores k; cbn [fold_left].
  - split; [auto | intros [H | (p & [] & _)]; exact H].
  - rewrite IH. unfold insertNew.
    destruct (JSMap.has scores (GhostPeer.id p)) eqn:H.
    + split.
      * intros [A | (q & Hq & E)]; [auto | right; exists q; split; [right |]; auto].
      * intros [A | (q & [<- | Hq] & E)]; [auto | | right; eauto].
        left. rewrite <- E. exact H.
    + split.
      * intros [A | (q & Hq & E)]; [| right; exists q; split; [right |]; auto].
        destruct (String.eqb_spec k (GhostPeer.id p)) as [-> | N].
        -- right. exists p. split; [left |]; reflexivity.
        -- left. unfold JSMap.has in *. rewrite get_set_other in A by exact N. exact A.
      * intros [A | (q & [<- | Hq] & E)].
        -- left. apply has_set, A.
        -- left. rewrite <- E. unfold JSMap.has. rewrite get_set_same. reflexivity.
        -- right. eauto.
Qed.

Lemma insertNew_keeps (tests : JSMap.t (list Q)) (peers : list GhostPeer.t) :
  forall scores k d,
    JSMap.get scores k = Some d ->
    JSMap.get (fold_left (insertNew tests) peers scores) k = Some d.
Proof.
  induction peers as [| p peers IH]; intros scores k d H; [exact H |].
  cbn [fold_left]. apply IH. unfold insertNew.
  destruct (JSMap.has scores (GhostPeer.id p)) eqn:E; [exact H |].
  apply has_false_get in E. rewrite get_set_other; [exact H | congruence].
Qed.

Lemma insertNew_first (tests : JSMap.t (list Q)) (l1 l2 : list GhostPeer.t)
    (p : GhostPeer.t) (scores : JSMap.t DeviceScore) :
  (forall q, In q l1 -> GhostPeer.id q <> GhostPeer.id p) ->
  JSMap.has scores (GhostPeer.id p) = false ->
  JSMap.get (fold_left (insertNew tests) (l1 ++ p :: l2) scores) (GhostPeer.id p)
  = Some (freshRecord tests p).
Proof.
  intros Hl1 H. rewrite fold_left_app. cbn [fold_left].
  apply insertNew_keeps.
  assert (JSMap.has (fold_left (insertNew tests) l1 scores) (GhostPeer.id p) = false) as H1.
  { apply not_true_iff_false. rewrite insertNew_has.
    intros [A | (q & Hq & E)]; [congruence | apply (Hl1 q Hq E)]. }
  change (insertNew tests ?s p)
    with (if JSMap.has s (GhostPeer.id p) then s
          else JSMap.set s (GhostPeer.id p) (freshRecord tests p)).
  rewrite H1. apply get_set_same.
Qed.

(** A peer-list update gives every announced peer a record and no one
    else; a peer without a record gets the record of its first announcement
    in the list, with the latency 50 or, when samples were recorded for it
    beforehand, the oldest sample unless that is 0; the records already
    there stay as they are.  Then [electMaster] runs on the grown directory:
    when it finds a winner other than the current master, the winner becomes
    [masterPeerId] and [masterDevice], the local role becomes [master] if the
    winner is the local node and otherwise the role suggested by the local
    record ([display] without one), and [role-changed] and [master-elected]
    are emitted; otherwise master and role stay.  At the end [totalDevices]
    becomes the size of the directory and [scores-updated] with all records
    is the last event. *)
Theorem updateDeviceScores_inserts :
  forall (gc : GhostClient) (peers : list GhostPeer.t) (st : GhostDistributed),
    let r := updateDeviceScores gc peers st in
    let grown := set_deviceScores (deviceScores (final r)) st in
    let updated := Emit (scores_updated (JSMap.values (deviceScores (final r)))) in
    (forall k,
        JSMap.has (deviceScores (final r)) k = true <->
        JSMap.has (deviceScores st) k = true \/
        exists p, In p peers /\ GhostPeer.id p = k) /\
    (forall l1 p l2,
        peers = l1 ++ p :: l2 ->
        (forall q, In q l1 -> GhostPeer.id q <> GhostPeer.id p) ->
        JSMap.has (deviceScores st) (GhostPeer.id p) = false ->
        JSMap.get (deviceScores (final r)) (GhostPeer.id p)
        = Some (freshRecord (latencyTests st) p)) /\
    (forall k d,
        JSMap.get (deviceScores st) k = Some d ->
        JSMap.get (deviceScores (final r)) k = Some d) /\
    (forall id first rest,
        JSMap.get (latencyTests st) id = Some (first :: rest) ->
        ~ first == 0 ->
        bootstrapLatency (latencyTests st) id = first) /\
    (forall id,
        JSMap.get (latencyTests st) id = None ->
        bootstrapLatency (latencyTests st) id = 50) /\
    final r
    = set_metrics
        (set_totalDevices (JSMap.size (deviceScores (final r)))
           (metrics (final (electMaster gc grown))))
        (final (electMaster gc grown)) /\
    effects r = effects (electMaster gc grown) ++ [updated] /\
    (forall b,
        electBest (deviceScores (final r)) = Some b ->
        truthy (Some b) && differs b (masterPeerId st) = true ->
        masterPeerId (final r) = Some b /\
        masterDevice (metrics (final r)) = Some b /\
        myRole (final r)
        = (if String.eqb b (getPeerId gc) then master
           else match JSMap.get (deviceScores (final r)) (getPeerId gc) with
                | Some d => suggestedRole d
                | None => display
                end) /\
        effects r
        = [Emit (role_changed (myRole (final r)) (String.eqb b (getPeerId gc)));
           Emit (master_elected b); updated]) /\
    (electBest (deviceScores (final r)) = None \/
     (exists b, electBest (deviceScores (final r)) = Some b /\
                truthy (Some b) && differs b (masterPeerId st) = false) ->
     masterPeerId (final r) = masterPeerId st /\
     masterDevice (metrics (final r)) = masterDevice (metrics st) /\
     myRole (final r) = myRole st /\
     effects r = [updated]) /\
    totalDevices (metrics (final r)) = JSMap.size (deviceScores (final r)) /\
    (exists before, effects r = before ++ [updated]) /\
    latencyTests (final r) = latencyTests st.
Proof.
  intros gc peers st r grown updated. subst r grown updated.
  pose proof (updateDeviceScores_run gc peers st) as Run. cbv zeta in Run.
  rewrite Run. clear Run.
  set (inserted := set_deviceScores
                     (fold_left (insertNew (latencyTests st)) peers (deviceScores st)) st).
  pose proof (electMaster_deviceScores gc inserted) as D.
  destruct (electMaster_SameLatency gc inserted) as [L _].
  assert (deviceScores
            (final (tt,
                    set_metrics
                      (set_totalDevices (JSMap.size (deviceScores inserted))
                         (metrics (final (electMaster gc inserted))))
                      (final (electMaster gc inserted)),
                    effects (electMaster gc inserted)
                    ++ [Emit (scores_updated (JSMap.values (deviceScores inserted)))]))
          = deviceScores inserted) as DS.
  { unfold final. cbn [fst snd set_metrics deviceScores]. exact D. }
  rewrite DS. fold inserted.
  assert (masterPeerId inserted = masterPeerId st) as MP by reflexivity.
  assert (metrics inserted = metrics st) as MM by reflexivity.
  assert (myRole inserted = myRole st) as MR by reflexivity.
  assert (latencyTests inserted = latencyTests st) as ML by reflexivity.
  assert (deviceScores inserted
          = fold_left (insertNew (latencyTests st)) peers (deviceScores st)) as DI
    by reflexivity.
  split; [intros k; rewrite DI; apply insertNew_has |].
  split; [intros l1 p l2 -> Hl1 H; rewrite DI; apply insertNew_first; assumption |].
  split; [intros k d H; rewrite DI; apply insertNew_keeps, H |].
  split.
  { intros id first rest G N. unfold bootstrapLatency, JS.or_default. rewrite G.
    destruct (Qeq_bool first 0) eqn:E; [| reflexivity].
    apply Qeq_bool_iff in E. contradiction. }
  split; [intros id G; unfold bootstrapLatency; rewrite G; reflexivity |].
  split; [reflexivity |].
  split; [reflexivity |].
  split.
  { intros b B T. rewrite <- MP in T.
    rewrite (electMaster_run gc inserted), B, T.
    unfold final, effects. cbn [fst snd].
    cbn [set_metrics set_totalDevices set_myRole set_masterPeerId set_masterDevice
         masterPeerId metrics masterDevice myRole app].
    repeat split; reflexivity. }
  split.
  { intros H. rewrite <- MP, <- MM, <- MR.
    rewrite (electMaster_run gc inserted).
    destruct H as [B | (b & B & T)].
    - rewrite B. unfold final, effects. cbn [fst snd].
      cbn [set_metrics set_totalDevices masterPeerId metrics masterDevice myRole app].
      repeat split; reflexivity.
    - rewrite <- MP in T. rewrite B, T. unfold final, effects. cbn [fst snd].
      cbn [set_metrics set_totalDevices masterPeerId metrics masterDevice myRole app].
      repeat split; reflexivity. }
  unfold final, effects. cbn [fst snd].
  cbn [set_metrics set_totalDevices deviceScores metrics totalDevices latencyTests].
  split; [reflexivity |].
  split; [eexists; reflexivity | exact L].
Qed.

Lemma updateDeviceScores_inserts_witness :
  option_map latency
    (JSMap.get
       (deviceScores
          (final (updateDeviceScores localClient
                    [announce "early" noCapabilities; announce "late" noCapabilities]
                    sampledBeforeJoin))) "late")
  = Some 70.
Proof.
  destruct (updateDeviceScores_inserts localClient
              [announce "early" noCapabilities; announce "late" noCapabilities]
              sampledBeforeJoin) as (_ & H & _).
  assert (JSMap.get
            (deviceScores
               (final (updateDeviceScores localClient
                         [announce "early" noCapabilities; announce "late" noCapabilities]
                         sampledBeforeJoin)))
            (GhostPeer.id (announce "late" noCapabilities))
          = Some (freshRecord (latencyTests sampledBeforeJoin)
                    (announce "late" noCapabilities))) as G.
  { apply (H [announce "early" noCapabilities] (announce "late" noCapabilities) []).
    - reflexivity.
    - intros q [<- | []]. discriminate.
    - vm_compute. reflexivity. }
  cbn [GhostPeer.id announce] in G. rewrite G. vm_compute. reflexivity.
Defined.

(** A task from dispatch to completion.  The assignment node [a] sends is
    answered by whatever node [b] receives it: [b] emits [task-received],
    schedules one broadcast of a result that carries the task's id and names
    [b], and changes nothing, whatever its role and whether or not it is
    running.  When that result reaches [a], the task, dispatched under an id
    that was not pending, is completed with [b] as its source and the
    pending tasks are as before the dispatch. *)
Theorem task_round_trip :
  forall (a b : GhostClient) (stA stB : GhostDistributed) (task : DistributedTask.t)
         (tB t1 : Q),
    isRunning stA = true ->
    result (distributeTask a task stA) = true ->
    JSMap.get (pendingTasks stA) (DistributedTask.id task) = None ->
    exists target assignment reply,
      effects (distributeTask a task stA) = [SendToPeer target assignment] /\
      final (handlePeerMessage b (getPeerId a) assignment tB stB) = stB /\
      effects (handlePeerMessage b (getPeerId a) assignment tB stB)
        = [Emit (task_received (taskInfo task)); SetTimeoutBroadcast 10 reply] /\
      let r := handlePeerMessage a (getPeerId b) reply t1
                 (final (distributeTask a task stA)) in
      pendingTasks (final r) = pendingTasks stA /\
      JSMap.get (completedTasks (final r)) (DistributedTask.id task)
        = Some {| completed_result := {| processed := true; deviceId := getPeerId b |};
                  completed_from := getPeerId b;
                  completedAt := t1 |} /\
      effects r
        = [Emit (task_completed (DistributedTask.id task)
                   {| processed := true; deviceId := getPeerId b |} (getPeerId b))].
Proof.
  intros a b stA stB task tB t1 R T P.
  rewrite (distributeTask_run a stA task R) in *.
  destruct (result (findBestDeviceForTask a
                      (TaskType_name (DistributedTask.type task)) stA))
    as [target |]; [| discriminate T].
  exists (peerId target), (task_assign (taskInfo task)),
    (task_result (DistributedTask.id task)
       {| processed := true; deviceId := getPeerId b |}).
  split; [reflexivity |]. split; [reflexivity |]. split; [reflexivity |].
  cbv zeta. unfold final, effects. cbn [fst snd].
  rewrite task_result_run.
  cbn [set_metrics set_pendingTasks pendingTasks].
  rewrite get_set_same. cbn [fst snd].
  cbn [set_completedTasks set_pendingTasks set_metrics pendingTasks completedTasks].
  split; [apply delete_set_fresh, P |].
  split; [apply get_set_same | reflexivity].
Qed.

Lemma task_round_trip_witness :
  exists target assignment reply,
    effects (distributeTask localClient renderTask helperEngine)
      = [SendToPeer target assignment] /\
    effects (handlePeerMessage helperClient "local" assignment 3 new_GhostDistributed)
      = [Emit (task_received (taskInfo renderTask)); SetTimeoutBroadcast 10 reply] /\
    pendingTasks
      (final (handlePeerMessage localClient "helper" reply 9
                (final (distributeTask localClient renderTask helperEngine))))
      = pendingTasks helperEngine.
Proof.
  assert (isRunning helperEngine = true) as R by (vm_compute; reflexivity).
  assert (result (distributeTask localClient renderTask helperEngine) = true) as T
    by (vm_compute; reflexivity).
  assert (JSMap.get (pendingTasks helperEngine) (DistributedTask.id renderTask) = None) as P
    by (vm_compute; reflexivity).
  destruct (task_round_trip localClient helperClient helperEngine new_GhostDistributed
              renderTask 3 9 R T P)
    as (target & assignment & reply & A & _ & B & C & _).
  exists target, assignment, reply. split; [exact A |]. split; [exact B | exact C].
Defined.

(** ** The event-handler registry *)

Lemma splice_indexOf (h : EventEmitter.Handler) (l : list EventEmitter.Handler) :
  match EventEmitter.indexOf h l with
  | Some i => EventEmitter.splice1 i l
  | None => l
  end = removeFirst h l.
Proof.
  induction l as [| x l IH]; cbn; [reflexivity |].
  destruct (Nat.eqb x h); [reflexivity |].
  destruct (EventEmitter.indexOf h l) as [i |]; cbn; rewrite <- IH; reflexivity.
Qed.

Lemma set_get_same {V : Type} (m : JSMap.t V) (k : string) (v : V) :
  JSMap.get m k = Some v -> JSMap.set m k v = m.
Proof.
  induction m as [| [k' v'] m IH]; cbn; [discriminate |].
  destruct (String.eqb k' k).
  - intros [= ->]. reflexivity.
  - intros H. rewrite IH by exact H. reflexivity.
Qed.

Lemma removeFirst_absent (h : EventEmitter.Handler) (l : list EventEmitter.Handler) :
  ~ In h l -> removeFirst h l = l.
Proof.
  induction l as [| x l IH]; cbn; intros N; [reflexivity |].
  destruct (Nat.eqb_spec x h) as [-> | _]; [tauto |].
  rewrite IH by tauto. reflexivity.
Qed.

Lemma removeFirst_app_fresh (h : EventEmitter.Handler) (l : list EventEmitter.Handler) :
  ~ In h l -> removeFirst h (l ++ [h]) = l.
Proof.
  induction l as [| x l IH]; cbn; intros N.
  - rewrite Nat.eqb_refl. reflexivity.
  - destruct (Nat.eqb_spec x h) as [-> | _]; [tauto |].
    rewrite IH by tauto. reflexivity.
Qed.

Lemma removeFirst_split (h : EventEmitter.Handler)
    (before after : list EventEmitter.Handler) :
  ~ In h before -> removeFirst h (before ++ h :: after) = before ++ after.
Proof.
  induction before as [| x l IH]; cbn; intros N.
  - rewrite Nat.eqb_refl. reflexivity.
  - destruct (Nat.eqb_spec x h) as [-> | _]; [tauto |].
    rewrite IH by tauto. reflexivity.
Qed.

Lemma removeFirst_count (h g : EventEmitter.Handler) (l : list EventEmitter.Handler) :
  count_occ Nat.eq_dec (removeFirst h l) g
  = if Nat.eqb g h then pred (count_occ Nat.eq_dec l g) else count_occ Nat.eq_dec l g.
Proof.
  induction l as [| x l IH]; cbn.
  - destruct (Nat.eqb g h); reflexivity.
  - destruct (Nat.eqb_spec x h) as [-> | N].
    + destruct (Nat.eq_dec h g) as [-> | N'].
      * rewrite Nat.eqb_refl. reflexivity.
      * destruct (Nat.eqb_spec g h); [congruence | reflexivity].
    + cbn. rewrite IH. destruct (Nat.eq_dec x g) as [-> | N'].
      * destruct (Nat.eqb_spec g h); [congruence | reflexivity].
      * reflexivity.
Qed.

Lemma emit_on (event event' : string) (h : EventEmitter.Handler) (r : EventEmitter.t) :
  EventEmitter.emit event' (EventEmitter.on event h r)
  = if String.eqb event' event
    then EventEmitter.emit event r ++ [h]
    else EventEmitter.emit event' r.
Proof.
  unfold EventEmitter.on, EventEmitter.emit, JSMap.has. cbv zeta.
  destruct (JSMap.get r event) as [hs |] eqn:G; cbn [negb].
  - rewrite G. destruct (String.eqb_spec event' event) as [-> | N].
    + rewrite get_set_same. reflexivity.
    + rewrite get_set_other by exact N. reflexivity.
  - rewrite get_set_same, set_set.
    destruct (String.eqb_spec event' event) as [-> | N].
    + rewrite get_set_same. reflexivity.
    + rewrite get_set_other by exact N. reflexivity.
Qed.

Lemma emit_off (event event' : string) (h : EventEmitter.Handler) (r : EventEmitter.t) :
  EventEmitter.emit event' (EventEmitter.off event h r)
  = if String.eqb event' event
    then removeFirst h (EventEmitter.emit event r)
    else EventEmitter.emit event' r.
Proof.
  unfold EventEmitter.off, EventEmitter.emit.
  destruct (JSMap.get r event) as [hs |] eqn:G.
  - pose proof (splice_indexOf h hs) as S.
    destruct (EventEmitter.indexOf h hs) as [i |].
    + destruct (String.eqb_spec event' event) as [-> | N].
      * rewrite get_set_same. exact S.
      * rewrite get_set_other by exact N. reflexivity.
    + destruct (String.eqb_spec event' event) as [-> | N]; [| reflexivity].
      rewrite G. exact S.
  - destruct (String.eqb_spec event' event) as [-> | N]; [rewrite G |]; reflexivity.
Qed.

(** The registry calls, for an event, the handlers registered under its
    name in registration order, a handler as often as it is registered:
    [on] appends one registration and touches no other event; [off] removes
    the earliest registration of the handler and nothing else, the other
    registrations keeping their order, and changes nothing at all when the
    handler or the event is not registered; so [on]
    followed by [off] of a handler not registered before restores the calls
    of every event; an event nobody registered for calls no one. *)
Theorem registry_on_off :
  forall (event : string) (h : EventEmitter.Handler) (r : EventEmitter.t),
    EventEmitter.emit event EventEmitter.empty = [] /\
    EventEmitter.emit event (EventEmitter.on event h r) = EventEmitter.emit event r ++ [h] /\
    (forall other, other <> event ->
        EventEmitter.emit other (EventEmitter.on event h r) = EventEmitter.emit other r /\
        EventEmitter.emit other (EventEmitter.off event h r) = EventEmitter.emit other r) /\
    (forall g,
        count_occ Nat.eq_dec (EventEmitter.emit event (EventEmitter.off event h r)) g
        = if Nat.eqb g h
          then pred (count_occ Nat.eq_dec (EventEmitter.emit event r) g)
          else count_occ Nat.eq_dec (EventEmitter.emit event r) g) /\
    (forall before after,
        EventEmitter.emit event r = before ++ h :: after ->
        ~ In h before ->
        EventEmitter.emit event (EventEmitter.off event h r) = before ++ after) /\
    (~ In h (EventEmitter.emit event r) ->
     EventEmitter.emit event (EventEmitter.off event h r) = EventEmitter.emit event r /\
     forall any,
       EventEmitter.emit any (EventEmitter.off event h (EventEmitter.on event h r))
       = EventEmitter.emit any r) /\
    (~ In h (EventEmitter.emit event r) -> EventEmitter.off event h r = r).
Proof.
  intros event h r.
  split; [reflexivity |].
  split; [rewrite emit_on, String.eqb_refl; reflexivity |].
  split.
  { intros other N. rewrite emit_on, emit_off.
    destruct (String.eqb_spec other event); [contradiction | auto]. }
  split.
  { intros g. rewrite emit_off, String.eqb_refl. apply removeFirst_count. }
  split.
  { intros before after E N. rewrite emit_off, String.eqb_refl, E.
    apply removeFirst_split, N. }
  split.
  { intros N. split.
    - rewrite emit_off, String.eqb_refl. apply removeFirst_absent, N.
    - intros any. rewrite emit_off, !emit_on.
      destruct (String.eqb_spec any event) as [-> | _]; [| reflexivity].
      rewrite String.eqb_refl. apply removeFirst_app_fresh, N. }
  intros N. unfold EventEmitter.off, EventEmitter.emit in *.
  destruct (JSMap.get r event) as [hs |] eqn:G; [| reflexivity].
  pose proof (splice_indexOf h hs) as S. rewrite (removeFirst_absent h hs N) in S.
  destruct (EventEmitter.indexOf h hs) as [i |]; [| reflexivity].
  rewrite S. apply set_get_same, G.
Qed.

Lemma registry_on_off_witness :
  EventEmitter.emit "started"
    (EventEmitter.off "started" 1%nat
       (EventEmitter.on "started" 1%nat (EventEmitter.on "started" 2%nat EventEmitter.empty)))
  = [2%nat] /\
  EventEmitter.emit "started"
    (EventEmitter.off "started" 1%nat
       (EventEmitter.on "started" 1%nat
          (EventEmitter.on "started" 3%nat
             (EventEmitter.on "started" 1%nat
                (EventEmitter.on "started" 2%nat EventEmitter.empty)))))
  = [2%nat; 3%nat; 1%nat].
Proof.
  split.
  - destruct (registry_on_off "started" 1%nat
                (EventEmitter.on "started" 2%nat EventEmitter.empty))
      as (_ & _ & _ & _ & _ & H & _).
    destruct H as [_ H].
    + cbn. intros [E | []]. discriminate E.
    + rewrite H. reflexivity.
  - destruct (registry_on_off "started" 1%nat
                (EventEmitter.on "started" 1%nat
                   (EventEmitter.on "started" 3%nat
                      (EventEmitter.on "started" 1%nat
                         (EventEmitter.on "started" 2%nat EventEmitter.empty)))))
      as (_ & _ & _ & _ & H & _).
    apply (H [2%nat] [3%nat; 1%nat]).
    + reflexivity.
    + cbn. intros [E | []]. discriminate E.
Defined.

(** ** Initialisation *)

(** [initialize] stores the record of the local node, with latency 0,
    under the local peer id, replacing a record already there and touching
    no other; it emits [initialized] and nothing else; it runs no election
    and leaves [totalDevices] alone, so on a fresh engine there is still no
    master and [totalDevices] is still 0 afterwards; doing it twice is the
    same as doing it once. *)
Theorem initialize_effect :
  forall (gc : GhostClient) (st : GhostDistributed),
    let r := initialize gc st in
    JSMap.get (deviceScores (final r)) (getPeerId gc) = Some (localRecord gc) /\
    (forall k, k <> getPeerId gc ->
               JSMap.get (deviceScores (final r)) k = JSMap.get (deviceScores st) k) /\
    masterPeerId (final r) = masterPeerId st /\
    myRole (final r) = myRole st /\
    metrics (final r) = metrics st /\
    effects r
      = [Emit (initialized (calculateDeviceScore (getCapabilities gc) 0)
                 (getCapabilities gc))] /\
    final (initialize gc (final r)) = final r /\
    masterPeerId (final (initialize gc new_GhostDistributed)) = None /\
    totalDevices (metrics (final (initialize gc new_GhostDistributed))) = 0%Z /\
    JSMap.size (deviceScores (final (initialize gc new_GhostDistributed))) = 1%Z.
Proof.
  intros gc st r. subst r. unfold initialize. run_method. cbv zeta.
  cbn [set_deviceScores deviceScores masterPeerId myRole metrics].
  fold (localRecord gc).
  split; [apply get_set_same |].
  split; [intros k N; apply get_set_other, N |].
  split; [reflexivity |]. split; [reflexivity |]. split; [reflexivity |].
  split; [reflexivity |].
  split; [rewrite set_set; reflexivity |].
  repeat split.
Qed.

(** ** The signaling client *)

Lemma peerIds_filter (leaver : string) (peers : list GhostPeer.t) :
  peerIds (filter (fun p => negb (String.eqb (GhostPeer.id p) leaver)) peers)
  = filter (fun k => negb (String.eqb k leaver)) (peerIds peers).
Proof.
  unfold peerIds. induction peers as [| p peers IH]; [reflexivity |].
  cbn. destruct (String.eqb (GhostPeer.id p) leaver); cbn; rewrite IH; reflexivity.
Qed.

Lemma existsb_id (peer : GhostPeer.t) (peers : list GhostPeer.t) :
  existsb (fun p => String.eqb (GhostPeer.id p) (GhostPeer.id peer)) peers = true
  <-> In (GhostPeer.id peer) (peerIds peers).
Proof.
  rewrite existsb_exists. unfold peerIds. rewrite in_map_iff. split.
  - intros (p & Hin & E). apply String.eqb_eq in E. eauto.
  - intros (p & E & Hin). exists p. split; [exact Hin | apply String.eqb_eq, E].
Qed.

Lemma delete_absent {V : Type} (m : JSMap.t V) (k : string) :
  JSMap.get m k = None -> JSMap.delete m k = m.
Proof.
  induction m as [| [k' v] m IH]; cbn; [reflexivity |].
  destruct (String.eqb k' k); [discriminate |].
  intros H. rewrite IH by exact H. reflexivity.
Qed.

(** The whole effect of [closePeerConnection]. *)
Lemma closePeerConnection_run (k : string) (c : GhostClientState) :
  closePeerConnection k c
  = (set_dataChannels (JSMap.delete (dataChannels c) k)
       (set_peerConnections (JSMap.delete (peerConnections c) k) c),
     if JSMap.has (peerConnections c) k then [PeerConnectionClosed k] else []).
Proof.
  unfold closePeerConnection, JSMap.has. cbv zeta.
  destruct (JSMap.get (peerConnections c) k) eqn:G; cbn [fst snd]; [reflexivity |].
  rewrite (delete_absent _ _ G). destruct c; reflexivity.
Qed.

Lemma peer_left_forgets_channel (c : GhostClientState) (leaver : string) :
  JSMap.wf (dataChannels c) ->
  JSMap.get (dataChannels (fst (handleMessage (peer_left leaver) c))) leaver = None.
Proof.
  intros W. cbn [handleMessage]. cbv zeta. rewrite closePeerConnection_run.
  cbn [fst set_dataChannels set_peerConnections set_connectedPeers dataChannels].
  apply get_delete_same, W.
Qed.

(** The peer list under [peer-joined] and [peer-left]: a join of an id
    already listed changes nothing and emits nothing, a join of a new id
    appends the peer and emits the new list, so a list without repeated ids
    stays so; a leave removes every peer of that id, keeps the others in
    order, forgets the peer connection and the data channel of that id and
    emits the list even when the id was not listed. *)
Theorem client_peer_list :
  forall (c : GhostClientState) (peer : GhostPeer.t) (leaver : string),
    (In (GhostPeer.id peer) (peerIds (connectedPeers c)) ->
     handleMessage (peer_joined peer) c = (c, [])) /\
    (~ In (GhostPeer.id peer) (peerIds (connectedPeers c)) ->
     handleMessage (peer_joined peer) c
     = (set_connectedPeers (connectedPeers c ++ [peer]) c,
        [ClientEmit (peers_updated (connectedPeers c ++ [peer]))])) /\
    (NoDup (peerIds (connectedPeers c)) ->
     NoDup (peerIds (connectedPeers (fst (handleMessage (peer_joined peer) c)))) /\
     NoDup (peerIds (connectedPeers (fst (handleMessage (peer_left leaver) c))))) /\
    (let r := handleMessage (peer_left leaver) c in
     peerIds (connectedPeers (fst r))
       = filter (fun k => negb (String.eqb k leaver)) (peerIds (connectedPeers c)) /\
     ~ In leaver (peerIds (connectedPeers (fst r))) /\
     (JSMap.wf (peerConnections c) -> JSMap.get (peerConnections (fst r)) leaver = None) /\
     (JSMap.wf (dataChannels c) -> JSMap.get (dataChannels (fst r)) leaver = None) /\
     exists before,
       snd r = before ++ [ClientEmit (peers_updated (connectedPeers (fst r)))]).
Proof.
  intros c peer leaver.
  split; [| split; [| split]].
  - intros H. apply existsb_id in H. cbn [handleMessage]. rewrite H. reflexivity.
  - intros H. cbn [handleMessage].
    destruct (existsb _ (connectedPeers c)) eqn:E.
    + apply existsb_id in E. contradiction.
    + reflexivity.
  - intros N. split.
    + cbn [handleMessage].
      destruct (existsb _ (connectedPeers c)) eqn:E; [exact N |].
      cbn [fst set_connectedPeers connectedPeers].
      unfold peerIds. rewrite map_app. cbn [map].
      apply NoDup_app; [exact N | repeat constructor; intros [] |].
      intros k Hk [<- | []].
      assert (existsb (fun p => String.eqb (GhostPeer.id p) (GhostPeer.id peer))
                (connectedPeers c) = true) as A by (apply existsb_id, Hk).
      congruence.
    + cbn [handleMessage]. cbv zeta. rewrite closePeerConnection_run.
      cbn [fst set_dataChannels set_peerConnections set_connectedPeers connectedPeers].
      rewrite peerIds_filter. apply NoDup_filter, N.
  - cbv zeta. cbn [handleMessage]. cbv zeta. rewrite closePeerConnection_run.
    cbn [fst snd set_dataChannels set_peerConnections set_connectedPeers
         connectedPeers dataChannels peerConnections].
    split; [apply peerIds_filter |].
    split.
    { rewrite peerIds_filter. intros H. apply filter_In in H as [_ H].
      rewrite String.eqb_refl in H. discriminate H. }
    split; [intros W; apply get_delete_same, W |].
    split; [intros W; apply get_delete_same, W |].
    eexists. reflexivity.
Qed.

Lemma client_peer_list_witness :
  peerIds (connectedPeers (fst (handleMessage (peer_left "helper") linkedClient))) = [] /\
  JSMap.get (dataChannels (fst (handleMessage (peer_left "helper") linkedClient))) "helper"
    = None.
Proof.
  destruct (client_peer_list linkedClient (announce "helper" fullProfile) "helper")
    as (_ & _ & _ & A & _ & _ & B & _).
  split.
  - rewrite A. vm_compute. reflexivity.
  - apply B. vm_compute. apply NoDup_cons; [intros [] | apply NoDup_nil].
Defined.

(** ** Data channels *)

(** A message reaches a peer only through a registered channel that is
    open at that moment: [sendToPeer] puts at most one message on the wire,
    on the channel registered for the peer, and nothing when no channel is
    registered or the channel is not open; a channel is registered by its
    [onopen] and forgotten by an [onclose] for the peer, by [peer-left] and
    by [disconnect]; [broadcast] sends on exactly the registered channels
    that are open, in registration order. *)
Theorem client_channels :
  forall (readyState : nat -> RTCDataChannel.readyState) (c : GhostClientState)
         (remote : string) (channel : nat) (payload : Message),
    sendToPeer readyState remote payload (fst (channelOpened remote channel c))
      = (if RTCDataChannel.isOpen (readyState channel)
         then [ChannelSend channel payload] else []) /\
    (JSMap.get (dataChannels c) remote = None ->
     sendToPeer readyState remote payload c = []) /\
    (JSMap.wf (dataChannels c) ->
     sendToPeer readyState remote payload (fst (channelClosed remote c)) = [] /\
     sendToPeer readyState remote payload (fst (handleMessage (peer_left remote) c)) = []) /\
    sendToPeer readyState remote payload (fst (disconnect c)) = [] /\
    broadcast readyState payload (fst (disconnect c)) = [] /\
    (forall other,
        other <> remote ->
        sendToPeer readyState other payload (fst (channelOpened remote channel c))
          = sendToPeer readyState other payload c) /\
    broadcast readyState payload c
      = map (fun ch => ChannelSend ch payload)
          (filter (fun ch => RTCDataChannel.isOpen (readyState ch))
             (JSMap.values (dataChannels c))).
Proof.
  intros readyState c remote channel payload.
  split.
  { unfold sendToPeer, channelOpened. cbn [fst set_dataChannels dataChannels].
    rewrite get_set_same. reflexivity. }
  split.
  { intros G. unfold sendToPeer. rewrite G. reflexivity. }
  split.
  { intros W. split.
    - unfold sendToPeer, channelClosed. cbn [fst set_dataChannels dataChannels].
      rewrite get_delete_same by exact W. reflexivity.
    - unfold sendToPeer. rewrite (peer_left_forgets_channel c remote W).
      reflexivity. }
  split; [reflexivity |]. split; [reflexivity |].
  split.
  { intros other N. unfold sendToPeer, channelOpened.
    cbn [fst set_dataChannels dataChannels].
    rewrite get_set_other by exact N. reflexivity. }
  unfold broadcast. induction (JSMap.values (dataChannels c)) as [| ch l IH];
    [reflexivity |].
  cbn [flat_map filter]. rewrite IH.
  destruct (RTCDataChannel.isOpen (readyState ch)); reflexivity.
Qed.

Lemma client_channels_witness :
  sendToPeer allOpen "helper" (latency_ping 0 "local") linkedClient
    = [ChannelSend 1 (latency_ping 0 "local")] /\
  sendToPeer allOpen "helper" (latency_ping 0 "local")
    (fst (channelClosed "helper" linkedClient)) = [].
Proof.
  split; [vm_compute; reflexivity |].
  destruct (client_channels allOpen linkedClient "helper" 1%nat (latency_ping 0 "local"))
    as (_ & _ & H & _).
  destruct H as [H _]; [| exact H].
  vm_compute. apply NoDup_cons; [intros [] | apply NoDup_nil].
Defined.

(** ** The engine behind the client *)

(** When the channel to a peer opens, the engine probes it at once: the
    client registers the channel and emits [channel-open], the engine's
    listener answers with [measureLatency], and the ping, stamped with the
    current time and the local peer id, goes out on the channel just
    registered if that channel is open; the engine itself is unchanged. *)
Theorem channel_open_starts_probe :
  forall (gc : GhostClient) (c : GhostClientState) (st : GhostDistributed)
         (remote : string) (channel : nat) (now : Q)
         (readyState : nat -> RTCDataChannel.readyState),
    let opened := channelOpened remote channel c in
    let r := listen gc now (snd opened) st in
    final r = st /\
    transmitted readyState (fst opened) (effects r)
      = (if RTCDataChannel.isOpen (readyState channel)
         then [ChannelSend channel (latency_ping now (getPeerId gc))]
         else []).
Proof.
  intros gc c st remote channel now readyState opened r. subst opened r.
  unfold channelOpened, listen. cbn [fst snd emitted flat_map app forEach listener].
  unfold measureLatency. run_method. split; [reflexivity |].
  cbn [transmitted flat_map app]. unfold sendToPeer. cbn [set_dataChannels dataChannels].
  rewrite get_set_same, app_nil_r. reflexivity.
Qed.

(** A peer that leaves stays in the engine.  After [peer-left] the client
    has no channel for the peer, so whatever the engine addresses to it is
    dropped; yet the list the client emits only feeds [updateDeviceScores],
    which keeps every record, and when all listed peers have a record
    already and the election was settled, the directory, the elected master
    and the running flag are exactly as before.  So a task may still be
    dispatched to the departed peer: [distributeTask] returns true and counts
    it as distributed, and nothing is put on the wire. *)
Theorem departed_peer_stays :
  forall (gc : GhostClient) (c : GhostClientState) (st : GhostDistributed)
         (leaver : string) (now : Q) (readyState : nat -> RTCDataChannel.readyState),
    JSMap.wf (dataChannels c) ->
    let left := handleMessage (peer_left leaver) c in
    let st' := final (listen gc now (snd left) st) in
    (forall payloads : list Message,
        transmitted readyState (fst left) (map (SendToPeer leaver) payloads) = []) /\
    (forall k d, JSMap.get (deviceScores st) k = Some d ->
                 JSMap.get (deviceScores st') k = Some d) /\
    ((forall p, In p (connectedPeers c) ->
                JSMap.has (deviceScores st) (GhostPeer.id p) = true) ->
     electMaster gc st = (tt, st, []) ->
     deviceScores st' = deviceScores st /\
     masterPeerId st' = masterPeerId st /\
     isRunning st' = isRunning st) /\
    (forall task payload,
        effects (distributeTask gc task st') = [SendToPeer leaver payload] ->
        result (distributeTask gc task st') = true /\
        tasksDistributed (metrics (final (distributeTask gc task st')))
          = (tasksDistributed (metrics st') + 1)%Z /\
        transmitted readyState (fst left) (effects (distributeTask gc task st')) = []).
Proof.
  intros gc c st leaver now readyState W left st'.
  assert (JSMap.get (dataChannels (fst left)) leaver = None) as NoCh.
  { apply peer_left_forgets_channel, W. }
  assert (forall payloads,
             transmitted readyState (fst left) (map (SendToPeer leaver) payloads) = [])
    as Dropped.
  { induction payloads as [| m l IH]; [reflexivity |].
    cbn [map transmitted flat_map]. unfold sendToPeer at 1. rewrite NoCh.
    exact IH. }
  assert (snd left
          = (if JSMap.has (peerConnections c) leaver then [PeerConnectionClosed leaver] else [])
            ++ [ClientEmit (peers_updated (connectedPeers (fst left)))]) as Ev.
  { subst left. cbn [handleMessage]. cbv zeta. rewrite closePeerConnection_run.
    reflexivity. }
  assert (listen gc now (snd left) st
          = updateDeviceScores gc (connectedPeers (fst left)) st) as L.
  { unfold listen. rewrite Ev. unfold emitted. rewrite flat_map_app.
    destruct (JSMap.has (peerConnections c) leaver); cbn [flat_map app forEach listener];
      unfold bind, ret; cbn [fst snd];
      destruct (updateDeviceScores gc (connectedPeers (fst left)) st) as [[[] s] e];
      cbn [fst snd]; rewrite app_nil_r; reflexivity. }
  split; [exact Dropped |].
  split.
  { intros k d H. subst st'. rewrite L. apply updateDeviceScores_KeepsRecords, H. }
  split.
  { intros Known Settled. subst st'. rewrite L.
    pose proof (updateDeviceScores_run gc (connectedPeers (fst left)) st) as Run.
    cbv zeta in Run. rewrite Run. clear Run.
    assert (fold_left (insertNew (latencyTests st)) (connectedPeers (fst left))
              (deviceScores st) = deviceScores st) as Same.
    { assert (forall p, In p (connectedPeers (fst left)) ->
                        JSMap.has (deviceScores st) (GhostPeer.id p) = true) as K.
      { intros p Hp. apply Known. subst left. cbn [handleMessage] in Hp. cbv zeta in Hp.
        rewrite closePeerConnection_run in Hp.
        cbn [fst set_dataChannels set_peerConnections set_connectedPeers connectedPeers] in Hp.
        apply filter_In in Hp. tauto. }
      clear - K. induction (connectedPeers (fst left)) as [| p l IH]; [reflexivity |].
      cbn [fold_left]. unfold insertNew at 2. rewrite (K p (or_introl eq_refl)).
      apply IH. intros q Hq. apply K. right. exact Hq. }
    rewrite Same, set_deviceScores_same, Settled.
    unfold final. cbn [fst snd]. repeat split. }
  intros task payload E.
  destruct (isRunning st') eqn:R.
  - rewrite (distributeTask_run gc st' task R) in *.
    destruct (result (findBestDeviceForTask gc
                        (TaskType_name (DistributedTask.type task)) st'))
      as [target |]; unfold result, final, effects in *; cbn [fst snd] in *;
      [| discriminate E].
    split; [reflexivity |]. split; [reflexivity |].
    rewrite E. apply (Dropped [payload]).
  - exfalso. unfold distributeTask in E. revert E. run_method. rewrite R.
    discriminate.
Qed.

Lemma departed_peer_stays_witness :
  let left := handleMessage (peer_left "helper") linkedClient in
  let st' := final (listen localClient 0 (snd left) helperEngine) in
  JSMap.has (deviceScores st') "helper" = true /\
  result (distributeTask localClient renderTask st') = true /\
  transmitted allOpen (fst left) (effects (distributeTask localClient renderTask st')) = [] /\
  transmitted allOpen linkedClient (effects (distributeTask localClient renderTask st'))
    = [ChannelSend 1 (task_assign (taskInfo renderTask))].
Proof.
  cbv zeta.
  assert (JSMap.wf (dataChannels linkedClient)) as W
    by (vm_compute; apply NoDup_cons; [intros [] | apply NoDup_nil]).
  destruct (departed_peer_stays localClient linkedClient helperEngine "helper" 0 allOpen W)
    as (_ & _ & _ & H).
  cbv zeta in H.
  destruct (H renderTask (task_assign (taskInfo renderTask))) as (A & _ & B).
  - vm_compute. reflexivity.
  - split; [vm_compute; reflexivity |]. split; [exact A |]. split; [exact B |].
    vm_compute. reflexivity.
Defined.

(** * Properties of the runtime *)

(** ** The frame loop *)

Lemma isSome_false {A : Type} (o : option A) : GhostRuntime.isSome o = false <-> o = None.
Proof. destruct o; cbn; split; congruence. Qed.

(** A frame callback does nothing at all, and schedules no further frame,
    when the runtime is not running or has no canvas or no context; so the
    callback still pending after [pause] or [stop] ends the loop. *)
Theorem gameLoop_idle :
  forall (now syncNow : Q) (handle : Z) (rt : GhostRuntime.t),
    (GhostRuntime.isRunning rt = false \/ GhostRuntime.canvas rt = None \/
     GhostRuntime.ctx rt = None ->
     GhostRuntime.gameLoop now syncNow handle rt = (rt, [])) /\
    GhostRuntime.gameLoop now syncNow handle (fst (GhostRuntime.pause rt))
      = (fst (GhostRuntime.pause rt), []) /\
    GhostRuntime.gameLoop now syncNow handle (fst (GhostRuntime.stop rt))
      = (fst (GhostRuntime.stop rt), []).
Proof.
  intros now syncNow handle rt.
  assert (forall r, GhostRuntime.isRunning r = false ->
                    GhostRuntime.gameLoop now syncNow handle r = (r, [])) as Idle.
  { intros r H. unfold GhostRuntime.gameLoop. rewrite H. reflexivity. }
  split; [| split].
  - intros [H | [H | H]]; [apply Idle, H | |];
      unfold GhostRuntime.gameLoop; rewrite H; cbn [GhostRuntime.isSome negb];
      rewrite ?orb_true_r; reflexivity.
  - apply Idle. unfold GhostRuntime.pause. cbv zeta.
    cbn [GhostRuntime.set_isRunning GhostRuntime.animationFrameId].
    destruct (GhostRuntime.animationFrameId rt) as [h |]; [| reflexivity].
    destruct (negb (h =? 0)%Z); reflexivity.
  - apply Idle. unfold GhostRuntime.stop, GhostRuntime.pause. cbv zeta.
    cbn [GhostRuntime.set_isRunning GhostRuntime.animationFrameId].
    destruct (GhostRuntime.animationFrameId rt) as [h |]; [| reflexivity].
    destruct (negb (h =? 0)%Z); reflexivity.
Qed.

(** The whole effect of a frame on an active runtime. *)
Lemma gameLoop_active (now syncNow : Q) (handle : Z) (rt : GhostRuntime.t) :
  GhostRuntime.isRunning rt = true ->
  GhostRuntime.canvas rt <> None ->
  GhostRuntime.ctx rt <> None ->
  let deltaTime := now - GhostRuntime.lastFrameTime rt in
  let counted := (GhostRuntime.frameCount rt + 1)%Z in
  let due := JS.geb (now - GhostRuntime.lastFpsUpdate rt) GhostRuntime.fpsUpdateInterval in
  let frames := if due then 0%Z else counted in
  let rate :=
    if due
    then JS.Math_round (inject_Z counted * 1000 / (now - GhostRuntime.lastFpsUpdate rt))
    else GhostRuntime.fps rt in
  let logic :=
    match GhostRuntime.wasmInstance rt with
    | Some {| GhostRuntime.exportsUpdate := true |} => [GhostRuntime.WasmUpdate deltaTime]
    | _ =>
        match GhostRuntime.ctx rt with
        | Some GhostRuntime.context2d => [GhostRuntime.RenderSimulation deltaTime]
        | _ => []
        end
    end in
  let sync :=
    match GhostRuntime.currentGame rt with
    | Some game =>
        if (frames mod 30 =? 0)%Z
        then [GhostRuntime.SyncState (GhostGame.id game) frames syncNow]
        else []
    | None => []
    end in
  GhostRuntime.gameLoop now syncNow handle rt
  = ({| GhostRuntime.currentGame := GhostRuntime.currentGame rt;
        GhostRuntime.loadedBundles := GhostRuntime.loadedBundles rt;
        GhostRuntime.wasmInstance := GhostRuntime.wasmInstance rt;
        GhostRuntime.isRunning := true;
        GhostRuntime.fps := rate;
        GhostRuntime.frameTime := if due then deltaTime else GhostRuntime.frameTime rt;
        GhostRuntime.canvas := GhostRuntime.canvas rt;
        GhostRuntime.ctx := GhostRuntime.ctx rt;
        GhostRuntime.animationFrameId := Some handle;
        GhostRuntime.lastFrameTime := now;
        GhostRuntime.frameCount := frames;
        GhostRuntime.lastFpsUpdate :=
          if due then now else GhostRuntime.lastFpsUpdate rt |},
     (if due then [GhostRuntime.Emit (GhostRuntime.stats rate deltaTime)] else [])
       ++ logic ++ sync ++ [GhostRuntime.RequestAnimationFrame]).
Proof.
  destruct rt as [game bundles wasm running rate0 ft cv cx handle0 lft count lfu].
  cbn [GhostRuntime.isRunning GhostRuntime.canvas GhostRuntime.ctx
       GhostRuntime.lastFrameTime GhostRuntime.frameCount GhostRuntime.lastFpsUpdate
       GhostRuntime.fps GhostRuntime.wasmInstance GhostRuntime.currentGame
       GhostRuntime.frameTime GhostRuntime.loadedBundles].
  intros -> C X. cbv zeta.
  destruct cv as [cv |]; [| contradiction].
  destruct cx as [cx |]; [| contradiction].
  unfold GhostRuntime.gameLoop, GhostRuntime.renderSimulation, GhostRuntime.syncState.
  cbn -[Qminus Qmult Qdiv Qplus JS.Math_round JS.geb Z.modulo Z.add Z.eqb inject_Z
        GhostRuntime.fpsUpdateInterval app].
  destruct (JS.geb (now - lfu) GhostRuntime.fpsUpdateInterval);
    cbn -[Qminus Qmult Qdiv Qplus JS.Math_round Z.modulo Z.add Z.eqb inject_Z app];
    destruct wasm as [[[|]] |]; destruct game as [g |]; destruct cx;
    cbn -[Qminus Qmult Qdiv Qplus JS.Math_round Z.modulo Z.add Z.eqb inject_Z app];
    rewrite ?andb_true_r, ?andb_false_r; reflexivity.
Qed.




(** ** Pause, resume and stop *)

(** [resume] does nothing without a game or without a canvas; otherwise it
    sets the running flag and runs one frame whose time step is the time
    between its two clock readings, then emits [resumed].  [stop] forgets
    the game, the bundles, the WebAssembly instance, the canvas and the
    context and resets the rate, but keeps the frame count and the times;
    after [stop] neither [resume] nor a pending frame does anything.
    [pause] clears the running flag, cancels the pending frame when there
    is a non-zero handle, and always emits [paused]. *)
Theorem pause_resume_stop :
  forall (now loopNow syncNow : Q) (handle : Z) (rt : GhostRuntime.t),
    (GhostRuntime.currentGame rt = None \/ GhostRuntime.canvas rt = None ->
     GhostRuntime.resume now loopNow syncNow handle rt = (rt, [])) /\
    (forall game cv,
        GhostRuntime.currentGame rt = Some game ->
        GhostRuntime.canvas rt = Some cv ->
        GhostRuntime.resume now loopNow syncNow handle rt
        = (fst (GhostRuntime.gameLoop loopNow syncNow handle
                  (GhostRuntime.set_lastFrameTime now (GhostRuntime.set_isRunning true rt))),
           snd (GhostRuntime.gameLoop loopNow syncNow handle
                  (GhostRuntime.set_lastFrameTime now (GhostRuntime.set_isRunning true rt)))
             ++ [GhostRuntime.Emit (GhostRuntime.resumed game)])) /\
    (let halted := fst (GhostRuntime.stop rt) in
     GhostRuntime.currentGame halted = None /\
     GhostRuntime.loadedBundles halted = [] /\
     GhostRuntime.wasmInstance halted = None /\
     GhostRuntime.canvas halted = None /\
     GhostRuntime.ctx halted = None /\
     GhostRuntime.isRunning halted = false /\
     GhostRuntime.fps halted = 0 /\
     GhostRuntime.frameTime halted = 0 /\
     GhostRuntime.frameCount halted = GhostRuntime.frameCount rt /\
     GhostRuntime.lastFpsUpdate halted = GhostRuntime.lastFpsUpdate rt /\
     GhostRuntime.resume now loopNow syncNow handle halted = (halted, []) /\
     GhostRuntime.gameLoop loopNow syncNow handle halted = (halted, []) /\
     exists before,
       snd (GhostRuntime.stop rt)
       = before ++ [GhostRuntime.Emit (GhostRuntime.paused (GhostRuntime.currentGame rt));
                    GhostRuntime.Emit GhostRuntime.stopped]) /\
    (let r := GhostRuntime.pause rt in
     GhostRuntime.isRunning (fst r) = false /\
     (forall h, GhostRuntime.animationFrameId rt = Some h -> h <> 0%Z ->
                snd r = [GhostRuntime.CancelAnimationFrame h;
                         GhostRuntime.Emit (GhostRuntime.paused (GhostRuntime.currentGame rt))] /\
                GhostRuntime.animationFrameId (fst r) = None) /\
     (GhostRuntime.animationFrameId rt = None \/ GhostRuntime.animationFrameId rt = Some 0%Z ->
      r = (GhostRuntime.set_isRunning false rt,
           [GhostRuntime.Emit (GhostRuntime.paused (GhostRuntime.currentGame rt))])) /\
     snd (GhostRuntime.pause (fst r))
       = [GhostRuntime.Emit (GhostRuntime.paused (GhostRuntime.currentGame rt))]).
Proof.
  intros now loopNow syncNow handle rt.
  destruct rt as [game bundles wasm running rate0 ft cv cx handle0 lft count lfu].
  split; [| split; [| split]].
  - cbn. intros [-> | ->]; [reflexivity |]. destruct game; reflexivity.
  - cbn [GhostRuntime.currentGame GhostRuntime.canvas]. intros g c -> ->. reflexivity.
  - cbv zeta.
    set (rt := {| GhostRuntime.currentGame := game; GhostRuntime.loadedBundles := bundles;
                  GhostRuntime.wasmInstance := wasm; GhostRuntime.isRunning := running;
                  GhostRuntime.fps := rate0; GhostRuntime.frameTime := ft;
                  GhostRuntime.canvas := cv; GhostRuntime.ctx := cx;
                  GhostRuntime.animationFrameId := handle0;
                  GhostRuntime.lastFrameTime := lft; GhostRuntime.frameCount := count;
                  GhostRuntime.lastFpsUpdate := lfu |}).
    assert (fst (GhostRuntime.stop rt)
            = {| GhostRuntime.currentGame := None; GhostRuntime.loadedBundles := [];
                 GhostRuntime.wasmInstance := None; GhostRuntime.isRunning := false;
                 GhostRuntime.fps := 0; GhostRuntime.frameTime := 0;
                 GhostRuntime.canvas := None; GhostRuntime.ctx := None;
                 GhostRuntime.animationFrameId :=
                   match handle0 with
                   | Some h => if negb (h =? 0)%Z then None else Some h
                   | None => None
                   end;
                 GhostRuntime.lastFrameTime := lft; GhostRuntime.frameCount := count;
                 GhostRuntime.lastFpsUpdate := lfu |}) as Halted.
    { subst rt. unfold GhostRuntime.stop, GhostRuntime.pause. cbv zeta.
      cbn [GhostRuntime.set_isRunning GhostRuntime.animationFrameId].
      destruct handle0 as [h |]; [destruct (negb (h =? 0)%Z) |]; reflexivity. }
    rewrite Halted.
    cbn [GhostRuntime.currentGame GhostRuntime.loadedBundles GhostRuntime.wasmInstance
         GhostRuntime.canvas GhostRuntime.ctx GhostRuntime.isRunning GhostRuntime.fps
         GhostRuntime.frameTime GhostRuntime.frameCount GhostRuntime.lastFpsUpdate].
    do 10 (split; [reflexivity |]).
    split; [reflexivity |]. split; [reflexivity |].
    subst rt. unfold GhostRuntime.stop, GhostRuntime.pause. cbv zeta.
    cbn [GhostRuntime.set_isRunning GhostRuntime.animationFrameId].
    destruct handle0 as [h |]; [destruct (negb (h =? 0)%Z) |];
      cbn [fst snd GhostRuntime.currentGame GhostRuntime.set_animationFrameId app].
    + exists [GhostRuntime.CancelAnimationFrame h]. reflexivity.
    + exists []. reflexivity.
    + exists []. reflexivity.
  - cbv zeta. unfold GhostRuntime.pause. cbv zeta.
    cbn [GhostRuntime.set_isRunning GhostRuntime.animationFrameId GhostRuntime.currentGame].
    split.
    { destruct handle0 as [h |]; [destruct (negb (h =? 0)%Z) |]; reflexivity. }
    split.
    { intros h [= ->] N. apply Z.eqb_neq in N. rewrite N. cbn. split; reflexivity. }
    split.
    { intros [-> | ->]; reflexivity. }
    destruct handle0 as [h |]; [destruct (negb (h =? 0)%Z) eqn:E |]; cbn; rewrite ?E;
      reflexivity.
Qed.

(** ** Loading a game *)

Lemma storeBundles_run (game : GhostGame.t) (total : Z) (bundles : list GhostBundle.t) :
  forall rt,
    fst (GhostRuntime.storeBundles game total bundles rt)
    = GhostRuntime.set_loadedBundles (storeAll bundles (GhostRuntime.loadedBundles rt)) rt.
Proof.
  induction bundles as [| b bundles IH]; intros rt.
  - destruct rt; reflexivity.
  - cbn [GhostRuntime.storeBundles fst]. rewrite IH. reflexivity.
Qed.



Lemma storeBundles_progress (game : GhostGame.t) (total : Z) (bundles : list GhostBundle.t) :
  forall rt,
    NoDup (map GhostBundle.id bundles) ->
    (forall b, In b bundles ->
               JSMap.get (GhostRuntime.loadedBundles rt) (GhostBundle.id b) = None) ->
    progressOf (snd (GhostRuntime.storeBundles game total bundles rt))
    = map (fun i => inject_Z (JSMap.size (GhostRuntime.loadedBundles rt) + Z.of_nat i)
                    / inject_Z total * 100)
        (seq 1 (length bundles)).
Proof.
  induction bundles as [| b bundles IH]; intros rt N Fresh; [reflexivity |].
  cbn [map] in N. inversion N as [| ? ? Hb Hrest]; subst.
  cbn [GhostRuntime.storeBundles snd progressOf flat_map app length seq map].
  fold (progressOf (snd (GhostRuntime.storeBundles game total bundles
          (GhostRuntime.set_loadedBundles
             (JSMap.set (GhostRuntime.loadedBundles rt) (GhostBundle.id b) b) rt)))).
  assert (JSMap.size (JSMap.set (GhostRuntime.loadedBundles rt) (GhostBundle.id b) b)
          = (JSMap.size (GhostRuntime.loadedBundles rt) + 1)%Z) as Sz.
  { unfold JSMap.size.
    rewrite <- (length_map fst (JSMap.set _ _ _)),
      <- (length_map fst (GhostRuntime.loadedBundles rt)).
    pose proof (keys_set (GhostRuntime.loadedBundles rt) (GhostBundle.id b) b) as K.
    unfold JSMap.keys in K. rewrite K.
    assert (JSMap.has (GhostRuntime.loadedBundles rt) (GhostBundle.id b) = false) as H
      by (apply has_false_get, Fresh; left; reflexivity).
    rewrite H, length_app. cbn [length]. lia. }
  rewrite IH.
  - cbn [GhostRuntime.set_loadedBundles GhostRuntime.loadedBundles]. rewrite Sz.
    f_equal.
    rewrite <- (seq_shift (length bundles) 1), map_map. apply map_ext. intros i.
    replace (JSMap.size (GhostRuntime.loadedBundles rt) + 1 + Z.of_nat i)%Z
      with (JSMap.size (GhostRuntime.loadedBundles rt) + Z.of_nat (S i))%Z by lia.
    reflexivity.
  - exact Hrest.
  - intros x Hx. cbn [GhostRuntime.set_loadedBundles GhostRuntime.loadedBundles].
    rewrite get_set_other.
    + apply Fresh. right. exact Hx.
    + intros E. apply Hb. rewrite <- E. apply in_map, Hx.
Qed.



(** ** Starting a game *)

Lemma start_run (canvasElement : GhostRuntime.Canvas) (kind : GhostRuntime.ContextKind)
    (instantiate : list Byte.byte -> option GhostRuntime.WasmInstance)
    (now loopNow syncNow : Q) (handle : Z) (rt : GhostRuntime.t) (game : GhostGame.t) :
  GhostRuntime.currentGame rt = Some game ->
  let instance := entryInstance instantiate game rt in
  let frame :=
    GhostRuntime.gameLoop loopNow syncNow handle (prepared canvasElement kind instance now rt) in
  GhostRuntime.start canvasElement (Some kind) instantiate now loopNow syncNow handle rt
  = (None, fst frame,
     GhostRuntime.Emit
       (GhostRuntime.started game
          (if GhostRuntime.isSome instance
           then GhostRuntime.wasm_mode else GhostRuntime.simulation_mode))
       :: snd frame).
Proof.
  destruct rt as [g bundles wasm running rate0 ft cv cx handle0 lft count lfu].
  cbn [GhostRuntime.currentGame]. intros ->. cbv zeta.
  unfold GhostRuntime.start, entryInstance, prepared.
  cbn [GhostRuntime.currentGame GhostRuntime.loadedBundles GhostRuntime.set_canvas
       GhostRuntime.set_ctx GhostRuntime.wasmInstance GhostRuntime.isRunning
       GhostRuntime.fps GhostRuntime.frameTime GhostRuntime.canvas GhostRuntime.ctx
       GhostRuntime.animationFrameId GhostRuntime.lastFrameTime GhostRuntime.frameCount
       GhostRuntime.lastFpsUpdate].
  destruct (JSMap.get bundles (GhostGame.entryPoint game)) as [[? ? ? ? ? [[| byte bytes] |] ?] |];
    cbn [GhostBundle.data length Nat.ltb Nat.leb];
    try destruct (instantiate (byte :: bytes)) as [instance |];
    reflexivity.
Qed.



(** ** The Merkle root *)

Section Merkle.

Variable calculateHash : list Byte.byte -> string.
Variable encode : string -> list Byte.byte.


Lemma pairs_length (hashes : list string) :
  (2 <= length hashes ->
   length (GhostCompiler.pairs calculateHash encode hashes) < length hashes)%nat /\
  (length (GhostCompiler.pairs calculateHash encode hashes) <= length hashes)%nat.
Proof.
  assert (forall n (l : list string), (length l <= n)%nat ->
            ((2 <= length l ->
              length (GhostCompiler.pairs calculateHash encode l) < length l)%nat /\
             (length (GhostCompiler.pairs calculateHash encode l) <= length l)%nat)) as H.
  { induction n as [| n IH]; intros l L.
    - destruct l; [cbn; lia | cbn in L; lia].
    - destruct l as [| a [| b rest]]; [cbn; lia | cbn; lia |].
      cbn [length] in L.
      destruct (IH rest ltac:(lia)) as [_ I].
      change (GhostCompiler.pairs calculateHash encode (a :: b :: rest)) with
        (calculateHash (encode (a ++ (if truthy (Some b) then b else a))%string)
           :: GhostCompiler.pairs calculateHash encode rest).
      cbn [length]. lia. }
  exact (H (length hashes) hashes (le_n _)).
Qed.

Lemma merkle_enough (fuel : nat) :
  forall hashes,
    (length hashes <= fuel)%nat ->
    exists root,
    forall more,
      (fuel <= more)%nat ->
      GhostCompiler.merkle calculateHash encode more hashes = Some root.
Proof.
  induction fuel as [| fuel IH]; intros hashes L.
  - destruct hashes; [| cbn in L; lia]. exists ""%string. intros [|]; reflexivity.
  - destruct hashes as [| a [| b rest]].
    + exists ""%string. intros [|]; reflexivity.
    + exists a. intros [|]; reflexivity.
    + destruct (IH (GhostCompiler.pairs calculateHash encode (a :: b :: rest))) as [root R].
      { pose proof (proj1 (pairs_length (a :: b :: rest))) as P.
        cbn [length] in *. lia. }
      exists root. intros [| more] M; [lia |].
      change (GhostCompiler.merkle calculateHash encode (S more) (a :: b :: rest))
        with (GhostCompiler.merkle calculateHash encode more
                (GhostCompiler.pairs calculateHash encode (a :: b :: rest))).
      apply R. lia.
Qed.

Lemma merkle_fuel (hashes : list string) (more : nat) :
  (length hashes <= more)%nat ->
  GhostCompiler.merkle calculateHash encode more hashes
  = GhostCompiler.calculateMerkleRoot calculateHash encode hashes.
Proof.
  intros L. destruct (merkle_enough (length hashes) hashes (le_n _)) as [root R].
  unfold GhostCompiler.calculateMerkleRoot.
  rewrite (R more L), (R _ (le_n _)). reflexivity.
Qed.

Lemma merkle_step (hashes : list string) :
  (2 <= length hashes)%nat ->
  GhostCompiler.calculateMerkleRoot calculateHash encode hashes
  = GhostCompiler.calculateMerkleRoot calculateHash encode
      (GhostCompiler.pairs calculateHash encode hashes).
Proof.
  intros L. destruct hashes as [| a [| b rest]]; [cbn in L; lia | cbn in L; lia |].
  unfold GhostCompiler.calculateMerkleRoot at 1.
  cbn [length].
  change (GhostCompiler.merkle calculateHash encode (S (S (length rest))) (a :: b :: rest))
    with (GhostCompiler.merkle calculateHash encode (S (length rest))
            (GhostCompiler.pairs calculateHash encode (a :: b :: rest))).
  apply merkle_fuel.
  pose proof (proj1 (pairs_length (a :: b :: rest))) as P. cbn [length] in *. lia.
Qed.

Lemma pairs_app (front back : list string) :
  Nat.even (length front) = true ->
  GhostCompiler.pairs calculateHash encode (front ++ back)
  = GhostCompiler.pairs calculateHash encode front
    ++ GhostCompiler.pairs calculateHash encode back.
Proof.
  assert (forall n (l : list string), (length l <= n)%nat ->
            Nat.even (length l) = true ->
            GhostCompiler.pairs calculateHash encode (l ++ back)
            = GhostCompiler.pairs calculateHash encode l
              ++ GhostCompiler.pairs calculateHash encode back) as H.
  { induction n as [| n IH]; intros l L E.
    - destruct l; [reflexivity | cbn in L; lia].
    - destruct l as [| a [| b rest]]; [reflexivity | discriminate E |].
      cbn [length] in L. cbn [length Nat.even] in E.
      change (GhostCompiler.pairs calculateHash encode ((a :: b :: rest) ++ back))
        with (calculateHash (encode (a ++ (if truthy (Some b) then b else a))%string)
                :: GhostCompiler.pairs calculateHash encode (rest ++ back)).
      rewrite (IH rest ltac:(lia) E). reflexivity. }
  intros E. exact (H (length front) front (le_n _) E).
Qed.

Lemma merkle_repeat_last (hashes : list string) (last : string) :
  hashes <> [] ->
  Nat.even (length hashes) = true ->
  GhostCompiler.calculateMerkleRoot calculateHash encode (hashes ++ [last; last])
  = GhostCompiler.calculateMerkleRoot calculateHash encode (hashes ++ [last]).
Proof.
  intros N E.
  assert (2 <= length hashes)%nat as L.
  { destruct hashes as [| a [| b rest]]; [contradiction | discriminate E | cbn; lia]. }
  rewrite merkle_step by (rewrite length_app; cbn [length]; lia).
  rewrite (merkle_step (hashes ++ [last])) by (rewrite length_app; cbn [length]; lia).
  rewrite !pairs_app by exact E.
  cbn. destruct (String.eqb last ""); reflexivity.
Qed.

(** [calculateMerkleRoot] returns for every list of hashes, and from then
    on more depth changes nothing.  The root of no hash is the empty string
    and the root of one hash is that hash, unhashed.  The last hash of a
    list of odd length is paired with itself, so from three hashes on the
    list with its last hash repeated has the same root; and an empty hash
    in a right-hand place is read as a missing one. *)
Theorem calculateMerkleRoot_shape :
  forall hashes : list string,
    (exists root,
        GhostCompiler.calculateMerkleRoot calculateHash encode hashes = Some root /\
        forall fuel,
          (length hashes <= fuel)%nat ->
          GhostCompiler.merkle calculateHash encode fuel hashes = Some root) /\
    GhostCompiler.calculateMerkleRoot calculateHash encode [] = Some ""%string /\
    (forall hash, GhostCompiler.calculateMerkleRoot calculateHash encode [hash] = Some hash) /\
    (forall leftHash rightHash,
        rightHash <> ""%string ->
        GhostCompiler.calculateMerkleRoot calculateHash encode [leftHash; rightHash]
        = Some (calculateHash (encode (leftHash ++ rightHash)%string))) /\
    (forall last,
        hashes <> [] ->
        Nat.even (length hashes) = true ->
        GhostCompiler.calculateMerkleRoot calculateHash encode (hashes ++ [last; last])
        = GhostCompiler.calculateMerkleRoot calculateHash encode (hashes ++ [last])) /\
    (forall leftHash,
        Nat.even (length hashes) = true ->
        GhostCompiler.calculateMerkleRoot calculateHash encode (hashes ++ [leftHash; ""%string])
        = GhostCompiler.calculateMerkleRoot calculateHash encode (hashes ++ [leftHash; leftHash])).
Proof.
  intros hashes. split; [| split; [| split; [| split; [| split]]]].
  - destruct (merkle_enough (length hashes) hashes (le_n _)) as [root R].
    exists root. split; [exact (R _ (le_n _)) | exact R].
  - reflexivity.
  - reflexivity.
  - intros leftHash rightHash N. unfold GhostCompiler.calculateMerkleRoot.
    cbn. destruct (String.eqb rightHash "") eqn:E; [| reflexivity].
    apply String.eqb_eq in E. contradiction.
  - intros last N E. apply merkle_repeat_last; assumption.
  - intros leftHash E.
    rewrite merkle_step by (rewrite length_app; cbn [length]; lia).
    rewrite (merkle_step (hashes ++ [leftHash; leftHash]))
      by (rewrite length_app; cbn [length]; lia).
    rewrite !pairs_app by exact E.
    cbn. destruct (String.eqb leftHash ""); reflexivity.
Qed.

End Merkle.

(** ** Cutting a file into chunks *)

Lemma append_cancel (prefix a b : string) :
  (prefix ++ a)%string = (prefix ++ b)%string -> a = b.
Proof.
  induction prefix as [| c prefix IH]; cbn; intros E; [exact E |].
  injection E as E. exact (IH E).
Qed.

Lemma chunkId_injective (gameId : string) (i j : nat) :
  GhostCompiler.chunkId gameId i = GhostCompiler.chunkId gameId j -> i = j.
Proof.
  unfold GhostCompiler.chunkId. intros E.
  apply append_cancel, append_cancel in E.
  apply DecimalNat.Unsigned.to_uint_inj.
  apply (f_equal DecimalString.NilEmpty.uint_of_string) in E.
  rewrite !DecimalString.NilEmpty.usu in E. injection E as E. exact E.
Qed.

Lemma chunkCount_bounds (chunksize byteLength : nat) :
  (0 < chunksize)%nat ->
  (byteLength <= chunkCount chunksize byteLength * chunksize)%nat /\
  (forall k, (k < chunkCount chunksize byteLength)%nat -> (k * chunksize < byteLength)%nat).
Proof.
  intros P. unfold chunkCount.
  set (x := inject_Z (Z.of_nat byteLength) / inject_Z (Z.of_nat chunksize)).
  assert (0 < inject_Z (Z.of_nat chunksize)) as PS.
  { change 0 with (inject_Z 0). rewrite <- Zlt_Qlt. lia. }
  assert (x * inject_Z (Z.of_nat chunksize) == inject_Z (Z.of_nat byteLength)) as X.
  { subst x. field. intros E. rewrite E in PS. exact (Qlt_irrefl _ PS). }
  pose proof (Qle_ceiling x) as Up. pose proof (Qceiling_lt x) as Down.
  assert (Z.of_nat byteLength <= Qceiling x * Z.of_nat chunksize)%Z as F1.
  { rewrite Zle_Qle, inject_Z_mult, <- X.
    apply Qmult_le_compat_r; [exact Up | apply Qlt_le_weak, PS]. }
  assert ((Qceiling x - 1) * Z.of_nat chunksize < Z.of_nat byteLength)%Z as F2.
  { rewrite Zlt_Qlt, inject_Z_mult, <- X.
    apply Qmult_lt_compat_r; [exact PS | exact Down]. }
  assert (0 <= Qceiling x)%Z as C0 by nia.
  split.
  - nia.
  - intros k K. nia.
Qed.


Section Chunks.

Variable calculateHash : list Byte.byte -> string.
Variable encode : string -> list Byte.byte.
Variable chunksize : nat.
Variable file : list Byte.byte.
Variable gameId : string.

Lemma slice_chunk (i : nat) :
  GhostCompiler.slice (i * chunksize)
    (Nat.min (i * chunksize + chunksize) (length file)) file
  = firstn chunksize (skipn (i * chunksize) file).
Proof.
  unfold GhostCompiler.slice.
  destruct (Nat.le_gt_cases (i * chunksize + chunksize) (length file)) as [L | L].
  - rewrite Nat.min_l by exact L. f_equal. lia.
  - rewrite Nat.min_r by lia.
    rewrite (firstn_all2 (n := chunksize)) by (rewrite length_skipn; lia).
    apply firstn_all2. rewrite length_skipn. lia.
Qed.

Lemma chunkLoop_run (totalChunks remaining : nat) :
  forall i,
    GhostCompiler.chunkLoop calculateHash chunksize file gameId totalChunks remaining i
    = (map (chunkAt calculateHash chunksize file gameId) (seq i remaining),
       map (fun k => inject_Z (Z.of_nat k) / inject_Z (Z.of_nat totalChunks) * 100)
         (seq (S i) remaining)).
Proof.
  induction remaining as [| remaining IH]; intros i; [reflexivity |].
  cbn [GhostCompiler.chunkLoop seq map]. rewrite IH. cbn [fst snd].
  rewrite slice_chunk, Nat.add_1_r. reflexivity.
Qed.


Lemma compileWith_run (gameName : string) :
  let total := chunkCount chunksize (length file) in
  let bundles := map (chunkAt calculateHash chunksize file gameId) (seq 0 total) in
  exists integrity,
    GhostCompiler.calculateMerkleRoot calculateHash encode (map GhostBundle.hash bundles)
    = Some integrity /\
    GhostCompiler.compileWith calculateHash encode chunksize file gameName gameId
    = Some ({| GhostGame.id := gameId;
               GhostGame.originalName := gameName;
               GhostGame.bundles := map GhostBundle.id bundles;
               GhostGame.entryPoint :=
                 match bundles with
                 | first :: _ => GhostBundle.id first
                 | [] => ""%string
                 end;
               GhostGame.totalSize := inject_Z (Z.of_nat (length file));
               GhostGame.status := GhostGame.ready;
               GhostGame.integrity := integrity |},
            bundles, steps total).
Proof.
  cbv zeta.
  set (hashes := map GhostBundle.hash
                   (map (chunkAt calculateHash chunksize file gameId)
                      (seq 0 (chunkCount chunksize (length file))))).
  destruct (merkle_enough calculateHash encode (length hashes) hashes (le_n _))
    as [integrity R].
  exists integrity. split; [exact (R _ (le_n _)) |].
  unfold GhostCompiler.compileWith. fold (chunkCount chunksize (length file)).
  cbv zeta. rewrite chunkLoop_run. cbn [fst snd]. fold hashes.
  unfold GhostCompiler.calculateMerkleRoot. rewrite (R _ (le_n _)). reflexivity.
Qed.


Lemma chunk_ids (total : nat) :
  NoDup (map GhostBundle.id
           (map (chunkAt calculateHash chunksize file gameId) (seq 0 total))).
Proof.
  rewrite map_map. cbn [chunkAt GhostBundle.id].
  apply NoDup_map_NoDup_ForallPairs; [| apply seq_NoDup].
  intros i j _ _ E. exact (chunkId_injective gameId i j E).
Qed.


End Chunks.

(** ** From a file to a running game *)

Lemma chunksizeBytes_positive : (0 < GhostCompiler.chunksizeBytes)%nat.
Proof. unfold GhostCompiler.chunksizeBytes. lia. Qed.

Lemma set_fresh {V : Type} (m : JSMap.t V) (k : string) (v : V) :
  JSMap.get m k = None -> JSMap.set m k v = m ++ [(k, v)].
Proof.
  induction m as [| [k' v'] m IH]; cbn; intros H; [reflexivity |].
  destruct (String.eqb k' k); [discriminate H |]. rewrite (IH H). reflexivity.
Qed.

Lemma get_app_fresh {V : Type} (m m' : JSMap.t V) (k : string) :
  JSMap.get m k = None -> JSMap.get (m ++ m') k = JSMap.get m' k.
Proof.
  induction m as [| [k' v'] m IH]; cbn; intros H; [reflexivity |].
  destruct (String.eqb k' k); [discriminate H | exact (IH H)].
Qed.

Lemma storeAll_fresh (bundles : list GhostBundle.t) :
  forall m,
    NoDup (map GhostBundle.id bundles) ->
    (forall b, In b bundles -> JSMap.get m (GhostBundle.id b) = None) ->
    storeAll bundles m = m ++ map (fun b => (GhostBundle.id b, b)) bundles.
Proof.
  induction bundles as [| x bundles IH]; intros m N Fresh.
  - cbn. rewrite app_nil_r. reflexivity.
  - cbn [map] in N. inversion N as [| ? ? Hx Hrest]; subst.
    cbn [storeAll fold_left map].
    fold (storeAll bundles (JSMap.set m (GhostBundle.id x) x)).
    rewrite set_fresh by (apply Fresh; left; reflexivity).
    rewrite IH.
    + rewrite <- app_assoc. reflexivity.
    + exact Hrest.
    + intros b Hb. rewrite get_app_fresh by (apply Fresh; right; exact Hb).
      cbn. destruct (String.eqb (GhostBundle.id x) (GhostBundle.id b)) eqn:E;
        [| reflexivity].
      apply String.eqb_eq in E. exfalso. apply Hx. rewrite E. apply in_map, Hb.
Qed.

Section Compile.

Variable calculateHash : list Byte.byte -> string.
Variable encode : string -> list Byte.byte.


End Compile.

(** ** The object store: the order of the keys *)

Lemma string_compare_refl (s : string) : String.compare s s = Eq.
Proof.
  induction s as [| c s IH]; cbn; [reflexivity |].
  unfold Ascii.compare. rewrite N.compare_refl. exact IH.
Qed.

Lemma string_compare_prefix (p a b : string) :
  String.compare (p ++ a)%string (p ++ b)%string = String.compare a b.
Proof.
  induction p as [| c p IH]; cbn; [reflexivity |].
  unfold Ascii.compare. rewrite N.compare_refl. exact IH.
Qed.

Lemma string_lt_trans (a b c : string) :
  String.compare a b = Lt -> String.compare b c = Lt -> String.compare a c = Lt.
Proof.
  revert b c. induction a as [| x a IH]; intros [| y b] [| z c]; cbn;
    try congruence.
  unfold Ascii.compare.
  destruct (N.compare_spec (Ascii.N_of_ascii x) (Ascii.N_of_ascii y)) as [E1 | L1 | G1];
    destruct (N.compare_spec (Ascii.N_of_ascii y) (Ascii.N_of_ascii z)) as [E2 | L2 | G2];
    try discriminate; intros H1 H2.
  - rewrite E1, E2, N.compare_refl. exact (IH b c H1 H2).
  - rewrite E1. apply N.compare_lt_iff in L2. rewrite L2. reflexivity.
  - rewrite <- E2. apply N.compare_lt_iff in L1. rewrite L1. reflexivity.
  - assert (Ascii.N_of_ascii x < Ascii.N_of_ascii z)%N as L by lia.
    apply N.compare_lt_iff in L. rewrite L. reflexivity.
Qed.

Lemma string_lt_irrefl (a : string) : String.compare a a <> Lt.
Proof. rewrite string_compare_refl. discriminate. Qed.

Lemma string_gt_lt (a b : string) : String.compare a b = Gt -> String.compare b a = Lt.
Proof. intros H. rewrite String.compare_antisym, H. reflexivity. Qed.

Lemma chunkId_compare (gameId : string) (i j : nat) :
  String.compare (GhostCompiler.chunkId gameId i) (GhostCompiler.chunkId gameId j)
  = String.compare (DecimalString.NilEmpty.string_of_uint (Nat.to_uint i))
      (DecimalString.NilEmpty.string_of_uint (Nat.to_uint j)).
Proof. unfold GhostCompiler.chunkId. rewrite !string_compare_prefix. reflexivity. Qed.

(** The names of the first ten chunks are in the order of the chunks, and
    the name of chunk 10 comes before that of chunk 2. *)
Lemma chunkId_digits (gameId : string) (i j : nat) :
  (i < j)%nat -> (j < 10)%nat ->
  String.compare (GhostCompiler.chunkId gameId i) (GhostCompiler.chunkId gameId j) = Lt.
Proof.
  intros L B. rewrite chunkId_compare.
  do 10 (destruct j as [| j]; [do 10 (destruct i as [| i]; [reflexivity || lia |]); lia |]).
  lia.
Qed.

Lemma chunkId_ten_two (gameId : string) :
  String.compare (GhostCompiler.chunkId gameId 10) (GhostCompiler.chunkId gameId 2) = Lt.
Proof. rewrite chunkId_compare. reflexivity. Qed.

(** ** The object store: [put] and [getAll] *)

Lemma put_In (record x : IDB.StoredBundle) (store : IDB.ObjectStore) :
  In x (IDB.put record store) -> x = record \/ In x store.
Proof.
  induction store as [| held rest IH]; cbn.
  - intros [<- | []]. left. reflexivity.
  - destruct (String.compare (IDB.id record) (IDB.id held)); cbn.
    + intros [<- | H]; auto.
    + intros [<- | [<- | H]]; auto.
    + intros [<- | H]; [auto |]. destruct (IH H); auto.
Qed.

Lemma put_sorted (record : IDB.StoredBundle) (store : IDB.ObjectStore) :
  StronglySorted recordBefore store ->
  StronglySorted recordBefore (IDB.put record store).
Proof.
  induction 1 as [| held rest S IH F]; cbn.
  - constructor; constructor.
  - destruct (String.compare (IDB.id record) (IDB.id held)) eqn:C.
    + apply String.compare_eq_iff in C. constructor; [exact S |].
      apply Forall_forall. intros y Hy. unfold recordBefore. rewrite C.
      exact (proj1 (Forall_forall _ _) F y Hy).
    + constructor; [constructor; assumption |].
      constructor; [exact C |].
      apply Forall_forall. intros y Hy. unfold recordBefore.
      apply (string_lt_trans _ (IDB.id held)); [exact C |].
      exact (proj1 (Forall_forall _ _) F y Hy).
    + constructor; [exact IH |].
      apply Forall_forall. intros y Hy. apply put_In in Hy. destruct Hy as [-> | Hy].
      * apply string_gt_lt, C.
      * exact (proj1 (Forall_forall _ _) F y Hy).
Qed.

Lemma put_fresh (record : IDB.StoredBundle) (store : IDB.ObjectStore) :
  (forall x, In x store -> IDB.id x <> IDB.id record) ->
  Permutation (record :: store) (IDB.put record store).
Proof.
  induction store as [| held rest IH]; cbn; intros F; [reflexivity |].
  destruct (String.compare (IDB.id record) (IDB.id held)) eqn:C.
  - apply String.compare_eq_iff in C. exfalso.
    apply (F held); [left; reflexivity | symmetry; exact C].
  - reflexivity.
  - rewrite perm_swap. apply perm_skip, IH. intros x Hx. apply F. right. exact Hx.
Qed.

Lemma getAll_all (gameId : string) (store : IDB.ObjectStore) :
  Forall (fun r => IDB.gameId r = gameId) store -> IDB.getAll gameId store = store.
Proof.
  induction 1 as [| r rest H F IH]; cbn; [reflexivity |].
  rewrite H, String.eqb_refl. unfold IDB.getAll in IH. rewrite IH. reflexivity.
Qed.

Lemma bundleOf_recordOf (bundle : GhostBundle.t) : bundleOf (recordOf bundle) = bundle.
Proof. destruct bundle; reflexivity. Qed.

Lemma storeBundles_cons (bundle : GhostBundle.t) (bundles : list GhostBundle.t)
    (store : IDB.ObjectStore) :
  GhostCompiler.storeBundles (bundle :: bundles) store
  = GhostCompiler.storeBundles bundles (IDB.put (recordOf bundle) store).
Proof. reflexivity. Qed.

Lemma storeBundles_sorted (bundles : list GhostBundle.t) :
  forall store,
    StronglySorted recordBefore store ->
    StronglySorted recordBefore (GhostCompiler.storeBundles bundles store).
Proof.
  induction bundles as [| b bundles IH]; intros store S; [exact S |].
  rewrite storeBundles_cons. apply IH, put_sorted, S.
Qed.

Lemma storeBundles_fresh (bundles : list GhostBundle.t) :
  forall store,
    NoDup (map GhostBundle.id bundles) ->
    (forall b x, In b bundles -> In x store -> IDB.id x <> GhostBundle.id b) ->
    Permutation (store ++ map recordOf bundles) (GhostCompiler.storeBundles bundles store).
Proof.
  induction bundles as [| b bundles IH]; intros store N F.
  - cbn. rewrite app_nil_r. reflexivity.
  - cbn [map] in N. inversion N as [| ? ? Hb Hrest]; subst.
    rewrite storeBundles_cons. cbn [map].
    rewrite <- Permutation_middle.
    rewrite <- IH.
    + change (recordOf b :: store ++ map recordOf bundles)
        with ((recordOf b :: store) ++ map recordOf bundles).
      apply Permutation_app_tail, put_fresh.
      intros x Hx. apply (F b x); [left; reflexivity | exact Hx].
    + exact Hrest.
    + intros b' x Hb' Hx. apply put_In in Hx. destruct Hx as [-> | Hx].
      * cbn. intros E. apply Hb. rewrite E. apply in_map, Hb'.
      * apply (F b' x); [right; exact Hb' | exact Hx].
Qed.

Lemma sorted_map_seq {A : Type} (R : A -> A -> Prop) (f : nat -> A) (n : nat) :
  forall a,
    (forall i j, (a <= i)%nat -> (i < j)%nat -> (j < a + n)%nat -> R (f i) (f j)) ->
    StronglySorted R (map f (seq a n)).
Proof.
  induction n as [| n IH]; intros a H; cbn; constructor.
  - apply IH. intros i j Hi Hij Hj. apply H; lia.
  - apply Forall_forall. intros y Hy. apply in_map_iff in Hy.
    destruct Hy as (j & <- & Hj). apply in_seq in Hj. apply H; lia.
Qed.

Lemma sorted_map {A B : Type} (R : A -> A -> Prop) (R' : B -> B -> Prop) (f : A -> B)
    (l : list A) :
  (forall a b, R a b -> R' (f a) (f b)) ->
  StronglySorted R l -> StronglySorted R' (map f l).
Proof.
  intros H. induction 1 as [| x l S IH F]; cbn; constructor; [exact IH |].
  apply Forall_forall. intros y Hy. apply in_map_iff in Hy.
  destruct Hy as (x' & <- & Hx'). apply H. exact (proj1 (Forall_forall _ _) F x' Hx').
Qed.

(** In a list in strict order, what is smaller comes first. *)
Lemma sorted_splits {A : Type} (R : A -> A -> Prop) (l : list A) (a b : A) :
  (forall x, ~ R x x) ->
  (forall x y z, R x y -> R y z -> R x z) ->
  StronglySorted R l -> In a l -> In b l -> R a b ->
  exists l1 l2 l3, l = l1 ++ a :: l2 ++ b :: l3.
Proof.
  intros Irr Tr S. induction S as [| x l S IH F]; intros Ha Hb Rab; [destruct Ha |].
  destruct Ha as [-> | Ha].
  - destruct Hb as [-> | Hb]; [destruct (Irr _ Rab) |].
    apply in_split in Hb. destruct Hb as (m1 & m2 & ->).
    exists [], m1, m2. reflexivity.
  - destruct Hb as [-> | Hb].
    + exfalso. apply (Irr a). apply (Tr a b a Rab).
      exact (proj1 (Forall_forall _ _) F a Ha).
    + destruct (IH Ha Hb Rab) as (l1 & l2 & l3 & ->).
      exists (x :: l1), l2, l3. reflexivity.
Qed.

Lemma sorted_filter {A : Type} (R : A -> A -> Prop) (f : A -> bool) (l : list A) :
  StronglySorted R l -> StronglySorted R (filter f l).
Proof.
  induction 1 as [| x l S IH F]; cbn; [constructor |].
  destruct (f x); [| exact IH].
  constructor; [exact IH |].
  apply Forall_forall. intros y Hy. apply filter_In in Hy.
  exact (proj1 (Forall_forall _ _) F y (proj1 Hy)).
Qed.

Lemma filter_permutation {A : Type} (f : A -> bool) (l l' : list A) :
  Permutation l l' -> Permutation (filter f l) (filter f l').
Proof.
  induction 1 as [| x l l' P IH | x y l | l l' l'' P1 IH1 P2 IH2]; cbn.
  - constructor.
  - destruct (f x); [apply perm_skip |]; exact IH.
  - destruct (f x), (f y); try reflexivity. apply perm_swap.
  - exact (perm_trans IH1 IH2).
Qed.

(** A list in strict order is the only one of its permutations that is. *)
Lemma sorted_unique {A : Type} (R : A -> A -> Prop) :
  (forall x, ~ R x x) ->
  (forall x y z, R x y -> R y z -> R x z) ->
  forall l l',
    StronglySorted R l -> StronglySorted R l' -> Permutation l l' -> l = l'.
Proof.
  intros Irr Tr. induction l as [| x l IH]; intros l' S S' P.
  - apply Permutation_nil in P. symmetry. exact P.
  - destruct l' as [| y l']; [apply Permutation_sym, Permutation_nil in P; discriminate |].
    inversion S as [| ? ? Sl Fx]; inversion S' as [| ? ? Sl' Fy]; subst.
    assert (x = y) as E.
    { assert (In x (y :: l')) as Hx
        by (apply (Permutation_in _ P); left; reflexivity).
      assert (In y (x :: l)) as Hy
        by (apply (Permutation_in _ (Permutation_sym P)); left; reflexivity).
      destruct Hx as [E | Hx]; [symmetry; exact E |].
      destruct Hy as [E | Hy]; [exact E |].
      exfalso. apply (Irr x). apply (Tr x y x).
      - exact (proj1 (Forall_forall _ _) Fx y Hy).
      - exact (proj1 (Forall_forall _ _) Fy x Hx). }
    subst y. f_equal. apply IH; [exact Sl | exact Sl' |].
    exact (Permutation_cons_inv P).
Qed.

Lemma getAll_none (gameId : string) (store : IDB.ObjectStore) :
  (forall r, In r store -> IDB.gameId r <> gameId) -> IDB.getAll gameId store = [].
Proof.
  induction store as [| r rest IH]; intros H; [reflexivity |].
  cbn. destruct (String.eqb_spec (IDB.gameId r) gameId) as [E | _].
  - destruct (H r (or_introl eq_refl) E).
  - apply IH. intros x Hx. apply H. right. exact Hx.
Qed.

(** What is read back is what was stored, in the order of the names. *)
Lemma readBack_sorted (gameId : string) (bundles : list GhostBundle.t)
    (store : IDB.ObjectStore) :
  NoDup (map GhostBundle.id bundles) ->
  Forall (fun b => GhostBundle.gameId b = gameId) bundles ->
  StronglySorted recordBefore store ->
  (forall r, In r store -> IDB.gameId r <> gameId) ->
  (forall b r, In b bundles -> In r store -> IDB.id r <> GhostBundle.id b) ->
  Permutation (readBack gameId bundles store) bundles /\
  StronglySorted keyBefore (readBack gameId bundles store).
Proof.
  intros N G S Other Fresh.
  pose proof (storeBundles_fresh bundles store N Fresh) as P.
  unfold readBack, GhostCompiler.getAllBundlesForGame. fold bundleOf.
  split.
  - unfold IDB.getAll.
    rewrite <- (filter_permutation _ _ _ P), filter_app.
    fold (IDB.getAll gameId store). fold (IDB.getAll gameId (map recordOf bundles)).
    rewrite (getAll_none gameId store Other). cbn [app].
    rewrite getAll_all.
    + rewrite map_map.
      rewrite (map_ext _ (fun b => b) bundleOf_recordOf), map_id. reflexivity.
    + apply Forall_forall. intros r Hr. apply in_map_iff in Hr.
      destruct Hr as (b & <- & Hb). exact (proj1 (Forall_forall _ _) G b Hb).
  - apply (sorted_map recordBefore); [intros a b H; exact H |].
    apply sorted_filter, storeBundles_sorted, S.
Qed.

(** Up to ten chunks are read back in the order of the chunks. *)
Lemma readBack_in_order (gameId : string) (f : nat -> GhostBundle.t) (total : nat)
    (store : IDB.ObjectStore) :
  (forall k, GhostBundle.id (f k) = GhostCompiler.chunkId gameId k) ->
  Permutation (readBack gameId (map f (seq 0 total)) store) (map f (seq 0 total)) ->
  StronglySorted keyBefore (readBack gameId (map f (seq 0 total)) store) ->
  (total <= 10)%nat ->
  readBack gameId (map f (seq 0 total)) store = map f (seq 0 total).
Proof.
  intros Id P S T.
  apply (sorted_unique keyBefore).
  - intros x. apply string_lt_irrefl.
  - intros x y z. apply string_lt_trans.
  - exact S.
  - apply sorted_map_seq. intros i j _ Hij Hj. unfold keyBefore.
    rewrite !Id. apply chunkId_digits; lia.
  - exact P.
Qed.

Lemma get_by_id (bundles : list GhostBundle.t) (bundle : GhostBundle.t) :
  NoDup (map GhostBundle.id bundles) ->
  In bundle bundles ->
  JSMap.get (map (fun b => (GhostBundle.id b, b)) bundles) (GhostBundle.id bundle)
  = Some bundle.
Proof.
  induction bundles as [| x bundles IH]; intros N H; [destruct H |].
  cbn [map] in N. inversion N as [| ? ? Hx Hrest]; subst. cbn.
  destruct H as [-> | H].
  - rewrite String.eqb_refl. reflexivity.
  - destruct (String.eqb_spec (GhostBundle.id x) (GhostBundle.id bundle)) as [E | _].
    + exfalso. apply Hx. rewrite E. apply in_map, H.
    + apply IH; assumption.
Qed.

Section Storage.

Variable calculateHash : list Byte.byte -> string.
Variable encode : string -> list Byte.byte.

(** What [compileGame] stores and what is read back of it. *)
Lemma compileGame_readBack (file : list Byte.byte) (gameName gameId : string) :
  exists game bundles,
    GhostCompiler.compileGame calculateHash encode file gameName gameId
    = Some (game, bundles, steps (length bundles)) /\
    bundles = map (chunkAt calculateHash GhostCompiler.chunksizeBytes file gameId)
                (seq 0 (chunkCount GhostCompiler.chunksizeBytes (length file))) /\
    GhostGame.id game = gameId /\
    GhostGame.entryPoint game
    = match bundles with
      | first :: _ => GhostBundle.id first
      | [] => ""%string
      end /\
    GhostCompiler.calculateMerkleRoot calculateHash encode (map GhostBundle.hash bundles)
    = Some (GhostGame.integrity game) /\
    NoDup (map GhostBundle.id bundles) /\
    forall store,
      holdsNothingOf gameId store ->
      Permutation (readBack gameId bundles store) bundles /\
      StronglySorted keyBefore (readBack gameId bundles store) /\
      ((length file <= 10 * GhostCompiler.chunksizeBytes)%nat ->
       readBack gameId bundles store = bundles).
Proof.
  pose proof chunksizeBytes_positive as P.
  destruct (compileWith_run calculateHash encode GhostCompiler.chunksizeBytes file gameId
              gameName) as [integrity [Root Run]].
  cbv zeta in Root, Run.
  destruct (chunkCount_bounds GhostCompiler.chunksizeBytes (length file) P)
    as [Covers Starts].
  pose proof (chunk_ids calculateHash GhostCompiler.chunksizeBytes file gameId
                (chunkCount GhostCompiler.chunksizeBytes (length file))) as Ids.
  set (total := chunkCount GhostCompiler.chunksizeBytes (length file)) in *.
  set (bundles := map (chunkAt calculateHash GhostCompiler.chunksizeBytes file gameId)
                    (seq 0 total)) in *.
  assert (Forall (fun b => GhostBundle.gameId b = gameId) bundles) as G.
  { apply Forall_forall. intros b Hb. apply in_map_iff in Hb.
    destruct Hb as (k & <- & _). reflexivity. }
  eexists. exists bundles.
  split.
  { unfold GhostCompiler.compileGame. subst bundles.
    rewrite length_map, length_seq. exact Run. }
  cbn [GhostGame.id GhostGame.entryPoint GhostGame.integrity].
  split; [reflexivity |]. split; [reflexivity |]. split; [reflexivity |].
  split; [exact Root |]. split; [exact Ids |].
  intros store [S Nothing].
  assert (forall b r, In b bundles -> In r store -> IDB.id r <> GhostBundle.id b)
    as Fresh.
  { intros b r Hb Hr. apply in_map_iff in Hb. destruct Hb as (k & <- & _).
    exact (proj2 (Nothing r Hr) k). }
  destruct (readBack_sorted gameId bundles store Ids G S
              (fun r Hr => proj1 (Nothing r Hr)) Fresh) as [Perm Sorted].
  split; [exact Perm |]. split; [exact Sorted |].
  intros Small. subst bundles.
  apply readBack_in_order; [reflexivity | exact Perm | exact Sorted |].
  destruct (Nat.le_gt_cases total 10) as [L | L]; [exact L |].
  pose proof (Starts 10%nat L). lia.
Qed.

(** The check reads the bundles of the game back from the object store,
    where they lie in the order of their names, and compares the Merkle
    root of the hashes in that order with the root the compiler took in the
    order of the chunks.  It reads hashes and never the bytes: any store
    that gives the same hashes in the same order gets the same verdict.
    Once [compileGame] has stored its bundles, in a store that held nothing
    of the game, what is read back is the bundles in the order of their
    names.  A file of at most ten chunks is read back in the order of the
    chunks and passes.  From the eleventh chunk on the two orders differ,
    chunk 10 being read before chunk 2, and the check passes only if the
    two roots happen to agree. *)
Theorem verifyIntegrity_reads_hashes :
  forall (file : list Byte.byte) (gameName gameId : string),
  exists game bundles progress,
    GhostCompiler.compileGame calculateHash encode file gameName gameId
    = Some (game, bundles, progress) /\
    forall store,
      holdsNothingOf (GhostGame.id game) store ->
      let written := GhostCompiler.storeBundles bundles store in
      let stored := GhostCompiler.getAllBundlesForGame (GhostGame.id game) written in
      Permutation stored bundles /\
      StronglySorted keyBefore stored /\
      (GhostCompiler.verifyIntegrity calculateHash encode game written = true <->
       GhostCompiler.calculateMerkleRoot calculateHash encode (map GhostBundle.hash stored)
       = GhostCompiler.calculateMerkleRoot calculateHash encode
           (map GhostBundle.hash bundles)) /\
      (forall other,
          map GhostBundle.hash
            (GhostCompiler.getAllBundlesForGame (GhostGame.id game) other)
          = map GhostBundle.hash stored ->
          GhostCompiler.verifyIntegrity calculateHash encode game other
          = GhostCompiler.verifyIntegrity calculateHash encode game written) /\
      ((length file <= 10 * GhostCompiler.chunksizeBytes)%nat ->
       stored = bundles /\
       GhostCompiler.verifyIntegrity calculateHash encode game written = true) /\
      ((10 * GhostCompiler.chunksizeBytes < length file)%nat ->
       stored <> bundles /\
       exists tenth third front between back,
         nth_error bundles 10 = Some tenth /\
         nth_error bundles 2 = Some third /\
         stored = front ++ tenth :: between ++ third :: back).
Proof.
  intros file gameName gameId.
  destruct (compileGame_readBack file gameName gameId)
    as (game & bundles & Run & Shape & Id & _ & Root & Ids & Read).
  exists game, bundles, (steps (length bundles)).
  split; [exact Run |]. rewrite Id. intros store Nothing. cbv zeta.
  destruct (Read store Nothing) as (Perm & Sorted & Small).
  fold (readBack gameId bundles store).
  set (stored := readBack gameId bundles store) in *.
  assert (GhostCompiler.verifyIntegrity calculateHash encode game
            (GhostCompiler.storeBundles bundles store) = true <->
          GhostCompiler.calculateMerkleRoot calculateHash encode
            (map GhostBundle.hash stored)
          = GhostCompiler.calculateMerkleRoot calculateHash encode
              (map GhostBundle.hash bundles)) as Verdict.
  { unfold GhostCompiler.verifyIntegrity. rewrite Id.
    fold (readBack gameId bundles store). fold stored. rewrite Root.
    destruct (GhostCompiler.calculateMerkleRoot calculateHash encode
                (map GhostBundle.hash stored)) as [root |].
    - split.
      + intros E. apply String.eqb_eq in E. rewrite E. reflexivity.
      + intros [= ->]. apply String.eqb_refl.
    - split; discriminate. }
  split; [exact Perm |]. split; [exact Sorted |]. split; [exact Verdict |].
  split.
  { intros other E. unfold GhostCompiler.verifyIntegrity. rewrite Id.
    fold (readBack gameId bundles store). fold stored. rewrite E. reflexivity. }
  split.
  { intros S. pose proof (Small S) as E. split; [exact E |].
    apply Verdict. rewrite E. reflexivity. }
  intros Large.
  pose proof chunksizeBytes_positive as P.
  destruct (chunkCount_bounds GhostCompiler.chunksizeBytes (length file) P)
    as [Covers _].
  set (total := chunkCount GhostCompiler.chunksizeBytes (length file)) in *.
  assert (10 < total)%nat as T by nia.
  set (chunk := chunkAt calculateHash GhostCompiler.chunksizeBytes file gameId) in *.
  assert (nth_error bundles 10 = Some (chunk 10%nat)) as N10.
  { rewrite Shape, nth_error_map, nth_error_seq.
    apply Nat.ltb_lt in T. rewrite T. reflexivity. }
  assert (nth_error bundles 2 = Some (chunk 2%nat)) as N2.
  { rewrite Shape, nth_error_map, nth_error_seq.
    assert ((2 <? total)%nat = true) as T2 by (apply Nat.ltb_lt; lia).
    rewrite T2. reflexivity. }
  assert (In (chunk 10%nat) stored) as I10.
  { apply (Permutation_in _ (Permutation_sym Perm)). exact (nth_error_In _ _ N10). }
  assert (In (chunk 2%nat) stored) as I2.
  { apply (Permutation_in _ (Permutation_sym Perm)). exact (nth_error_In _ _ N2). }
  destruct (sorted_splits keyBefore stored (chunk 10%nat) (chunk 2%nat))
    as (front & between & back & Split).
  { intros x. apply string_lt_irrefl. }
  { intros x y z. apply string_lt_trans. }
  { exact Sorted. }
  { exact I10. }
  { exact I2. }
  { apply chunkId_ten_two. }
  split.
  - intros Same. rewrite Same in Split.
    assert (NoDup bundles) as ND by exact (NoDup_map_inv _ _ Ids).
    assert (nth_error bundles (length front) = Some (chunk 10%nat)) as F10.
    { rewrite Split, nth_error_app2 by lia. rewrite Nat.sub_diag. reflexivity. }
    assert (nth_error bundles (length front + 1 + length between) = Some (chunk 2%nat))
      as F2.
    { rewrite Split, nth_error_app2 by lia.
      replace (length front + 1 + length between - length front)%nat
        with (S (length between)) by lia.
      cbn [nth_error]. rewrite nth_error_app2 by lia. rewrite Nat.sub_diag. reflexivity. }
    assert (length front = 10)%nat as L10.
    { apply (proj1 (NoDup_nth_error bundles) ND).
      - apply nth_error_Some. rewrite F10. discriminate.
      - rewrite F10, N10. reflexivity. }
    assert (length front + 1 + length between = 2)%nat as L2.
    { apply (proj1 (NoDup_nth_error bundles) ND).
      - apply nth_error_Some. rewrite F2. discriminate.
      - rewrite F2, N2. reflexivity. }
    lia.
  - exists (chunk 10%nat), (chunk 2%nat), front, between, back.
    split; [exact N10 |]. split; [exact N2 | exact Split].
Qed.

(** A file compiled and stored in a store that held nothing of the game,
    then loaded into a fresh runtime, then started.  The game is loaded
    from what the object store gives back.  When the
    integrity check fails, loading reports the failure and leaves the
    runtime as it was, and [start] then finds no game.  When it passes,
    loading reports no error, the runtime holds the bundles under their
    names in the order in which they were read back, and the progress of
    loading is 0 followed by the very values the compilation reported;
    [start] then hands the first 256 KiB of the file to WebAssembly and
    runs in [wasm] mode exactly when that instantiates; an empty file is
    never handed over and runs as a simulation.  A file of at most ten
    chunks passes the check and is held in the order of the chunks. *)
Theorem compile_load_start :
  forall (file : list Byte.byte) (gameName gameId : string)
         (canvasElement : GhostRuntime.Canvas) (kind : GhostRuntime.ContextKind)
         (instantiate : list Byte.byte -> option GhostRuntime.WasmInstance)
         (now loopNow syncNow : Q) (handle : Z),
  exists game bundles progress,
    GhostCompiler.compileGame calculateHash encode file gameName gameId
    = Some (game, bundles, progress) /\
    forall store,
    holdsNothingOf (GhostGame.id game) store ->
    let written := GhostCompiler.storeBundles bundles store in
    let stored := GhostCompiler.getAllBundlesForGame (GhostGame.id game) written in
    let isValid := GhostCompiler.verifyIntegrity calculateHash encode game written in
    let loading := GhostRuntime.loadGame game stored isValid GhostRuntime.new in
    let r :=
      GhostRuntime.start canvasElement (Some kind) instantiate now loopNow syncNow handle
        (snd (fst loading)) in
    let instance :=
      match file with
      | [] => None
      | _ :: _ => instantiate (firstn GhostCompiler.chunksizeBytes file)
      end in
    ((length file <= 10 * GhostCompiler.chunksizeBytes)%nat ->
     isValid = true /\ stored = bundles) /\
    (isValid = false ->
     loading
     = (Some GhostRuntime.integrity_check_failed, GhostRuntime.new,
        [GhostRuntime.Emit (GhostRuntime.loading game 0)]) /\
     r = (Some GhostRuntime.no_game_loaded, GhostRuntime.new, [])) /\
    (isValid = true ->
     fst (fst loading) = None /\
     progressOf (snd loading) = 0 :: progress /\
     GhostRuntime.loadedBundles (snd (fst loading))
     = map (fun bundle => (GhostBundle.id bundle, bundle)) stored /\
     fst (fst r) = None /\
     GhostRuntime.wasmInstance (snd (fst r)) = instance /\
     hd_error (snd r)
     = Some (GhostRuntime.Emit
               (GhostRuntime.started game
                  (if GhostRuntime.isSome instance
                   then GhostRuntime.wasm_mode
                   else GhostRuntime.simulation_mode)))).
Proof.
  intros file gameName gameId canvasElement kind instantiate now loopNow syncNow handle.
  destruct (compileGame_readBack file gameName gameId)
    as (game & bundles & Run & Shape & Id & Entry & Root & Ids & Read).
  exists game, bundles, (steps (length bundles)).
  split; [exact Run |]. rewrite Id. intros store Nothing. cbv zeta.
  destruct (Read store Nothing) as (Perm & Sorted & Small).
  fold (readBack gameId bundles store).
  set (stored := readBack gameId bundles store) in *.
  set (isValid := GhostCompiler.verifyIntegrity calculateHash encode game
                    (GhostCompiler.storeBundles bundles store)).
  split.
  { intros S. pose proof (Small S) as E. split; [| exact E].
    subst isValid. unfold GhostCompiler.verifyIntegrity. rewrite Id.
    fold (readBack gameId bundles store). fold stored. rewrite E, Root.
    apply String.eqb_refl. }
  split.
  { intros ->. split; reflexivity. }
  intros ->.
  assert (NoDup (map GhostBundle.id stored)) as StoredIds.
  { apply (Permutation_NoDup (Permutation_sym (Permutation_map GhostBundle.id Perm))).
    exact Ids. }
  assert (length stored = length bundles) as Len by exact (Permutation_length Perm).
  assert (forall b, In b stored ->
                    JSMap.get (GhostRuntime.loadedBundles GhostRuntime.new)
                      (GhostBundle.id b) = None) as Fresh by (intros b _; reflexivity).
  assert (snd (fst (GhostRuntime.loadGame game stored true GhostRuntime.new))
          = GhostRuntime.set_currentGame (Some game)
              (GhostRuntime.set_loadedBundles
                 (map (fun bundle => (GhostBundle.id bundle, bundle)) stored)
                 GhostRuntime.new)) as Loaded.
  { unfold GhostRuntime.loadGame. cbn [negb fst snd]. rewrite storeBundles_run.
    rewrite (storeAll_fresh stored _ StoredIds Fresh). reflexivity. }
  split; [reflexivity |].
  split.
  { unfold GhostRuntime.loadGame. cbn [negb fst snd progressOf flat_map app].
    fold (progressOf (snd (GhostRuntime.storeBundles game (Z.of_nat (length stored))
                             stored GhostRuntime.new)
                      ++ [GhostRuntime.Emit (GhostRuntime.loaded game)])).
    unfold progressOf at 1. rewrite flat_map_app. cbn [flat_map app].
    rewrite app_nil_r.
    fold (progressOf (snd (GhostRuntime.storeBundles game (Z.of_nat (length stored))
                             stored GhostRuntime.new))).
    rewrite (storeBundles_progress game _ stored GhostRuntime.new StoredIds Fresh).
    rewrite Len. reflexivity. }
  rewrite Loaded.
  split; [reflexivity |].
  set (rt := GhostRuntime.set_currentGame (Some game)
               (GhostRuntime.set_loadedBundles
                  (map (fun bundle => (GhostBundle.id bundle, bundle)) stored)
                  GhostRuntime.new)).
  pose proof (start_run canvasElement kind instantiate now loopNow syncNow handle rt game
                eq_refl) as Started.
  cbv zeta in Started. rewrite Started. clear Started.
  pose proof chunksizeBytes_positive as P.
  destruct (chunkCount_bounds GhostCompiler.chunksizeBytes (length file) P)
    as [Covers Starts].
  assert (entryInstance instantiate game rt
          = match file with
            | [] => None
            | _ :: _ => instantiate (firstn GhostCompiler.chunksizeBytes file)
            end) as EntryI.
  { unfold entryInstance. subst rt.
    cbn [GhostRuntime.set_currentGame GhostRuntime.set_loadedBundles
         GhostRuntime.loadedBundles].
    rewrite Entry.
    destruct (chunkCount GhostCompiler.chunksizeBytes (length file)) as [| n] eqn:T.
    - cbn [seq map] in Shape. rewrite Shape in Perm |- *.
      apply Permutation_sym, Permutation_nil in Perm. rewrite Perm. cbn [map JSMap.get].
      destruct file as [| byte file]; [reflexivity |].
      cbn [length] in Covers. lia.
    - pose proof (Starts 0%nat ltac:(lia)) as S0. cbn [Nat.mul] in S0.
      destruct file as [| byte file]; [cbn in S0; lia |].
      cbn [seq map] in Shape.
      set (first := chunkAt calculateHash GhostCompiler.chunksizeBytes (byte :: file)
                      gameId 0) in *.
      assert (In first stored) as I0.
      { apply (Permutation_in _ (Permutation_sym Perm)). rewrite Shape. left. reflexivity. }
      rewrite Shape. rewrite (get_by_id stored first StoredIds I0).
      subst first. cbn [chunkAt GhostBundle.data Nat.mul skipn].
      destruct GhostCompiler.chunksizeBytes as [| size] eqn:Size; [lia |].
      reflexivity. }
  rewrite EntryI.
  set (instance := match file with
                   | [] => None
                   | _ :: _ => instantiate (firstn GhostCompiler.chunksizeBytes file)
                   end).
  pose proof (gameLoop_active loopNow syncNow handle
                (prepared canvasElement kind instance now rt) eq_refl) as Frame.
  cbv zeta in Frame. rewrite Frame; [| discriminate | discriminate]. clear Frame.
  cbn [fst snd hd_error GhostRuntime.wasmInstance prepared].
  split; [reflexivity |]. split; [| reflexivity].
  destruct instance; reflexivity.
Qed.

End Storage.

(** A file of eleven chunks, each filled with its own byte, and a stand-in
    hash that keeps the first and the last byte: the bundles come back with
    chunk 10 ahead of chunk 2, the root taken over them differs from the
    root of the game, and the check fails on what was just compiled. *)
Lemma elevenChunks_length :
  (10 * GhostCompiler.chunksizeBytes < length elevenChunks)%nat.
Proof. apply Nat.ltb_lt. vm_compute. reflexivity. Qed.

Lemma elevenChunks_verdict :
  option_map
    (fun r =>
       GhostCompiler.verifyIntegrity endsHash bytesOf (fst (fst r))
         (GhostCompiler.storeBundles (snd (fst r)) IDB.empty))
    (GhostCompiler.compileGame endsHash bytesOf elevenChunks "demo" "g")
  = Some false.
Proof. vm_compute. reflexivity. Qed.

Lemma verifyIntegrity_reads_hashes_witness :
  exists game bundles progress,
    GhostCompiler.compileGame endsHash bytesOf elevenChunks "demo" "g"
    = Some (game, bundles, progress) /\
    GhostCompiler.getAllBundlesForGame (GhostGame.id game)
      (GhostCompiler.storeBundles bundles IDB.empty) <> bundles /\
    GhostCompiler.verifyIntegrity endsHash bytesOf game
      (GhostCompiler.storeBundles bundles IDB.empty) = false.
Proof.
  destruct (verifyIntegrity_reads_hashes endsHash bytesOf elevenChunks "demo" "g")
    as (game & bundles & progress & Run & H).
  assert (holdsNothingOf (GhostGame.id game) IDB.empty) as Nothing
    by (split; [constructor | intros r []]).
  destruct (H IDB.empty Nothing) as (_ & _ & _ & _ & _ & Large).
  exists game, bundles, progress.
  split; [exact Run |].
  split; [exact (proj1 (Large elevenChunks_length)) |].
  pose proof elevenChunks_verdict as V. rewrite Run in V.
  cbn [option_map fst snd] in V. injection V as V. exact V.
Defined.

Lemma smallFile_length : (length smallFile <= 10 * GhostCompiler.chunksizeBytes)%nat.
Proof. apply Nat.leb_le. vm_compute. reflexivity. Qed.

Lemma compile_load_start_witness :
  exists game bundles progress,
    GhostCompiler.compileGame endsHash bytesOf smallFile "demo" "g"
    = Some (game, bundles, progress) /\
    let store := GhostCompiler.storeBundles bundles IDB.empty in
    let loading :=
      GhostRuntime.loadGame game
        (GhostCompiler.getAllBundlesForGame (GhostGame.id game) store)
        (GhostCompiler.verifyIntegrity endsHash bytesOf game store) GhostRuntime.new in
    fst (fst loading) = None /\
    GhostRuntime.wasmInstance
      (snd (fst (GhostRuntime.start {| GhostRuntime.width := 640; GhostRuntime.height := 480 |}
                   (Some GhostRuntime.webgl2)
                   (fun _ => Some {| GhostRuntime.exportsUpdate := true |})
                   0 16 17 1%Z (snd (fst loading)))))
    = Some {| GhostRuntime.exportsUpdate := true |}.
Proof.
  destruct (compile_load_start endsHash bytesOf smallFile "demo" "g"
              {| GhostRuntime.width := 640; GhostRuntime.height := 480 |}
              GhostRuntime.webgl2
              (fun _ => Some {| GhostRuntime.exportsUpdate := true |}) 0 16 17 1%Z)
    as (game & bundles & progress & Run & H).
  assert (holdsNothingOf (GhostGame.id game) IDB.empty) as Nothing
    by (split; [constructor | intros r []]).
  destruct (H IDB.empty Nothing) as (Small & _ & Valid).
  destruct (Small smallFile_length) as [V _].
  destruct (Valid V) as (L & _ & _ & _ & W & _).
  exists game, bundles, progress.
  split; [exact Run |]. cbv zeta. split; [exact L | exact W].
Defined.
